(** * HTTPServer: the acceptor / multiplexer core of esp32_https_server

    A shallow embedding of [HTTPServer.cpp] (constructor, [start], [stop],
    [setDefaultHeader], [loop], [startConnection], [createConnection],
    [startConnectionTask], [setupSocket], [teardownSocket]) together with
    the properties of the slot pool, the admission gate, the listener
    lifecycle and the time-budget arithmetic.

    The server is a record; every member function is a computation in a
    small state-and-log monad over that record.  Calls into the platform
    (sockets, [select], [millis], FreeRTOS) take their answers from an
    explicit environment record and leave an event in the log, each event
    paired with the server state at the moment it is logged.  The
    connection class is opaque: it is an interface ([HTTPConnection]) and
    all theorems hold for every implementation of it. *)

From Stdlib Require Import ZArith Lia Bool.
From stdpp Require Import base list strings.

Local Open Scope Z_scope.

(** ** Machine integers *)

Module Int.

Definition two32 : Z := 2 ^ 32.

(** Arithmetic on [uint32_t] wraps modulo 2^32. *)
Definition wrap32 (z : Z) : Z := z mod two32.

Definition INT_MAX : Z := 0x7FFFFFFF.

(** The value of a [uint32_t] bit pattern read as a two's-complement
    [int32_t]. *)
Definition signed32 (u : Z) : Z := if u >? INT_MAX then u - two32 else u.

Definition INT_MIN : Z := - INT_MAX - 1.

(** A value stored in the [long] of the target, which has 32 bits: what
    does not fit wraps around in two's complement. *)
Definition long32 (z : Z) : Z := signed32 (wrap32 z).

(** [htons] on the little-endian target: the two bytes are swapped. *)
Definition htons (p : Z) : Z := (p mod 256) * 256 + (p / 256) mod 256.

End Int.

(** ** Default headers *)

Module Headers.

Definition HTTPHeader : Type := (string * string)%type.

(** Modelled from the spec: the class HTTPHeaders is not part of the
    sources at hand.  The specification describes it as an ordered mapping
    from name to value whose entries are never removed, only appended or
    overwritten by name. *)
Definition HTTPHeaders : Type := list HTTPHeader.

(** Modelled from the spec: HTTPHeaders::set, missing for the same reason;
    an entry with the same name is overwritten in place, otherwise the
    new entry is appended. *)
Fixpoint set (h : HTTPHeader) (hs : HTTPHeaders) : HTTPHeaders :=
  match hs with
  | [] => [h]
  | h' :: rest => if String.eqb (fst h') (fst h) then h :: rest else h' :: set h rest
  end.

Fixpoint get (name : string) (hs : HTTPHeaders) : option string :=
  match hs with
  | [] => None
  | h' :: rest => if String.eqb (fst h') name then Some (snd h') else get name rest
  end.

End Headers.

(** A pointer to a header collection.  The only collection the server ever
    hands out is its own member [_defaultHeaders]; [&_defaultHeaders] is
    the address below. *)
Inductive HeadersPtr : Type :=
  | AddrOfDefaultHeaders.

(** ** The connection interface *)

(** What the server uses of a connection object.  Mutating member
    functions return the object after the call. *)
Class HTTPConnection (C : Type) : Type := {
  initialize : Z -> HeadersPtr -> C -> C;
  acceptConnection : C -> Z * C;
  conn_loop : C -> C;
  isTerminated : C -> bool;
  closeConnection : C -> C;
  isClosed : C -> bool;
  conn_socket : C -> Z;
  set_pendingQueue : C -> C;
  set_taskHandle : C -> C
}.

(** ** Descriptor sets *)

Definition fd_set : Type := list Z.

Definition FD_ZERO : fd_set := [].

Definition FD_ISSET (fd : Z) (s : fd_set) : bool := existsb (Z.eqb fd) s.

Definition FD_SET (fd : Z) (s : fd_set) : fd_set :=
  if FD_ISSET fd s then s else fd :: s.

(** ** Events *)

Inductive event : Type :=
  | EvDelay (ms : Z)
  | EvSocket (fd : Z)
  | EvBind (fd : Z) (addr port : Z) (err : Z)
  | EvListen (fd : Z) (backlog : Z) (err : Z)
  | EvClose (fd : Z)
  | EvDelete (idx : Z)
  | EvConnLoop (idx : Z)
  | EvCloseConnection (idx : Z)
  | EvSelect (nfds : Z) (read_fds except_fds : fd_set) (tv_sec tv_usec : Z)
  | EvStartConnection (idx : Z)
  | EvInitialize (idx : Z) (sock : Z) (hdrs : HeadersPtr)
  | EvAccept (idx : Z) (res : Z)
  | EvTaskCreate (idx : Z) (ok : bool)
  | EvNotifyPending
  | EvQueueSend (item : Z)
  | EvQueueReceive.

(** ** The server *)

Record sockaddr_in : Type := {
  sin_family : Z;
  sin_addr : Z;
  sin_port : Z
}.

Definition AF_INET : Z := 2.

Section ServerState.

Context {C : Type}.

Record HTTPServer : Type := {
  _port : Z;
  _maxConnections : Z;
  _bindAddress : Z;
  _connections : list (option C);
  _socket : Z;
  _sock_addr : sockaddr_in;
  _pendingQueue : option Z;
  _pendingConnection : bool;
  _running : bool;
  _defaultHeaders : Headers.HTTPHeaders
}.

(** Field updates. *)
Definition with_connections (cs : list (option C)) (s : HTTPServer) : HTTPServer :=
  {| _port := _port s; _maxConnections := _maxConnections s;
     _bindAddress := _bindAddress s; _connections := cs;
     _socket := _socket s; _sock_addr := _sock_addr s;
     _pendingQueue := _pendingQueue s;
     _pendingConnection := _pendingConnection s;
     _running := _running s; _defaultHeaders := _defaultHeaders s |}.

Definition with_socket (fd : Z) (s : HTTPServer) : HTTPServer :=
  {| _port := _port s; _maxConnections := _maxConnections s;
     _bindAddress := _bindAddress s; _connections := _connections s;
     _socket := fd; _sock_addr := _sock_addr s;
     _pendingQueue := _pendingQueue s;
     _pendingConnection := _pendingConnection s;
     _running := _running s; _defaultHeaders := _defaultHeaders s |}.

Definition with_sock_addr (a : sockaddr_in) (s : HTTPServer) : HTTPServer :=
  {| _port := _port s; _maxConnections := _maxConnections s;
     _bindAddress := _bindAddress s; _connections := _connections s;
     _socket := _socket s; _sock_addr := a;
     _pendingQueue := _pendingQueue s;
     _pendingConnection := _pendingConnection s;
     _running := _running s; _defaultHeaders := _defaultHeaders s |}.

Definition with_pendingQueue (q : option Z) (s : HTTPServer) : HTTPServer :=
  {| _port := _port s; _maxConnections := _maxConnections s;
     _bindAddress := _bindAddress s; _connections := _connections s;
     _socket := _socket s; _sock_addr := _sock_addr s;
     _pendingQueue := q;
     _pendingConnection := _pendingConnection s;
     _running := _running s; _defaultHeaders := _defaultHeaders s |}.

Definition with_pendingConnection (b : bool) (s : HTTPServer) : HTTPServer :=
  {| _port := _port s; _maxConnections := _maxConnections s;
     _bindAddress := _bindAddress s; _connections := _connections s;
     _socket := _socket s; _sock_addr := _sock_addr s;
     _pendingQueue := _pendingQueue s;
     _pendingConnection := b;
     _running := _running s; _defaultHeaders := _defaultHeaders s |}.

Definition with_running (b : bool) (s : HTTPServer) : HTTPServer :=
  {| _port := _port s; _maxConnections := _maxConnections s;
     _bindAddress := _bindAddress s; _connections := _connections s;
     _socket := _socket s; _sock_addr := _sock_addr s;
     _pendingQueue := _pendingQueue s;
     _pendingConnection := _pendingConnection s;
     _running := b; _defaultHeaders := _defaultHeaders s |}.

Definition with_defaultHeaders (h : Headers.HTTPHeaders) (s : HTTPServer) : HTTPServer :=
  {| _port := _port s; _maxConnections := _maxConnections s;
     _bindAddress := _bindAddress s; _connections := _connections s;
     _socket := _socket s; _sock_addr := _sock_addr s;
     _pendingQueue := _pendingQueue s;
     _pendingConnection := _pendingConnection s;
     _running := _running s; _defaultHeaders := h |}.

(** The collection a headers pointer designates, in a given server state. *)
Definition deref (p : HeadersPtr) (s : HTTPServer) : Headers.HTTPHeaders :=
  match p with
  | AddrOfDefaultHeaders => _defaultHeaders s
  end.

(** *** The state-and-log monad *)

Definition log : Type := list (event * HTTPServer).

Definition M (A : Type) : Type := HTTPServer -> A * HTTPServer * log.

Definition ret {A} (a : A) : M A := fun s => (a, s, []).

Definition bind {A B} (m : M A) (k : A -> M B) : M B :=
  fun s =>
    let '(a, s1, l1) := m s in
    let '(b, s2, l2) := k a s1 in
    (b, s2, l1 ++ l2).

Definition get : M HTTPServer := fun s => (s, s, []).

Definition modify (f : HTTPServer -> HTTPServer) : M unit := fun s => (tt, f s, []).

Definition emit (e : event) : M unit := fun s => (tt, s, [(e, s)]).

(** The three components of a finished run. *)
Definition value {A} (r : A * HTTPServer * log) : A := fst (fst r).
Definition final {A} (r : A * HTTPServer * log) : HTTPServer := snd (fst r).
Definition events {A} (r : A * HTTPServer * log) : log := snd r.

End ServerState.

Arguments HTTPServer C : clear implicits.
Arguments M C A : clear implicits.
Arguments log C : clear implicits.

Notation "'let*' x ':=' m 'in' k" := (bind m (fun x => k))
  (at level 10, x pattern, m at level 100, k at level 200).

(** ** The platform *)

(** Answers of the socket layer to [setupSocket]: the descriptor returned
    by [socket], and the error codes of [bind] and [listen]. *)
Record SocketEnv : Type := {
  socket_result : Z;
  bind_result : Z;
  listen_result : Z
}.

(** What one admission meets: the object [new HTTPConnection(this)]
    yields, and (worker configuration only) whether [xTaskCreate]
    succeeds. *)
Record Admission (C : Type) : Type := {
  adm_object : C;
  adm_task_created : bool
}.
Arguments adm_object {C} _.
Arguments adm_task_created {C} _.

(** What one call of [loop] meets: the two readings of [millis], the
    outcome of [select], and the admissions before and after the poll. *)
Record LoopEnv (C : Type) : Type := {
  millis_start : Z;
  millis_end : Z;
  select_fails : bool;
  select_readable : Z -> bool;
  select_exceptional : Z -> bool;
  adm_pending : Admission C;
  adm_new : Admission C
}.
Arguments millis_start {C} _.
Arguments millis_end {C} _.
Arguments select_fails {C} _.
Arguments select_readable {C} _.
Arguments select_exceptional {C} _.
Arguments adm_pending {C} _.
Arguments adm_new {C} _.

(** [select]: on failure the result is -1 and the sets are left alone;
    otherwise only the ready descriptors stay in each set and their number
    is returned. *)
Definition select {C} (env : LoopEnv C) (read_fds except_fds : fd_set)
  : Z * fd_set * fd_set :=
  if select_fails env then (-1, read_fds, except_fds)
  else
    let r := filter (fun fd => Is_true (select_readable env fd)) read_fds in
    let e := filter (fun fd => Is_true (select_exceptional env fd)) except_fds in
    (Z.of_nat (length r) + Z.of_nat (length e), r, e).

(** [millis] returns an [unsigned long]. *)
Definition millis (reading : Z) : Z := Int.wrap32 reading.

(** ** The member functions *)

Section Operations.

Context {C : Type} `{HTTPConnection C}.

(** The build-time switch between the cooperative configuration ([false])
    and one worker task per connection ([true]). *)
Variable HTTPS_TASK_PER_CONNECTION : bool.

(** [_connections[i]]: [None] is the NULL pointer.  An index outside the
    array reads as NULL and a write to it is dropped (both are undefined
    in C); the loops of the server run over [0 .. _maxConnections - 1],
    the length the constructor gives the array. *)
Definition slot (s : HTTPServer C) (i : Z) : option C :=
  match _connections s !! Z.to_nat i with
  | Some (Some c) => Some c
  | _ => None
  end.

(** [_connections[i] = c]. *)
Definition put_slot (i : Z) (c : option C) (s : HTTPServer C) : HTTPServer C :=
  with_connections (<[Z.to_nat i := c]> (_connections s)) s.

Definition set_slot (i : Z) (c : option C) : M C unit := modify (put_slot i c).

(** [for (int i = 0; i < n; i++)] with the locals of the body threaded
    through. *)
Fixpoint for_each {A} (idxs : list Z) (body : Z -> A -> M C A) (acc : A) : M C A :=
  match idxs with
  | [] => ret acc
  | i :: rest => let* acc' := body i acc in for_each rest body acc'
  end.

Definition range (n : Z) : list Z := map Z.of_nat (seq 0 (Z.to_nat n)).

(** The constructor. *)
Definition HTTPServer_new (port maxConnections bindAddress : Z) : HTTPServer C :=
  {| _port := port; _maxConnections := maxConnections;
     _bindAddress := bindAddress;
     _connections := replicate (Z.to_nat maxConnections) None;
     _socket := -1;
     _sock_addr := {| sin_family := 0; sin_addr := 0; sin_port := 0 |};
     _pendingQueue := None;
     _pendingConnection := false;
     _running := false;
     _defaultHeaders := [] |}.

(** *** Listener socket *)

Definition setupSocket (env : SocketEnv) : M C Z :=
  let* _ := emit (EvSocket (socket_result env)) in
  let* _ := modify (with_socket (socket_result env)) in
  let* s := get in
  if _socket s >=? 0 then
    let* _ := modify (with_sock_addr
                {| sin_family := AF_INET; sin_addr := _bindAddress s;
                   sin_port := Int.htons (_port s) |}) in
    let err := bind_result env in
    let* _ := emit (EvBind (_socket s) (_bindAddress s) (Int.htons (_port s)) err) in
    if err =? 0 then
      let err := listen_result env in
      let* _ := emit (EvListen (_socket s) (_maxConnections s) err) in
      if err =? 0 then ret 1
      else
        let* _ := emit (EvClose (_socket s)) in
        let* _ := modify (with_socket (-1)) in
        ret 0
    else
      let* _ := emit (EvClose (_socket s)) in
      let* _ := modify (with_socket (-1)) in
      ret 0
  else
    let* _ := modify (with_socket (-1)) in
    ret 0.

Definition teardownSocket : M C unit :=
  let* s := get in
  let* _ := emit (EvClose (_socket s)) in
  modify (with_socket (-1)).

Definition start (env : SocketEnv) : M C Z :=
  let* s := get in
  if negb (_running s) then
    let* ok := setupSocket env in
    if negb (ok =? 0) then
      let* _ := modify (with_running true) in
      ret 1
    else ret 0
  else ret 1.

Definition isRunning : M C bool :=
  let* s := get in ret (_running s).

Definition setDefaultHeader (name value : string) : M C unit :=
  modify (fun s => with_defaultHeaders (Headers.set (name, value) (_defaultHeaders s)) s).

(** *** Admission *)

(** [xQueueSend] and [xQueueReceive] on the one-item queue, both with a
    zero wait: sending to a full queue and receiving from an empty one
    change nothing. *)
Definition xQueueSend (item : Z) : M C unit :=
  let* _ := emit (EvQueueSend item) in
  modify (fun s => match _pendingQueue s with
                   | None => with_pendingQueue (Some item) s
                   | Some _ => s
                   end).

Definition xQueueReceive : M C unit :=
  let* _ := emit EvQueueReceive in
  modify (with_pendingQueue None).

(** The worker itself runs concurrently with the server and is outside
    this model; what is kept of [startConnectionTask] is what it does to
    the connection object, which lives in slot [idx], and its result. *)
Definition startConnectionTask (adm : Admission C) (idx : Z) (connection : C) : M C Z :=
  let connection := set_pendingQueue connection in
  let* _ := set_slot idx (Some connection) in
  let taskRes := adm_task_created adm in
  let* _ := emit (EvTaskCreate idx taskRes) in
  if negb taskRes then ret (-1)
  else
    let* _ := set_slot idx (Some (set_taskHandle connection)) in
    ret 1.

Definition createConnection (adm : Admission C) (idx : Z) : M C Z :=
  let* s := get in
  let newConnection := adm_object adm in
  let* _ := set_slot idx (Some newConnection) in
  let* _ := emit (EvInitialize idx (_socket s) AddrOfDefaultHeaders) in
  let newConnection := initialize (_socket s) AddrOfDefaultHeaders newConnection in
  let* _ := set_slot idx (Some newConnection) in
  if HTTPS_TASK_PER_CONNECTION then
    startConnectionTask adm idx newConnection
  else
    let '(res, newConnection) := acceptConnection newConnection in
    let* _ := emit (EvAccept idx res) in
    let* _ := set_slot idx (Some newConnection) in
    ret res.

Definition startConnection (adm : Admission C) (idx : Z) : M C Z :=
  let* _ := emit (EvStartConnection idx) in
  let* _ := modify (with_pendingConnection false) in
  let* _ := xQueueReceive in
  let* socketIdentifier := createConnection adm idx in
  if socketIdentifier <? 0 then
    let* _ := emit (EvDelete idx) in
    let* _ := set_slot idx None in
    ret socketIdentifier
  else ret socketIdentifier.

(** *** Shutdown *)

(** The body of the [for] loop of [stop]; the accumulator is the local
    [hasOpenConnections]. *)
Definition stop_body (i : Z) (hasOpenConnections : bool) : M C bool :=
  let* s := get in
  match slot s i with
  | None => ret hasOpenConnections
  | Some c =>
      let* _ := emit (EvCloseConnection i) in
      let c := closeConnection c in
      let* _ := set_slot i (Some c) in
      if isClosed c then
        let* _ := emit (EvDelete i) in
        let* _ := set_slot i None in
        ret hasOpenConnections
      else ret true
  end.

(** One turn of the [while] loop of [stop]. *)
Definition stop_sweep : M C bool :=
  let* s := get in
  let* hasOpenConnections := for_each (range (_maxConnections s)) stop_body false in
  let* _ := emit (EvDelay 1) in
  ret hasOpenConnections.

(** The [while] loop of [stop], bounded by [fuel] turns; [None] when the
    loop is still running after them. *)
Fixpoint stop_while (fuel : nat) (s : HTTPServer C) : option (HTTPServer C * log C) :=
  match fuel with
  | O => None
  | S fuel' =>
      let '(hasOpenConnections, s1, l1) := stop_sweep s in
      if hasOpenConnections then
        match stop_while fuel' s1 with
        | Some (s2, l2) => Some (s2, l1 ++ l2)
        | None => None
        end
      else Some (s1, l1)
  end.

Definition stop (fuel : nat) (s : HTTPServer C) : option (HTTPServer C * log C) :=
  if _running s then
    match stop_while fuel (with_running false s) with
    | Some (s1, l1) =>
        let '(_, s2, l2) := teardownSocket s1 in
        Some (s2, l1 ++ l2)
    | None => None
    end
  else Some (s, []).

(** *** The accept loop *)

(** The locals of step 1 of [loop]. *)
Record scan_locals : Type := {
  freeConnectionIdx : Z;
  max_fd : Z;
  except_fds : fd_set
}.

(** The body of the first [for] loop of [loop]: reclaim a terminated
    connection, remember a free index, watch (and, in the cooperative
    configuration, serve) a live connection. *)
Definition loop_body (i : Z) (l : scan_locals) : M C scan_locals :=
  let* s := get in
  match slot s i with
  | None =>
      ret {| freeConnectionIdx := i; max_fd := max_fd l; except_fds := except_fds l |}
  | Some c =>
      if isTerminated c then
        let* _ := emit (EvDelete i) in
        let* _ := set_slot i None in
        ret {| freeConnectionIdx := i; max_fd := max_fd l; except_fds := except_fds l |}
      else
        let fd := conn_socket c in
        let l' := {| freeConnectionIdx := freeConnectionIdx l;
                     max_fd := if fd >? max_fd l then fd else max_fd l;
                     except_fds := FD_SET fd (except_fds l) |} in
        if HTTPS_TASK_PER_CONNECTION then ret l'
        else
          let* _ := emit (EvConnLoop i) in
          let* _ := set_slot i (Some (conn_loop c)) in
          ret l'
  end.

(** The body of the second [for] loop of [loop], which looks for a free
    index again after the pending connection has been admitted. *)
Definition rescan_body (i : Z) (freeIdx : Z) : M C Z :=
  let* s := get in
  match slot s i with
  | None => ret i
  | Some _ => ret freeIdx
  end.

(** Step 1 of [loop]: process the existing connections. *)
Definition loop_reclaim : M C scan_locals :=
  let* s := get in
  for_each (range (_maxConnections s)) loop_body
    {| freeConnectionIdx := -1; max_fd := -1; except_fds := FD_ZERO |}.

(** Step 2 of [loop]: admit the pending connection if there is one and a
    slot for it, then look for a free slot again.  The result is the
    local [freeConnectionIdx] after the step. *)
Definition loop_admit_pending (env : LoopEnv C) (freeConnectionIdx : Z) : M C Z :=
  let* s := get in
  if _pendingConnection s && (freeConnectionIdx >? -1) then
    let* _ := startConnection (adm_pending env) freeConnectionIdx in
    for_each (range (_maxConnections s)) rescan_body (-1)
  else ret freeConnectionIdx.

(** Step 3 of [loop], first half: the read set holds the listener unless
    a connection is pending; then [select] with the timeout computed
    from [timeoutMs].  The result is [nfds] and the read set after the
    call.  [timeoutMs] is an [int], so [tv_sec] is its quotient exactly;
    [tv_usec] is a [long], which has 32 bits on the target, so the
    product written in the source is kept modulo 2^32. *)
Definition loop_poll (env : LoopEnv C) (timeoutMs : Z) (l : scan_locals) : M C (Z * fd_set) :=
  let* s := get in
  let read_fds := if negb (_pendingConnection s) then FD_SET (_socket s) FD_ZERO else FD_ZERO in
  let max_fd := if negb (_pendingConnection s) && (_socket s >? max_fd l)
                then _socket s else max_fd l in
  let tv_sec := Z.quot timeoutMs 1000 in
  let tv_usec := Int.long32 ((timeoutMs - tv_sec) * 1000) in
  let* _ := emit (EvSelect (max_fd + 1) read_fds (except_fds l) tv_sec tv_usec) in
  let '(nfds, read_fds, _) := select env read_fds (except_fds l) in
  ret (nfds, read_fds).

(** Step 3 of [loop], second half: a new connection on the listener is
    admitted if there is space, and otherwise recorded as pending. *)
Definition loop_accept (env : LoopEnv C) (freeConnectionIdx : Z) (nfds : Z) (read_fds : fd_set)
  : M C unit :=
  let* s := get in
  if (nfds >? 0) && FD_ISSET (_socket s) read_fds then
    if freeConnectionIdx >? -1 then
      let* _ := startConnection (adm_new env) freeConnectionIdx in
      ret tt
    else if negb (_pendingConnection s) then
      let* _ := emit EvNotifyPending in
      let* _ := modify (with_pendingConnection true) in
      xQueueSend (_socket s)
    else ret tt
  else ret tt.

(** The value [loop] returns: the remaining time, computed in
    [uint32_t], with the upper half of the range mapped to zero. *)
Definition remaining (startMs timeoutMs nowMs : Z) : Z :=
  let deltaMs := Int.wrap32 (startMs + timeoutMs - nowMs) in
  if deltaMs >? 0x7FFFFFFF then 0 else deltaMs.

Definition loop (env : LoopEnv C) (timeoutMs : Z) : M C Z :=
  let* s := get in
  if negb (_running s) then
    let* _ := emit (EvDelay timeoutMs) in
    ret 0
  else
    let startMs := millis (millis_start env) in
    let* l := loop_reclaim in
    let* freeConnectionIdx := loop_admit_pending env (freeConnectionIdx l) in
    let* polled := loop_poll env timeoutMs l in
    let* _ := loop_accept env freeConnectionIdx (fst polled) (snd polled) in
    ret (remaining startMs timeoutMs (millis (millis_end env))).

End Operations.

Arguments loop {C _} HTTPS_TASK_PER_CONNECTION env timeoutMs.

(** ** A simulated connection

    A small implementation of the connection interface, used to run the
    server on concrete inputs. *)

Module Sim.

Record conn : Type := {
  sock : Z;
  accept_result : Z;
  steps_to_terminate : nat;
  closes_to_closed : nat;
  listener : Z;
  headers : option HeadersPtr;
  queue_attached : bool;
  task_attached : bool
}.

Definition make (accept_result : Z) (steps closes : nat) : conn :=
  {| sock := -1; accept_result := accept_result;
     steps_to_terminate := steps; closes_to_closed := closes;
     listener := -1; headers := None;
     queue_attached := false; task_attached := false |}.

#[global] Instance connection : HTTPConnection conn := {|
  initialize := fun fd p c =>
    {| sock := sock c; accept_result := accept_result c;
       steps_to_terminate := steps_to_terminate c;
       closes_to_closed := closes_to_closed c;
       listener := fd; headers := Some p;
       queue_attached := queue_attached c; task_attached := task_attached c |};
  acceptConnection := fun c =>
    (accept_result c,
     {| sock := accept_result c; accept_result := accept_result c;
        steps_to_terminate := steps_to_terminate c;
        closes_to_closed := closes_to_closed c;
        listener := listener c; headers := headers c;
        queue_attached := queue_attached c; task_attached := task_attached c |});
  conn_loop := fun c =>
    {| sock := sock c; accept_result := accept_result c;
       steps_to_terminate := Nat.pred (steps_to_terminate c);
       closes_to_closed := closes_to_closed c;
       listener := listener c; headers := headers c;
       queue_attached := queue_attached c; task_attached := task_attached c |};
  isTerminated := fun c => Nat.eqb (steps_to_terminate c) 0;
  closeConnection := fun c =>
    {| sock := sock c; accept_result := accept_result c;
       steps_to_terminate := steps_to_terminate c;
       closes_to_closed := Nat.pred (closes_to_closed c);
       listener := listener c; headers := headers c;
       queue_attached := queue_attached c; task_attached := task_attached c |};
  isClosed := fun c => Nat.eqb (closes_to_closed c) 0;
  conn_socket := sock;
  set_pendingQueue := fun c =>
    {| sock := sock c; accept_result := accept_result c;
       steps_to_terminate := steps_to_terminate c;
       closes_to_closed := closes_to_closed c;
       listener := listener c; headers := headers c;
       queue_attached := true; task_attached := task_attached c |};
  set_taskHandle := fun c =>
    {| sock := sock c; accept_result := accept_result c;
       steps_to_terminate := steps_to_terminate c;
       closes_to_closed := closes_to_closed c;
       listener := listener c; headers := headers c;
       queue_attached := queue_attached c; task_attached := true |}
|}.

(** An environment in which the listener (descriptor [fd]) is readable or
    not, nothing else is ready, and the two admissions meet the given
    objects. *)
Definition env (t0 t1 : Z) (fd : Z) (ready : bool) (c1 c2 : conn) : LoopEnv conn :=
  {| millis_start := t0; millis_end := t1; select_fails := false;
     select_readable := fun x => ready && (x =? fd);
     select_exceptional := fun _ => false;
     adm_pending := {| adm_object := c1; adm_task_created := true |};
     adm_new := {| adm_object := c2; adm_task_created := true |} |}.

Definition sockets_ok (fd : Z) : SocketEnv :=
  {| socket_result := fd; bind_result := 0; listen_result := 0 |}.

End Sim.


(** ** Vocabulary of the properties *)

Section Vocabulary.

Context {C : Type}.

(** Index [idx] is the highest free index among the first [n] slots, or
    it is -1 and none of them is free. *)
Definition highest_free_below (n : Z) (s : HTTPServer C) (idx : Z) : Prop :=
  (idx = -1 /\ forall j, 0 <= j < n -> slot s j <> None) \/
  (0 <= idx < n /\ slot s idx = None /\ forall j, idx < j < n -> slot s j <> None).

Definition highest_free (s : HTTPServer C) (idx : Z) : Prop :=
  highest_free_below (_maxConnections s) s idx.

(** Index [idx] is the lowest free index of the pool, or it is -1 and no
    slot is free. *)
Definition lowest_free (s : HTTPServer C) (idx : Z) : Prop :=
  (idx = -1 /\ forall j, 0 <= j < _maxConnections s -> slot s j <> None) \/
  (0 <= idx < _maxConnections s /\ slot s idx = None /\
   forall j, 0 <= j < idx -> slot s j <> None).


Definition all_slots_empty (s : HTTPServer C) : Prop :=
  forall j, 0 <= j < _maxConnections s -> slot s j = None.

(** Two states that differ in the slot array at most. *)
Definition same_but_slots (s s' : HTTPServer C) : Prop :=
  s' = with_connections (_connections s') s.

Definition is_admission (e : event) : bool :=
  match e with EvStartConnection _ => true | _ => false end.

Definition is_raise (e : event) : bool :=
  match e with EvNotifyPending => true | _ => false end.

Definition is_poll (e : event) : bool :=
  match e with EvSelect _ _ _ _ _ => true | _ => false end.

(** The length of a [timeval], in microseconds. *)
Definition timeval_micros (tv_sec tv_usec : Z) : Z := tv_sec * 1000000 + tv_usec.

(** Events that leave the admission gate and its queue alone. *)
Definition gate_untouched (e : event) : bool :=
  match e with
  | EvStartConnection _ | EvNotifyPending | EvQueueSend _ | EvQueueReceive => false
  | _ => true
  end.

(** The number of events of a kind in a log. *)
Definition occurrences (kind : event -> bool) (l : log C) : nat :=
  length (List.filter (fun es => kind (fst es)) l).

(** The number of calls of [startConnection] in a log. *)
Definition admissions (l : log C) : nat := occurrences is_admission l.

(** The number of times a log raises the gate. *)
Definition raises (l : log C) : nat := occurrences is_raise l.

(** Events of the reclaiming scan: deletions and per-connection steps,
    each seen in a state that differs from [s0] in its slots only. *)
Definition scan_event (s0 : HTTPServer C) (es : event * HTTPServer C) : Prop :=
  is_admission (fst es) = false /\ fst es <> EvNotifyPending /\
  same_but_slots s0 (snd es) /\ is_poll (fst es) = false.

(** What the events of an admission after the first have in common: the
    gate is already down when they are logged. *)
Definition admission_event (es : event * HTTPServer C) : Prop :=
  is_admission (fst es) = false /\ fst es <> EvNotifyPending /\
  _pendingConnection (snd es) = false /\ is_poll (fst es) = false.

End Vocabulary.

(** ** The public surface as a transition system *)

Inductive call (C : Type) : Type :=
  | Start (env : SocketEnv)
  | Stop (fuel : nat)
  | Loop (env : LoopEnv C) (timeoutMs : Z)
  | SetDefaultHeader (name value : string)
  | IsRunning.
Arguments Start {C} env.
Arguments Stop {C} fuel.
Arguments Loop {C} env timeoutMs.
Arguments SetDefaultHeader {C} name value.
Arguments IsRunning {C}.

Section Surface.

Context {C : Type} `{HTTPConnection C}.

Variable tpc : bool.

(** One call from outside: the state it leaves and what it logs, or
    [None] when [stop] has not returned within its fuel. *)
Definition run (c : call C) (s : HTTPServer C) : option (HTTPServer C * log C) :=
  match c with
  | Start env => Some (final (start env s), events (start env s))
  | Stop fuel => stop fuel s
  | Loop env timeoutMs =>
      Some (final (loop tpc env timeoutMs s), events (loop tpc env timeoutMs s))
  | SetDefaultHeader name value =>
      Some (final (setDefaultHeader name value s), events (setDefaultHeader name value s))
  | IsRunning => Some (final (isRunning s), events (isRunning s))
  end.

(** After at most [n] requests to close, [isClosed] has reported true. *)
Fixpoint closes_within (n : nat) (c : C) : bool :=
  match n with
  | O => false
  | S n' => isClosed (closeConnection c) || closes_within n' (closeConnection c)
  end.

(** What one sweep of [stop] makes of a slot. *)
Definition swept (o : option C) : option C :=
  match o with
  | None => None
  | Some c => if isClosed (closeConnection c) then None else Some (closeConnection c)
  end.

(** The connection object as [acceptConnection] finds it. *)
Definition initialized (adm : Admission C) (s : HTTPServer C) : C :=
  initialize (_socket s) AddrOfDefaultHeaders (adm_object adm).

(** Events of a sweep: they leave the gate alone and are logged in states
    that differ from [s0] in their slots only. *)
Definition sweep_event (s0 : HTTPServer C) (es : event * HTTPServer C) : Prop :=
  gate_untouched (fst es) = true /\ same_but_slots s0 (snd es).

(** The invariant of the [for] loop of [stop] after [k] slots. *)
Definition sweep_inv (s0 : HTTPServer C) (k : nat) (hasOpen : bool) (s : HTTPServer C) : Prop :=
  same_but_slots s0 s /\
  (forall j, Z.of_nat k <= j -> slot s j = slot s0 j) /\
  (forall j, 0 <= j < Z.of_nat k -> slot s j = swept (slot s0 j)) /\
  (hasOpen = false -> forall j, 0 <= j < Z.of_nat k -> slot s j = None) /\
  (hasOpen = true -> exists j, 0 <= j < Z.of_nat k /\ slot s j <> None).

End Surface.

(** ** Concrete runs *)

Module Runs.

(** A server with two slots, started on listener descriptor 3. *)
Definition started : HTTPServer Sim.conn :=
  final (start (Sim.sockets_ok 3) (HTTPServer_new 80 2 0)).

(** One call of [loop 100] in the cooperative configuration; the listener
    is readable or not, and admissions meet [c1] (pending) and [c2]
    (new). *)
Definition tick (ready : bool) (c1 c2 : Sim.conn) (s : HTTPServer Sim.conn)
  : Z * HTTPServer Sim.conn * log Sim.conn :=
  loop false (Sim.env 0 10 3 ready c1 c2) 100 s.

(** Two connections arrive and are admitted, a third finds the pool full
    and is recorded as pending; the two admitted ones then terminate. *)
Definition after_first : HTTPServer Sim.conn :=
  final (tick true (Sim.make 7 9 1) (Sim.make 7 2 1) started).
Definition after_second : HTTPServer Sim.conn :=
  final (tick true (Sim.make 8 9 1) (Sim.make 8 1 1) after_first).
Definition gate_raised : HTTPServer Sim.conn :=
  final (tick true (Sim.make 9 9 1) (Sim.make 9 9 1) after_second).

(** The pool of [after_second] once step 1 of the next call has served
    its two connections. *)
Definition after_second_stepped : HTTPServer Sim.conn :=
  final (loop_reclaim false after_second).

End Runs.

(** ** Vocabulary of the further properties *)

Section Shapes.

Context {C : Type}.

(** The slot array has the length the constructor gave it. *)
Definition pool_shaped (s : HTTPServer C) : Prop :=
  length (_connections s) = Z.to_nat (_maxConnections s).

(** The listener socket is a descriptor while the server runs and -1
    while it does not. *)
Definition listener_coherent (s : HTTPServer C) : Prop :=
  if _running s then 0 <= _socket s else _socket s = -1.

(** The queue holds an item exactly while the gate is raised. *)
Definition gate_coherent (s : HTTPServer C) : Prop :=
  if _pendingConnection s then _pendingQueue s <> None else _pendingQueue s = None.

(** Two states with the same configuration, listener, run flag and
    default headers: they differ in slots, gate flag and queue at most. *)
Definition same_config (s s' : HTTPServer C) : Prop :=
  _port s' = _port s /\ _maxConnections s' = _maxConnections s /\
  _bindAddress s' = _bindAddress s /\ _socket s' = _socket s /\
  _sock_addr s' = _sock_addr s /\ _running s' = _running s /\
  _defaultHeaders s' = _defaultHeaders s.

(** Two states whose slot arrays have the same length and whose
    capacity is the same. *)
Definition same_length (s s' : HTTPServer C) : Prop :=
  length (_connections s') = length (_connections s) /\
  _maxConnections s' = _maxConnections s.

(** Calls that create, bind, listen on or close a socket. *)
Definition is_socket_call (e : event) : bool :=
  match e with
  | EvSocket _ | EvBind _ _ _ _ | EvListen _ _ _ | EvClose _ => true
  | _ => false
  end.

(** The number of occupied slots. *)
Definition occupied (s : HTTPServer C) : nat :=
  length (List.filter (fun o : option C => match o with Some _ => true | None => false end)
            (_connections s)).

(** What one slot adds to that number. *)
Definition holds (o : option C) : nat :=
  match o with Some _ => 1%nat | None => 0%nat end.

(** Events that delete a connection object. *)
Definition is_delete (e : event) : bool :=
  match e with EvDelete _ => true | _ => false end.

(** The number of connection objects a log deletes.  The number it
    creates is the number of its admissions: [createConnection] is the
    only place with a [new HTTPConnection], and [startConnection] is its
    only caller. *)
Definition deletions (l : log C) : nat := occurrences is_delete l.

(** The books of a run from [s] to [s'] with log [l] balance: the
    objects in slots afterwards, and those deleted on the way, are the
    objects in slots before and those created on the way. *)
Definition accounted (s s' : HTTPServer C) (l : log C) : Prop :=
  (occupied s' + deletions l = occupied s + admissions l)%nat.

End Shapes.

Section Liveness.

Context {C : Type} `{HTTPConnection C}.

Variable tpc : bool.

(** What step 1 of [loop] makes of a slot: a terminated connection is
    deleted, a live one stays (and, in the cooperative configuration,
    has made one step). *)
Definition reclaimed (o : option C) : option C :=
  match o with
  | None => None
  | Some c =>
      if isTerminated c then None
      else Some (if tpc then c else conn_loop c)
  end.

(** Descriptor [fd] is the socket of a connection that is live in one of
    the first [k] slots. *)
Definition live_socket (s : HTTPServer C) (k : Z) (fd : Z) : Prop :=
  exists j c, 0 <= j < k /\ slot s j = Some c /\ isTerminated c = false /\
              conn_socket c = fd.

(** The invariant of the first [for] loop of [loop] after [k] slots. *)
Definition reclaim_inv (s0 : HTTPServer C) (k : nat) (l : scan_locals) (s : HTTPServer C)
  : Prop :=
  same_but_slots s0 s /\
  (forall j, Z.of_nat k <= j -> slot s j = slot s0 j) /\
  (forall j, 0 <= j < Z.of_nat k -> slot s j = reclaimed (slot s0 j)) /\
  (forall fd, In fd (except_fds l) <-> live_socket s0 (Z.of_nat k) fd) /\
  (forall fd, In fd (except_fds l) -> fd <= max_fd l) /\
  -1 <= max_fd l.

(** Some slot of the pool is free or holds a terminated connection. *)
Definition reclaimable (s : HTTPServer C) : Prop :=
  exists j, 0 <= j < _maxConnections s /\ reclaimed (slot s j) = None.

(** No slot of the pool is free or holds a terminated connection. *)
Definition pool_full (s : HTTPServer C) : Prop :=
  forall j, 0 <= j < _maxConnections s -> reclaimed (slot s j) <> None.

End Liveness.

(** ** Deletions during shutdown *)

Section Draining.

Context {C : Type} `{HTTPConnection C}.

(** A deletion logged by [stop] hits a slot whose connection reports
    closed at that moment; other events are not constrained. *)
Definition deletes_closed (es : event * HTTPServer C) : Prop :=
  match fst es with
  | EvDelete j => exists c, slot (snd es) j = Some c /\ isClosed c = true
  | _ => True
  end.

(** While [stop] drains the pool the server is already marked as
    stopped, yet its listener socket is still the one of [s0]. *)
Definition draining (s0 : HTTPServer C) (es : event * HTTPServer C) : Prop :=
  _running (snd es) = false /\ _socket (snd es) = _socket s0.

End Draining.

(** ** Reachable states *)

Section Reachability.

Context {C : Type} `{HTTPConnection C}.

Variable tpc : bool.

(** The states a server can be in: the one the constructor builds, and
    from there the states that calls of the public surface lead to.
    Between two calls the connection objects may have changed on their
    own (the network, the workers), but no slot has been filled or
    emptied. *)
Inductive reachable : HTTPServer C -> Prop :=
  | reach_new (port maxConnections bindAddress : Z) :
      reachable (HTTPServer_new port maxConnections bindAddress)
  | reach_call (c : call C) (s s' : HTTPServer C) (l : log C) :
      reachable s -> run tpc c s = Some (s', l) -> reachable s'
  | reach_connections (s : HTTPServer C) (cs : list (option C)) :
      reachable s ->
      Forall2 (fun o o' : option C => o = None <-> o' = None) (_connections s) cs ->
      reachable (with_connections cs s).

(** The same states, with the number of connection objects created and
    deleted since the constructor. *)
Inductive ledger : nat -> nat -> HTTPServer C -> Prop :=
  | ledger_new (port maxConnections bindAddress : Z) :
      ledger 0 0 (HTTPServer_new port maxConnections bindAddress)
  | ledger_call (c : call C) (created deleted : nat) (s s' : HTTPServer C) (l : log C) :
      ledger created deleted s -> run tpc c s = Some (s', l) ->
      ledger (created + admissions l) (deleted + deletions l) s'
  | ledger_connections (created deleted : nat) (s : HTTPServer C) (cs : list (option C)) :
      ledger created deleted s ->
      Forall2 (fun o o' : option C => o = None <-> o' = None) (_connections s) cs ->
      ledger created deleted (with_connections cs s).

End Reachability.

(** ** A connection that never closes *)

Module Deaf.

(** A connection object without state: it accepts with descriptor 5, is
    never terminated and never reports closed. *)
#[global] Instance connection : HTTPConnection unit := {|
  initialize := fun _ _ c => c;
  acceptConnection := fun c => (5, c);
  conn_loop := fun c => c;
  isTerminated := fun _ => false;
  closeConnection := fun c => c;
  isClosed := fun _ => false;
  conn_socket := fun _ => 5;
  set_pendingQueue := fun c => c;
  set_taskHandle := fun c => c
|}.

(** A running one-slot server whose slot holds such a connection. *)
Definition server : HTTPServer unit :=
  {| _port := 80; _maxConnections := 1; _bindAddress := 0;
     _connections := [Some tt];
     _socket := 3;
     _sock_addr := {| sin_family := AF_INET; sin_addr := 0; sin_port := Int.htons 80 |};
     _pendingQueue := None;
     _pendingConnection := false;
     _running := true;
     _defaultHeaders := [] |}.

End Deaf.

(** ** Closed descriptors *)

(** The descriptors a log closes, in order. *)
Fixpoint closed_descriptors {C : Type} (l : log C) : list Z :=
  match l with
  | [] => []
  | (EvClose fd, _) :: rest => fd :: closed_descriptors rest
  | _ :: rest => closed_descriptors rest
  end.

(** ** TLS session tickets *)

Module TLS.

Inductive cipher : Type :=
  | MBEDTLS_CIPHER_AES_256_GCM.

Inductive random_source : Type :=
  | hardware_random.

(** The ticket context: untouched, initialised by
    [mbedtls_ssl_ticket_init], or after [mbedtls_ssl_ticket_setup] with
    the arguments the call was given. *)
Inductive ticket_context : Type :=
  | Untouched
  | Initialised
  | SetUp (f_rng : random_source) (c : cipher) (lifetime : Z).

Record TLSTickets : Type := {
  _initOk : bool;
  _ticketCtx : ticket_context
}.

Inductive ticket_write_callback : Type :=
  | mbedtls_ssl_ticket_write.

Inductive ticket_parse_callback : Type :=
  | mbedtls_ssl_ticket_parse.

(** The session-ticket part of the configuration of an SSL session, as
    [mbedtls_ssl_conf_session_tickets_cb] sets it; the rest of the
    session is [other]. *)
Record SSL (A : Type) : Type := {
  f_ticket_write : option ticket_write_callback;
  f_ticket_parse : option ticket_parse_callback;
  p_ticket : option ticket_context;
  other : A
}.
Arguments f_ticket_write {A} _.
Arguments f_ticket_parse {A} _.
Arguments p_ticket {A} _.
Arguments other {A} _.

Section Tickets.

(** Whether the library was built with [MBEDTLS_SSL_SESSION_TICKETS]. *)
Variable MBEDTLS_SSL_SESSION_TICKETS : bool.

(** The constructor; [ret] is the result of [mbedtls_ssl_ticket_setup]. *)
Definition TLSTickets_new (ret : Z) (tag : string) (lifetimeSeconds : Z) : TLSTickets :=
  if MBEDTLS_SSL_SESSION_TICKETS then
    let ctx := SetUp hardware_random MBEDTLS_CIPHER_AES_256_GCM lifetimeSeconds in
    if negb (ret =? 0) then {| _initOk := false; _ticketCtx := ctx |}
    else {| _initOk := true; _ticketCtx := ctx |}
  else {| _initOk := false; _ticketCtx := Untouched |}.

Definition enable {A} (t : TLSTickets) (ssl : SSL A) : bool * SSL A :=
  if MBEDTLS_SSL_SESSION_TICKETS then
    if _initOk t then
      (true, {| f_ticket_write := Some mbedtls_ssl_ticket_write;
                f_ticket_parse := Some mbedtls_ssl_ticket_parse;
                p_ticket := Some (_ticketCtx t);
                other := other ssl |})
    else (false, ssl)
  else (false, ssl).

End Tickets.

End TLS.

(** * Properties *)

(** ** Reasoning about runs *)

Section RunLemmas.

Context {C : Type}.

Lemma same_but_slots_refl (s : HTTPServer C) : same_but_slots s s.
Proof. destruct s; reflexivity. Qed.

Lemma same_but_slots_trans (s1 s2 s3 : HTTPServer C) :
  same_but_slots s1 s2 -> same_but_slots s2 s3 -> same_but_slots s1 s3.
Proof.
  unfold same_but_slots. intros H12 H23. rewrite H23. rewrite H12. reflexivity.
Qed.

Lemma same_but_slots_put (i : Z) (c : option C) (s : HTTPServer C) :
  same_but_slots s (put_slot i c s).
Proof. reflexivity. Qed.

Lemma slot_put_other (i j : Z) (c : option C) (s : HTTPServer C) :
  Z.to_nat i <> Z.to_nat j -> slot (put_slot i c s) j = slot s j.
Proof.
  intros Hne. unfold slot, put_slot. simpl.
  rewrite list_lookup_insert_ne by exact Hne. reflexivity.
Qed.

Lemma slot_put_same (i : Z) (c c' : C) (s : HTTPServer C) :
  slot s i = Some c -> slot (put_slot i (Some c') s) i = Some c'.
Proof.
  unfold slot, put_slot. simpl. intros Hs.
  destruct (_connections s !! Z.to_nat i) as [o |] eqn:Hl; [| discriminate].
  apply lookup_lt_Some in Hl.
  rewrite list_lookup_insert_eq by exact Hl. reflexivity.
Qed.

Lemma slot_put_empty (i : Z) (s : HTTPServer C) :
  slot (put_slot i None s) i = None.
Proof.
  unfold slot, put_slot. simpl.
  destruct (decide (Z.to_nat i < length (_connections s))%nat) as [Hlt | Hge].
  - rewrite list_lookup_insert_eq by exact Hlt. reflexivity.
  - rewrite list_insert_ge by lia.
    rewrite (proj2 (lookup_ge_None _ _)) by lia. reflexivity.
Qed.

Lemma value_ret {A} (a : A) (s : HTTPServer C) : value (ret a s) = a.
Proof. reflexivity. Qed.

Lemma final_ret {A} (a : A) (s : HTTPServer C) : final (ret a s) = s.
Proof. reflexivity. Qed.

Lemma events_ret {A} (a : A) (s : HTTPServer C) : events (ret a s) = [].
Proof. reflexivity. Qed.

Lemma value_get (s : HTTPServer C) : value (get s) = s.
Proof. reflexivity. Qed.

Lemma final_get (s : HTTPServer C) : final (get s) = s.
Proof. reflexivity. Qed.

Lemma events_get (s : HTTPServer C) : events (get s) = [].
Proof. reflexivity. Qed.

Lemma final_emit (e : event) (s : HTTPServer C) : final (emit e s) = s.
Proof. reflexivity. Qed.

Lemma events_emit (e : event) (s : HTTPServer C) : events (emit e s) = [(e, s)].
Proof. reflexivity. Qed.

(** A sequence of two computations, component by component. *)
Lemma value_bind {A B} (m : M C A) (k : A -> M C B) (s : HTTPServer C) :
  value (bind m k s) = value (k (value (m s)) (final (m s))).
Proof.
  unfold bind, value, final. destruct (m s) as [[a s1] l1]. simpl.
  destruct (k a s1) as [[b s2] l2]. reflexivity.
Qed.

Lemma final_bind {A B} (m : M C A) (k : A -> M C B) (s : HTTPServer C) :
  final (bind m k s) = final (k (value (m s)) (final (m s))).
Proof.
  unfold bind, value, final. destruct (m s) as [[a s1] l1]. simpl.
  destruct (k a s1) as [[b s2] l2]. reflexivity.
Qed.

Lemma events_bind {A B} (m : M C A) (k : A -> M C B) (s : HTTPServer C) :
  events (bind m k s) = events (m s) ++ events (k (value (m s)) (final (m s))).
Proof.
  unfold bind, value, final, events. destruct (m s) as [[a s1] l1]. simpl.
  destruct (k a s1) as [[b s2] l2]. reflexivity.
Qed.

Lemma occurrences_app (kind : event -> bool) (l1 l2 : log C) :
  occurrences kind (l1 ++ l2) = (occurrences kind l1 + occurrences kind l2)%nat.
Proof. unfold occurrences. rewrite List.filter_app, length_app. reflexivity. Qed.

Lemma occurrences_none (kind : event -> bool) (l : log C) :
  Forall (fun es => kind (fst es) = false) l -> occurrences kind l = 0%nat.
Proof.
  unfold occurrences. induction 1 as [| es l Hes _ IH]; simpl; [reflexivity |].
  rewrite Hes. exact IH.
Qed.


Lemma admissions_app (l1 l2 : log C) :
  admissions (l1 ++ l2) = (admissions l1 + admissions l2)%nat.
Proof. apply occurrences_app. Qed.

Lemma admissions_none (l : log C) :
  Forall (fun es => is_admission (fst es) = false) l -> admissions l = 0%nat.
Proof. apply occurrences_none. Qed.

Lemma raises_app (l1 l2 : log C) : raises (l1 ++ l2) = (raises l1 + raises l2)%nat.
Proof. apply occurrences_app. Qed.

Lemma raises_none (l : log C) :
  Forall (fun es => is_raise (fst es) = false) l -> raises l = 0%nat.
Proof. apply occurrences_none. Qed.

Lemma not_raise (e : event) : e <> EvNotifyPending -> is_raise e = false.
Proof. destruct e; simpl; congruence. Qed.


(** A loop invariant indexed by the number of slots already visited,
    together with a property of every logged event. *)
Lemma for_each_seq_inv {A} (body : Z -> A -> M C A)
    (Inv : nat -> A -> HTTPServer C -> Prop)
    (E : event * HTTPServer C -> Prop) (len start : nat) :
  (forall k a s, (start <= k < start + len)%nat -> Inv k a s ->
     Inv (S k) (value (body (Z.of_nat k) a s)) (final (body (Z.of_nat k) a s)) /\
     Forall E (events (body (Z.of_nat k) a s))) ->
  forall a s, Inv start a s ->
    Inv (start + len)%nat
        (value (for_each (map Z.of_nat (seq start len)) body a s))
        (final (for_each (map Z.of_nat (seq start len)) body a s)) /\
    Forall E (events (for_each (map Z.of_nat (seq start len)) body a s)).
Proof.
  revert start. induction len as [| len IH]; intros start Hbody a s Hinv.
  - simpl. rewrite Nat.add_0_r. split; [exact Hinv | constructor].
  - simpl. unfold bind.
    destruct (Hbody start a s ltac:(lia) Hinv) as [Hinv' Hev].
    destruct (body (Z.of_nat start) a s) as [[a1 s1] l1]; simpl in Hinv', Hev.
    specialize (IH (S start)).
    destruct (IH ltac:(intros; apply Hbody; [lia | assumption]) a1 s1 Hinv')
      as [Hfin Hev'].
    destruct (for_each (map Z.of_nat (seq (S start) len)) body a1 s1)
      as [[a2 s2] l2]; simpl in *.
    replace (start + S len)%nat with (S start + len)%nat by lia.
    split; [exact Hfin | apply Forall_app; split; assumption].
Qed.

Lemma for_each_range_inv {A} (body : Z -> A -> M C A)
    (Inv : nat -> A -> HTTPServer C -> Prop)
    (E : event * HTTPServer C -> Prop) (n : Z) :
  (forall k a s, (k < Z.to_nat n)%nat -> Inv k a s ->
     Inv (S k) (value (body (Z.of_nat k) a s)) (final (body (Z.of_nat k) a s)) /\
     Forall E (events (body (Z.of_nat k) a s))) ->
  forall a s, Inv 0%nat a s ->
    Inv (Z.to_nat n) (value (for_each (range n) body a s))
        (final (for_each (range n) body a s)) /\
    Forall E (events (for_each (range n) body a s)).
Proof.
  intros Hbody a s Hinv. unfold range.
  apply (for_each_seq_inv body Inv E (Z.to_nat n) 0); [| exact Hinv].
  intros k a' s' Hk. apply Hbody. lia.
Qed.

End RunLemmas.

(** ** The free-slot scans and an admission, summarised *)

Section Summaries.

Context {C : Type} `{HTTPConnection C}.

Variable tpc : bool.

Lemma highest_free_below_zero (s : HTTPServer C) : highest_free_below 0 s (-1).
Proof. left. split; [reflexivity | intros j Hj; lia]. Qed.

Lemma highest_free_below_found (k : Z) (s : HTTPServer C) :
  0 <= k -> slot s k = None -> highest_free_below (k + 1) s k.
Proof. intros Hk Hs. right. repeat split; try lia. exact Hs. Qed.

Lemma highest_free_below_skip (k : Z) (s s' : HTTPServer C) (idx : Z) :
  0 <= k ->
  (forall j, 0 <= j < k -> slot s' j = slot s j) ->
  slot s' k <> None ->
  highest_free_below k s idx -> highest_free_below (k + 1) s' idx.
Proof.
  intros Hk Hsame Hocc [[Hidx Hall] | [Hidx [Hfree Habove]]].
  - left. split; [exact Hidx |]. intros j Hj.
    destruct (decide (j = k)) as [-> | Hne]; [exact Hocc |].
    rewrite Hsame by lia. apply Hall. lia.
  - right. split; [lia |]. split; [rewrite Hsame by lia; exact Hfree |].
    intros j Hj.
    destruct (decide (j = k)) as [-> | Hne]; [exact Hocc |].
    rewrite Hsame by lia. apply Habove. lia.
Qed.

Lemma loop_body_step (s0 : HTTPServer C) (k : nat) (l : scan_locals) (s : HTTPServer C) :
  highest_free_below (Z.of_nat k) s (freeConnectionIdx l) /\ same_but_slots s0 s ->
  (highest_free_below (Z.of_nat (S k))
     (final (loop_body tpc (Z.of_nat k) l s))
     (freeConnectionIdx (value (loop_body tpc (Z.of_nat k) l s))) /\
   same_but_slots s0 (final (loop_body tpc (Z.of_nat k) l s))) /\
  Forall (scan_event s0) (events (loop_body tpc (Z.of_nat k) l s)).
Proof.
  intros [Hhf Hsame].
  replace (Z.of_nat (S k)) with (Z.of_nat k + 1) by lia.
  unfold value, final, events, loop_body, bind, get, ret, emit, set_slot, modify.
  destruct (slot s (Z.of_nat k)) as [c |] eqn:Hs; simpl.
  - destruct (isTerminated c) eqn:Hterm; simpl.
    + split; [split |].
      * apply highest_free_below_found; [lia | apply slot_put_empty].
      * eapply same_but_slots_trans; [exact Hsame | apply same_but_slots_put].
      * repeat constructor; simpl; try discriminate; exact Hsame.
    + destruct tpc; simpl.
      * split; [split |]; [| exact Hsame | constructor].
        eapply highest_free_below_skip; [lia | reflexivity | | exact Hhf].
        rewrite Hs. discriminate.
      * split; [split |].
        -- eapply highest_free_below_skip; [lia | | | exact Hhf].
           ++ intros j Hj. apply slot_put_other. lia.
           ++ rewrite (slot_put_same _ c) by exact Hs. discriminate.
        -- eapply same_but_slots_trans; [exact Hsame | apply same_but_slots_put].
        -- repeat constructor; simpl; try discriminate; exact Hsame.
  - split; [split |]; [| exact Hsame | constructor].
    apply highest_free_below_found; [lia | exact Hs].
Qed.

(** Step 1 of [loop]: the index it retains is the highest free index of
    the pool as the scan leaves it. *)
Lemma scan_summary (s : HTTPServer C) (l0 : scan_locals) (n : Z) :
  freeConnectionIdx l0 = -1 ->
  highest_free_below n (final (for_each (range n) (loop_body tpc) l0 s))
    (freeConnectionIdx (value (for_each (range n) (loop_body tpc) l0 s))) /\
  same_but_slots s (final (for_each (range n) (loop_body tpc) l0 s)) /\
  Forall (scan_event s) (events (for_each (range n) (loop_body tpc) l0 s)).
Proof.
  intros Hl0.
  destruct (Z.lt_ge_cases n 0) as [Hneg | Hn].
  { unfold range. rewrite Z2Nat.nonpos by lia. simpl.
    unfold value, final, events, ret. simpl. rewrite Hl0.
    split; [left; split; [reflexivity | intros j Hj; lia] |].
    split; [apply same_but_slots_refl | constructor]. }
  pose proof (for_each_range_inv (loop_body tpc)
    (fun k l s' => highest_free_below (Z.of_nat k) s' (freeConnectionIdx l) /\
                   same_but_slots s s')
    (scan_event s) n) as Hloop.
  destruct (Hloop ltac:(intros k a s' _; apply loop_body_step) l0 s) as [[Hhf Hsame] Hev].
  - split; [rewrite Hl0; apply highest_free_below_zero | apply same_but_slots_refl].
  - rewrite Z2Nat.id in Hhf by exact Hn. auto.
Qed.

Lemma rescan_body_step (k : nat) (idx : Z) (s : HTTPServer C) :
  highest_free_below (Z.of_nat k) s idx ->
  highest_free_below (Z.of_nat (S k)) s (value (rescan_body (Z.of_nat k) idx s)) /\
  final (rescan_body (Z.of_nat k) idx s) = s /\
  events (rescan_body (Z.of_nat k) idx s) = [].
Proof.
  intros Hhf.
  replace (Z.of_nat (S k)) with (Z.of_nat k + 1) by lia.
  unfold value, final, events, rescan_body, bind, get, ret.
  destruct (slot s (Z.of_nat k)) as [c |] eqn:Hs; simpl.
  - split; [| auto].
    eapply highest_free_below_skip; [lia | reflexivity | | exact Hhf].
    rewrite Hs. discriminate.
  - split; [| auto]. apply highest_free_below_found; [lia | exact Hs].
Qed.

(** The second scan of [loop] changes nothing, logs nothing, and returns
    the highest free index. *)
Lemma rescan_summary (s : HTTPServer C) (n : Z) :
  highest_free_below n s (value (for_each (range n) rescan_body (-1) s)) /\
  final (for_each (range n) rescan_body (-1) s) = s /\
  events (for_each (range n) rescan_body (-1) s) = [].
Proof.
  destruct (Z.lt_ge_cases n 0) as [Hneg | Hn].
  { unfold range. rewrite Z2Nat.nonpos by lia. simpl.
    unfold value, final, events, ret. simpl.
    split; [left; split; [reflexivity | intros j Hj; lia] | auto]. }
  pose proof (for_each_range_inv rescan_body
    (fun k idx s' => highest_free_below (Z.of_nat k) s' idx /\ s' = s)
    (fun _ => False) n) as Hloop.
  cbv beta in Hloop. lapply Hloop; [clear Hloop; intros Hloop |].
  2: { intros k a s' _ [Hhf ->].
       destruct (rescan_body_step k a s Hhf) as [Hhf' [Hfin Hev]].
       rewrite Hfin, Hev. auto. }
  destruct (Hloop (-1) s) as [[Hhf Hsame] Hev].
  - split; [apply highest_free_below_zero | reflexivity].
  - rewrite Z2Nat.id in Hhf by exact Hn. rewrite Hsame in Hhf.
    split; [exact Hhf |]. split; [exact Hsame |].
    destruct (events (for_each (range n) rescan_body (-1) s)) as [| e l]; [reflexivity |].
    inversion Hev; contradiction.
Qed.

Lemma startConnection_summary (adm : Admission C) (idx : Z) (s : HTTPServer C) :
  same_but_slots (with_pendingQueue None (with_pendingConnection false s))
    (final (startConnection tpc adm idx s)) /\
  (exists tl, events (startConnection tpc adm idx s) = (EvStartConnection idx, s) :: tl /\
              Forall admission_event tl) /\
  (forall j, Z.to_nat j <> Z.to_nat idx ->
     slot (final (startConnection tpc adm idx s)) j = slot s j).
Proof.
  unfold startConnection, createConnection, startConnectionTask, xQueueReceive,
    set_slot, value, final, events, bind, get, ret, emit, modify.
  destruct tpc; simpl.
  - destruct (adm_task_created adm); simpl.
    + split; [reflexivity |]. split.
      * eexists. split; [reflexivity |].
        repeat constructor; simpl; discriminate.
      * intros j Hj. rewrite !slot_put_other by auto. reflexivity.
    + split; [reflexivity |]. split.
      * eexists. split; [reflexivity |].
        repeat constructor; simpl; discriminate.
      * intros j Hj. rewrite !slot_put_other by auto. reflexivity.
  - destruct (acceptConnection _) as [res c'] eqn:Hacc; simpl.
    destruct (res <? 0) eqn:Hres; simpl.
    + split; [reflexivity |]. split.
      * eexists. split; [reflexivity |].
        repeat constructor; simpl; discriminate.
      * intros j Hj. rewrite !slot_put_other by auto. reflexivity.
    + split; [reflexivity |]. split.
      * eexists. split; [reflexivity |].
        repeat constructor; simpl; discriminate.
      * intros j Hj. rewrite !slot_put_other by auto. reflexivity.
Qed.

Lemma same_but_slots_maxConnections (s s' : HTTPServer C) :
  same_but_slots s s' -> _maxConnections s' = _maxConnections s.
Proof. intros ->. reflexivity. Qed.

Lemma same_but_slots_pending (s s' : HTTPServer C) :
  same_but_slots s s' -> _pendingConnection s' = _pendingConnection s.
Proof. intros ->. reflexivity. Qed.

Lemma same_but_slots_socket (s s' : HTTPServer C) :
  same_but_slots s s' -> _socket s' = _socket s.
Proof. intros ->. reflexivity. Qed.

Lemma reclaim_summary (s : HTTPServer C) :
  highest_free (final (loop_reclaim tpc s))
    (freeConnectionIdx (value (loop_reclaim tpc s))) /\
  same_but_slots s (final (loop_reclaim tpc s)) /\
  Forall (scan_event s) (events (loop_reclaim tpc s)).
Proof.
  unfold loop_reclaim.
  rewrite value_bind, final_bind, events_bind.
  rewrite ?value_get, ?final_get, ?events_get, ?app_nil_l.
  pose proof (scan_summary s
    {| freeConnectionIdx := -1; max_fd := -1; except_fds := FD_ZERO |}
    (_maxConnections s) eq_refl) as [Hhf [Hsame Hev]].
  split; [| auto].
  unfold highest_free. rewrite (same_but_slots_maxConnections _ _ Hsame). exact Hhf.
Qed.

(** Step 2 either admits the pending connection into the index it was
    given and rescans, or does nothing at all. *)
Lemma admit_pending_summary (env : LoopEnv C) (f : Z) (s : HTTPServer C) :
  highest_free s f ->
  highest_free (final (loop_admit_pending tpc env f s))
    (value (loop_admit_pending tpc env f s)) /\
  ((_pendingConnection s = true /\ -1 < f /\
    final (loop_admit_pending tpc env f s) = final (startConnection tpc (adm_pending env) f s) /\
    events (loop_admit_pending tpc env f s) = events (startConnection tpc (adm_pending env) f s)) \/
   (_pendingConnection s && (f >? -1) = false /\
    value (loop_admit_pending tpc env f s) = f /\
    final (loop_admit_pending tpc env f s) = s /\
    events (loop_admit_pending tpc env f s) = [])).
Proof.
  intros Hhf. unfold loop_admit_pending.
  rewrite value_bind, final_bind, events_bind.
  rewrite ?value_get, ?final_get, ?events_get, ?app_nil_l.
  destruct (_pendingConnection s && (f >? -1)) eqn:Hcond.
  - apply andb_true_iff in Hcond as [Hp Hf]. apply Z.gtb_lt in Hf.
    rewrite value_bind, final_bind, events_bind.
    destruct (startConnection_summary (adm_pending env) f s) as [Hsame _].
    pose proof (rescan_summary (final (startConnection tpc (adm_pending env) f s))
                  (_maxConnections s)) as [Hhf' [Hfin Hev]].
    rewrite Hfin, Hev, app_nil_r. split.
    + unfold highest_free.
      rewrite (same_but_slots_maxConnections _ _ Hsame). exact Hhf'.
    + left. auto.
  - split; [exact Hhf |]. right. auto.
Qed.

(** The poll leaves the server alone, logs the call of [select], and can
    only report the listener when the listener was watched, that is when
    the gate was down. *)
Lemma poll_summary (env : LoopEnv C) (timeoutMs : Z) (l : scan_locals) (s : HTTPServer C) :
  final (loop_poll env timeoutMs l s) = s /\
  (exists nfds rd ex,
     events (loop_poll env timeoutMs l s) =
       [(EvSelect nfds rd ex (Z.quot timeoutMs 1000)
           (Int.long32 ((timeoutMs - Z.quot timeoutMs 1000) * 1000)), s)]) /\
  ((fst (value (loop_poll env timeoutMs l s)) >? 0) &&
   FD_ISSET (_socket s) (snd (value (loop_poll env timeoutMs l s))) = true ->
   _pendingConnection s = false /\ select_fails env = false /\
   select_readable env (_socket s) = true).
Proof.
  unfold loop_poll, select, value, final, events, bind, get, ret, emit. simpl.
  destruct (select_fails env) eqn:Hfail; simpl.
  - split; [reflexivity |]. split; [eauto |]. discriminate.
  - split; [reflexivity |]. split; [eauto |].
    intros Hc. apply andb_true_iff in Hc as [_ Hset].
    unfold FD_ISSET in Hset. apply existsb_exists in Hset as [fd [Hin Heq]].
    apply Z.eqb_eq in Heq. subst fd.
    apply list_elem_of_In, list_elem_of_filter in Hin as [Hready Hin].
    apply Is_true_true in Hready.
    destruct (_pendingConnection s); simpl in Hin.
    + inversion Hin.
    + auto.
Qed.

(** The three ways the second half of step 3 can go. *)
Lemma accept_summary (env : LoopEnv C) (f nfds : Z) (rd : fd_set) (s : HTTPServer C) :
  ((nfds >? 0) && FD_ISSET (_socket s) rd = true /\ -1 < f /\
   final (loop_accept tpc env f nfds rd s) = final (startConnection tpc (adm_new env) f s) /\
   events (loop_accept tpc env f nfds rd s) = events (startConnection tpc (adm_new env) f s)) \/
  ((nfds >? 0) && FD_ISSET (_socket s) rd = true /\ f <= -1 /\
   _pendingConnection s = false /\
   final (loop_accept tpc env f nfds rd s) =
     final (xQueueSend (_socket s) (with_pendingConnection true s)) /\
   events (loop_accept tpc env f nfds rd s) =
     [(EvNotifyPending, s); (EvQueueSend (_socket s), with_pendingConnection true s)]) \/
  (final (loop_accept tpc env f nfds rd s) = s /\
   events (loop_accept tpc env f nfds rd s) = []).
Proof.
  unfold loop_accept.
  rewrite final_bind, events_bind.
  rewrite ?value_get, ?final_get, ?events_get, ?app_nil_l.
  destruct ((nfds >? 0) && FD_ISSET (_socket s) rd) eqn:Hcond; [| right; right; auto].
  destruct (f >? -1) eqn:Hf.
  - left. apply Z.gtb_lt in Hf. rewrite final_bind, events_bind.
    rewrite final_ret, events_ret, app_nil_r. auto.
  - assert (f <= -1) by (rewrite Z.gtb_ltb in Hf; apply Z.ltb_ge in Hf; lia).
    destruct (_pendingConnection s) eqn:Hp; simpl; [right; right; auto |].
    right; left. repeat split; auto.
Qed.

(** A running [loop] is its four steps, one after the other. *)
Lemma loop_running (env : LoopEnv C) (timeoutMs : Z) (s : HTTPServer C) :
  _running s = true ->
  let r1 := loop_reclaim tpc s in
  let r2 := loop_admit_pending tpc env (freeConnectionIdx (value r1)) (final r1) in
  let r3 := loop_poll env timeoutMs (value r1) (final r2) in
  let r4 := loop_accept tpc env (value r2) (fst (value r3)) (snd (value r3)) (final r3) in
  value (loop tpc env timeoutMs s) =
    remaining (millis (millis_start env)) timeoutMs (millis (millis_end env)) /\
  final (loop tpc env timeoutMs s) = final r4 /\
  events (loop tpc env timeoutMs s) = events r1 ++ events r2 ++ events r3 ++ events r4.
Proof.
  intros Hrun. unfold loop.
  rewrite value_bind, final_bind, events_bind.
  rewrite ?value_get, ?final_get, ?events_get, ?app_nil_l.
  rewrite Hrun. cbn [negb].
  rewrite !value_bind, !final_bind, !events_bind.
  rewrite value_ret, final_ret, events_ret, app_nil_r. auto.
Qed.

Lemma loop_stopped (env : LoopEnv C) (timeoutMs : Z) (s : HTTPServer C) :
  _running s = false ->
  loop tpc env timeoutMs s = (0, s, [(EvDelay timeoutMs, s)]).
Proof.
  intros Hrun. unfold loop, bind, get, emit, ret. rewrite Hrun. reflexivity.
Qed.

End Summaries.

(** ** The slot pool *)

Section SlotPool.

Context {C : Type} `{HTTPConnection C}.

Variable tpc : bool.

(** Every call of [startConnection] that [loop] makes is logged in a
    state whose highest free index is the index admitted into. *)
Lemma loop_admissions_highest (env : LoopEnv C) (timeoutMs : Z) (s : HTTPServer C)
    (idx : Z) (st : HTTPServer C) :
  In (EvStartConnection idx, st) (events (loop tpc env timeoutMs s)) ->
  highest_free st idx /\ 0 <= idx.
Proof.
  destruct (_running s) eqn:Hrun.
  2: { rewrite (loop_stopped tpc env timeoutMs s Hrun). simpl.
       intros [Heq | []]. discriminate. }
  destruct (loop_running tpc env timeoutMs s Hrun) as [_ [_ Hev]].
  rewrite Hev. clear Hev.
  destruct (reclaim_summary tpc s) as [Hhf1 [Hsame1 Hev1]].
  set (r1 := loop_reclaim tpc s) in *.
  destruct (admit_pending_summary tpc env (freeConnectionIdx (value r1)) (final r1) Hhf1)
    as [Hhf2 Hcase2].
  set (r2 := loop_admit_pending tpc env (freeConnectionIdx (value r1)) (final r1)) in *.
  destruct (poll_summary env timeoutMs (value r1) (final r2)) as [Hfin3 [[n [rd [ex Hev3]]] _]].
  set (r3 := loop_poll env timeoutMs (value r1) (final r2)) in *.
  rewrite Hfin3.
  rewrite !in_app_iff. intros [Hin | [Hin | [Hin | Hin]]].
  - apply (proj1 (List.Forall_forall _ _) Hev1) in Hin.
    destruct Hin as [Hadm _]. discriminate.
  - destruct Hcase2 as [[Hp [Hf [_ Hev2]]] | [_ [_ [_ Hev2]]]].
    + rewrite Hev2 in Hin.
      destruct (startConnection_summary tpc (adm_pending env)
                  (freeConnectionIdx (value r1)) (final r1)) as [_ [[tl [Htl Hall]] _]].
      rewrite Htl in Hin. destruct Hin as [Heq | Hin].
      * inversion Heq; subst. split; [exact Hhf1 | lia].
      * apply (proj1 (List.Forall_forall _ _) Hall) in Hin.
        destruct Hin as [Hadm _]. discriminate.
    + rewrite Hev2 in Hin. destruct Hin.
  - rewrite Hev3 in Hin. destruct Hin as [Heq | []]. discriminate.
  - destruct (accept_summary tpc env (value r2) (fst (value r3)) (snd (value r3)) (final r2))
      as [[_ [Hf [_ Hev4]]] | [[_ [_ [_ [_ Hev4]]]] | [_ Hev4]]];
      rewrite Hev4 in Hin.
    + destruct (startConnection_summary tpc (adm_new env) (value r2) (final r2))
        as [_ [[tl [Htl Hall]] _]].
      rewrite Htl in Hin. destruct Hin as [Heq | Hin].
      * inversion Heq; subst. split; [exact Hhf2 | lia].
      * apply (proj1 (List.Forall_forall _ _) Hall) in Hin.
        destruct Hin as [Hadm _]. discriminate.
    + destruct Hin as [Heq | [Heq | []]]; discriminate.
    + destruct Hin.
Qed.

(** C1, as amended: the free-slot scans of [loop] (the reclaiming scan of
    step 1 and the second scan of step 2) return the highest free index of
    the pool, or -1 when no slot is free, and every admission consumes
    the highest-indexed slot that is free at the time of the admission. *)
Theorem scan_and_admission_take_highest_free
    (env : LoopEnv C) (timeoutMs : Z) (s : HTTPServer C) :
  highest_free (final (loop_reclaim tpc s))
    (freeConnectionIdx (value (loop_reclaim tpc s))) /\
  highest_free s (value (for_each (range (_maxConnections s)) rescan_body (-1) s)) /\
  (forall idx st,
     In (EvStartConnection idx, st) (events (loop tpc env timeoutMs s)) ->
     0 <= idx < _maxConnections st /\ slot st idx = None /\
     forall j, idx < j < _maxConnections st -> slot st j <> None).
Proof.
  split; [apply reclaim_summary |].
  split; [apply rescan_summary |].
  intros idx st Hin.
  destruct (loop_admissions_highest env timeoutMs s idx st Hin) as [Hhf Hidx].
  destruct Hhf as [[Hneg _] | Hfound]; [lia | exact Hfound].
Qed.

End SlotPool.

(** ** Admissions per call *)

Section AdmissionsPerCall.

Context {C : Type} `{HTTPConnection C}.

Variable tpc : bool.

Lemma startConnection_one_admission (adm : Admission C) (idx : Z) (s : HTTPServer C) :
  admissions (events (startConnection tpc adm idx s)) = 1%nat.
Proof.
  destruct (startConnection_summary tpc adm idx s) as [_ [[tl [Htl Hall]] _]].
  rewrite Htl. change ((EvStartConnection idx, s) :: tl)
    with ([(EvStartConnection idx, s)] ++ tl).
  rewrite admissions_app, (admissions_none tl); [reflexivity |].
  eapply Forall_impl; [exact Hall |]. intros es [Hadm _]. exact Hadm.
Qed.

Lemma reclaim_no_admission (s : HTTPServer C) :
  admissions (events (loop_reclaim tpc s)) = 0%nat.
Proof.
  destruct (reclaim_summary tpc s) as [_ [_ Hev]].
  apply admissions_none. eapply Forall_impl; [exact Hev |].
  intros es [Hadm _]. exact Hadm.
Qed.

Lemma admit_pending_admissions (env : LoopEnv C) (f : Z) (s : HTTPServer C) :
  highest_free s f ->
  (admissions (events (loop_admit_pending tpc env f s)) <= 1)%nat /\
  (_pendingConnection s = false ->
   admissions (events (loop_admit_pending tpc env f s)) = 0%nat).
Proof.
  intros Hhf.
  destruct (admit_pending_summary tpc env f s Hhf)
    as [_ [[Hp [_ [_ Hev]]] | [_ [_ [_ Hev]]]]]; rewrite Hev.
  - rewrite startConnection_one_admission. split; [lia | intros Hq; congruence].
  - split; [unfold admissions, occurrences; simpl; lia | reflexivity].
Qed.

Lemma accept_admissions (env : LoopEnv C) (f nfds : Z) (rd : fd_set) (s : HTTPServer C) :
  (admissions (events (loop_accept tpc env f nfds rd s)) <= 1)%nat.
Proof.
  destruct (accept_summary tpc env f nfds rd s)
    as [[_ [_ [_ Hev]]] | [[_ [_ [_ [_ Hev]]]] | [_ Hev]]]; rewrite Hev.
  - rewrite startConnection_one_admission. lia.
  - unfold admissions, occurrences. simpl. lia.
  - unfold admissions, occurrences. simpl. lia.
Qed.

(** The test that follows [select] succeeds exactly when the listener was
    watched, [select] did not fail, and it reported the listener. *)
Lemma poll_reports_listener (env : LoopEnv C) (timeoutMs : Z) (l : scan_locals)
    (s : HTTPServer C) :
  (fst (value (loop_poll env timeoutMs l s)) >? 0) &&
  FD_ISSET (_socket s) (snd (value (loop_poll env timeoutMs l s))) =
  negb (_pendingConnection s) && negb (select_fails env) &&
  select_readable env (_socket s).
Proof.
  unfold loop_poll, select, value, bind, get, ret, emit. simpl.
  destruct (select_fails env); simpl.
  - rewrite andb_false_r. reflexivity.
  - destruct (_pendingConnection s); simpl.
    + rewrite andb_false_r. reflexivity.
    + change (FD_SET (_socket s) FD_ZERO) with [_socket s].
      unfold fd_set. rewrite filter_cons, filter_nil.
      destruct (select_readable env (_socket s)) eqn:Hready.
      * rewrite decide_True by exact I. simpl. rewrite Z.eqb_refl. simpl.
        rewrite andb_true_r. apply Z.gtb_lt. lia.
      * rewrite decide_False by (intros []). simpl. apply andb_false_r.
Qed.

Lemma accept_admits (env : LoopEnv C) (f nfds : Z) (rd : fd_set) (s : HTTPServer C) :
  (nfds >? 0) && FD_ISSET (_socket s) rd = true -> -1 < f ->
  final (loop_accept tpc env f nfds rd s) = final (startConnection tpc (adm_new env) f s) /\
  events (loop_accept tpc env f nfds rd s) = events (startConnection tpc (adm_new env) f s).
Proof.
  intros Hcond Hf. unfold loop_accept.
  rewrite final_bind, events_bind, ?value_get, ?final_get, ?events_get, ?app_nil_l.
  rewrite Hcond. rewrite (proj2 (Z.gtb_lt _ _)) by lia.
  rewrite final_bind, events_bind, final_ret, events_ret, app_nil_r. auto.
Qed.

(** With the gate raised on entry, two slots free after step 1, and a
    [select] that reports the listener, both admissions take place. *)
Lemma loop_admits_on_both_sides (env : LoopEnv C) (timeoutMs : Z) (s : HTTPServer C) :
  _running s = true -> _pendingConnection s = true ->
  select_fails env = false -> select_readable env (_socket s) = true ->
  (exists i j, 0 <= i < j /\ j < _maxConnections s /\
               slot (final (loop_reclaim tpc s)) i = None /\
               slot (final (loop_reclaim tpc s)) j = None) ->
  exists before poll after,
    events (loop tpc env timeoutMs s) = before ++ poll :: after /\
    is_poll (fst poll) = true /\
    admissions before = 1%nat /\ admissions after = 1%nat.
Proof.
  intros Hrun Hp Hok Hready [i [j [Hij [Hj [Hfree_i Hfree_j]]]]].
  destruct (loop_running tpc env timeoutMs s Hrun) as [_ [_ Hev]].
  rewrite Hev. clear Hev.
  destruct (reclaim_summary tpc s) as [Hhf1 [Hsame1 _]].
  pose proof (reclaim_no_admission s) as Hadm1.
  pose proof (same_but_slots_maxConnections _ _ Hsame1) as HN1.
  pose proof (same_but_slots_pending _ _ Hsame1) as Hp1.
  pose proof (same_but_slots_socket _ _ Hsame1) as Hsock1.
  set (r1 := loop_reclaim tpc s) in *.
  set (f1 := freeConnectionIdx (value r1)) in *.
  assert (Hf1 : j <= f1 < _maxConnections s /\ slot (final r1) f1 = None).
  { destruct Hhf1 as [[_ Hall] | [Hrange [Hnone Habove]]].
    - exfalso. apply (Hall j); [rewrite HN1; lia | exact Hfree_j].
    - rewrite HN1 in Hrange, Habove. split; [| exact Hnone].
      split; [| lia]. destruct (Z_lt_le_dec f1 j) as [Hlt | Hle]; [| exact Hle].
      exfalso. apply (Habove j); [lia | exact Hfree_j]. }
  destruct Hf1 as [Hf1 Hnone1].
  destruct (admit_pending_summary tpc env f1 (final r1) Hhf1)
    as [Hhf2 [[_ [_ [Hfin2 Hev2]]] | [Hcond _]]].
  2: { exfalso. rewrite Hp1, Hp in Hcond. simpl in Hcond.
       rewrite Z.gtb_ltb in Hcond. apply Z.ltb_ge in Hcond. lia. }
  destruct (startConnection_summary tpc (adm_pending env) f1 (final r1))
    as [Hsame2 [_ Hother]].
  pose proof (startConnection_one_admission (adm_pending env) f1 (final r1)) as Hadm2.
  rewrite <- Hev2 in Hadm2. rewrite <- Hfin2 in Hsame2, Hother.
  set (r2 := loop_admit_pending tpc env f1 (final r1)) in *.
  assert (HN2 : _maxConnections (final r2) = _maxConnections s)
    by (rewrite Hsame2; simpl; exact HN1).
  assert (Hp2 : _pendingConnection (final r2) = false) by (rewrite Hsame2; reflexivity).
  assert (Hsock2 : _socket (final r2) = _socket s) by (rewrite Hsame2; simpl; exact Hsock1).
  assert (Hfree2 : slot (final r2) i = None).
  { rewrite (Hother i); [exact Hfree_i |]. lia. }
  assert (Hf2 : -1 < value r2).
  { destruct Hhf2 as [[_ Hall] | [Hrange _]]; [| lia].
    exfalso. apply (Hall i); [rewrite HN2; lia | exact Hfree2]. }
  pose proof (poll_reports_listener env timeoutMs (value r1) (final r2)) as Hpoll.
  rewrite Hp2, Hsock2, Hok, Hready in Hpoll. simpl in Hpoll.
  rewrite <- Hsock2 in Hpoll.
  destruct (poll_summary env timeoutMs (value r1) (final r2)) as [Hfin3 [[n [rd [ex Hev3]]] _]].
  set (r3 := loop_poll env timeoutMs (value r1) (final r2)) in *.
  rewrite Hfin3.
  destruct (accept_admits env (value r2) _ _ _ Hpoll Hf2) as [_ Hev4].
  pose proof (startConnection_one_admission (adm_new env) (value r2) (final r2)) as Hadm4.
  rewrite <- Hev4 in Hadm4.
  exists (events r1 ++ events r2), (EvSelect n rd ex (timeoutMs ÷ 1000)
            (Int.long32 ((timeoutMs - timeoutMs ÷ 1000) * 1000)), final r2),
    (events (loop_accept tpc env (value r2) (fst (value r3)) (snd (value r3)) (final r2))).
  rewrite Hev3, <- !app_assoc. simpl.
  split; [reflexivity |]. split; [reflexivity |].
  rewrite admissions_app, Hadm1, Hadm2. split; [reflexivity | exact Hadm4].
Qed.

(** C2, as amended: a call of [loop] admits at most two connections, at
    most one before the poll (the pending one) and at most one after it
    (a new one); when the gate is down on entry the call admits at most
    one, and a call on a stopped server admits none.  Both admissions
    take place, one on each side of the poll, whenever the gate is
    raised on entry, two slots are free after step 1, and [select]
    succeeds and reports the listener. *)
Theorem loop_admits_at_most_one_on_each_side_of_the_poll
    (env : LoopEnv C) (timeoutMs : Z) (s : HTTPServer C) :
  (admissions (events (loop tpc env timeoutMs s)) <= 2)%nat /\
  (_pendingConnection s = false \/ _running s = false ->
   (admissions (events (loop tpc env timeoutMs s)) <= 1)%nat) /\
  (_running s = false -> admissions (events (loop tpc env timeoutMs s)) = 0%nat) /\
  (_running s = true ->
   exists before poll after nfds rd ex sec usec,
     events (loop tpc env timeoutMs s) = before ++ poll :: after /\
     fst poll = EvSelect nfds rd ex sec usec /\
     (admissions before <= 1)%nat /\ (admissions after <= 1)%nat /\
     (_pendingConnection s = false -> admissions before = 0%nat)) /\
  (_running s = true -> _pendingConnection s = true ->
   select_fails env = false -> select_readable env (_socket s) = true ->
   (exists i j, 0 <= i < j /\ j < _maxConnections s /\
                slot (final (loop_reclaim tpc s)) i = None /\
                slot (final (loop_reclaim tpc s)) j = None) ->
   admissions (events (loop tpc env timeoutMs s)) = 2%nat /\
   exists before poll after,
     events (loop tpc env timeoutMs s) = before ++ poll :: after /\
     is_poll (fst poll) = true /\
     admissions before = 1%nat /\ admissions after = 1%nat).
Proof.
  assert (Hboth : _running s = true -> _pendingConnection s = true ->
            select_fails env = false -> select_readable env (_socket s) = true ->
            (exists i j, 0 <= i < j /\ j < _maxConnections s /\
                         slot (final (loop_reclaim tpc s)) i = None /\
                         slot (final (loop_reclaim tpc s)) j = None) ->
            admissions (events (loop tpc env timeoutMs s)) = 2%nat /\
            exists before poll after,
              events (loop tpc env timeoutMs s) = before ++ poll :: after /\
              is_poll (fst poll) = true /\
              admissions before = 1%nat /\ admissions after = 1%nat).
  { intros Hrun Hp Hok Hready Htwo.
    destruct (loop_admits_on_both_sides env timeoutMs s Hrun Hp Hok Hready Htwo)
      as [before [poll [after [Hev [Hpoll [Hb Ha]]]]]].
    split; [| exists before, poll, after; auto].
    rewrite Hev. change (before ++ poll :: after) with (before ++ [poll] ++ after).
    rewrite !admissions_app, Hb, Ha.
    unfold admissions at 1, occurrences. simpl.
    destruct (fst poll); try discriminate. reflexivity. }
  destruct (_running s) eqn:Hrun.
  2: { rewrite (loop_stopped tpc env timeoutMs s Hrun).
       unfold admissions, occurrences, events. simpl.
       repeat split; try (intros; lia); discriminate. }
  split; [| split; [| split; [| split; [| exact Hboth]]]]; clear Hboth.
  all: destruct (loop_running tpc env timeoutMs s Hrun) as [_ [_ Hev]];
    rewrite Hev; clear Hev;
    destruct (reclaim_summary tpc s) as [Hhf1 [Hsame1 _]];
    pose proof (reclaim_no_admission s) as Hadm1;
    set (r1 := loop_reclaim tpc s) in *;
    destruct (admit_pending_admissions env (freeConnectionIdx (value r1)) (final r1) Hhf1)
      as [Hadm2 Hadm2'];
    rewrite (same_but_slots_pending _ _ Hsame1) in Hadm2';
    set (r2 := loop_admit_pending tpc env (freeConnectionIdx (value r1)) (final r1)) in *;
    destruct (poll_summary env timeoutMs (value r1) (final r2)) as [_ [[n [rd [ex Hev3]]] _]];
    set (r3 := loop_poll env timeoutMs (value r1) (final r2)) in *;
    pose proof (accept_admissions env (value r2) (fst (value r3)) (snd (value r3)) (final r3))
      as Hadm4;
    set (r4 := loop_accept tpc env (value r2) (fst (value r3)) (snd (value r3)) (final r3)) in *;
    rewrite Hev3, ?admissions_app, ?Hadm1;
    rewrite ?(admissions_none [_]) by (repeat constructor).
  - lia.
  - intros [Hp | Hr]; [rewrite Hadm2' by exact Hp; lia | discriminate].
  - discriminate.
  - intros _.
    exists (events r1 ++ events r2), (EvSelect n rd ex (timeoutMs ÷ 1000)
              (Int.long32 ((timeoutMs - timeoutMs ÷ 1000) * 1000)), final r2), (events r4).
    exists n, rd, ex, (timeoutMs ÷ 1000), (Int.long32 ((timeoutMs - timeoutMs ÷ 1000) * 1000)).
    rewrite <- !app_assoc. simpl. rewrite admissions_app, Hadm1.
    repeat split; try lia. intros Hp. rewrite Hadm2' by exact Hp. reflexivity.
Qed.

End AdmissionsPerCall.

(** C1, as stated, fails: with both slots of a two-slot pool free, the
    scan of [loop] returns index 1 and the connection is admitted into
    slot 1, although slot 0 is free as well; index 1 is not the lowest
    free index. *)
Lemma scan_does_not_return_lowest_free :
  let r1 := loop_reclaim false Runs.started in
  let r := Runs.tick true (Sim.make 7 9 1) (Sim.make 7 2 1) Runs.started in
  freeConnectionIdx (value r1) = 1 /\
  slot (final r1) 0 = None /\
  ~ lowest_free (final r1) (freeConnectionIdx (value r1)) /\
  In (EvStartConnection 1, Runs.started) (events r) /\
  slot Runs.started 0 = None /\
  ~ lowest_free Runs.started 1.
Proof.
  assert (Hnot : ~ lowest_free Runs.started 1).
  { intros [[Hidx _] | [_ [_ Hlow]]]; [discriminate |].
    apply (Hlow 0); [lia | reflexivity]. }
  repeat split; try reflexivity; try exact Hnot.
  vm_compute. right. left. reflexivity.
Qed.

(** C2, as stated, fails: when the gate is raised and both connections of
    a two-slot pool have terminated, one call of [loop] reclaims both
    slots, admits the pending connection into slot 1 and, the listener
    being readable again, a new connection into slot 0. *)
Lemma two_admissions_in_one_call :
  let r := Runs.tick true (Sim.make 10 9 1) (Sim.make 11 9 1) Runs.gate_raised in
  _running Runs.gate_raised = true /\
  _pendingConnection Runs.gate_raised = true /\
  map fst (events r) =
    [EvDelete 0; EvDelete 1;
     EvStartConnection 1; EvQueueReceive;
     EvInitialize 1 3 AddrOfDefaultHeaders; EvAccept 1 10;
     EvSelect 4 [3] [] 0 100000;
     EvStartConnection 0; EvQueueReceive;
     EvInitialize 0 3 AddrOfDefaultHeaders; EvAccept 0 11] /\
  admissions (events r) = 2%nat /\
  ~ (admissions (events r) <= 1)%nat.
Proof.
  assert (Hadm : admissions (events
            (Runs.tick true (Sim.make 10 9 1) (Sim.make 11 9 1) Runs.gate_raised)) = 2%nat)
    by (vm_compute; reflexivity).
  cbv zeta. rewrite Hadm.
  repeat split; try (vm_compute; reflexivity). lia.
Qed.

(** ** Admission in the cooperative configuration *)

Section CooperativeAdmission.

Context {C : Type} `{HTTPConnection C}.

(** [startConnection] returns the result of [acceptConnection]; a
    negative result empties the slot again, any other result leaves the
    connection object in it. *)
Lemma startConnection_cooperative (adm : Admission C) (idx : Z) (s : HTTPServer C) :
  value (startConnection false adm idx s) = fst (acceptConnection (initialized adm s)) /\
  (fst (acceptConnection (initialized adm s)) < 0 ->
   slot (final (startConnection false adm idx s)) idx = None) /\
  (0 <= fst (acceptConnection (initialized adm s)) ->
   (Z.to_nat idx < length (_connections s))%nat ->
   slot (final (startConnection false adm idx s)) idx =
     Some (snd (acceptConnection (initialized adm s)))).
Proof.
  unfold initialized, startConnection, createConnection, xQueueReceive,
    set_slot, value, final, events, bind, get, ret, emit, modify. simpl.
  destruct (acceptConnection _) as [res c'] eqn:Hacc; simpl.
  destruct (res <? 0) eqn:Hres; simpl.
  - apply Z.ltb_lt in Hres.
    split; [reflexivity |]. split; [intros _; apply slot_put_empty | lia].
  - apply Z.ltb_ge in Hres.
    split; [reflexivity |]. split; [lia |]. intros _ Hlen.
    unfold slot, put_slot. simpl.
    rewrite list_lookup_insert_eq; [reflexivity |].
    rewrite !length_insert. exact Hlen.
Qed.

End CooperativeAdmission.

(** C3: where the code departs from the claim.  In the cooperative
    configuration an [acceptConnection] that reports failure with result
    code 0 is not rolled back: [startConnection] returns 0 and the slot
    still holds the connection object. *)
Theorem accept_result_zero_is_not_rolled_back :
  let adm := {| adm_object := Sim.make 0 9 1; adm_task_created := true |} in
  let r := startConnection false adm 1 Runs.started in
  fst (acceptConnection (initialized adm Runs.started)) = 0 /\
  slot Runs.started 1 = None /\
  value r = 0 /\
  slot (final r) 1 = Some (snd (acceptConnection (initialized adm Runs.started))) /\
  slot (final r) 1 <> None.
Proof.
  cbv zeta. repeat split; try (vm_compute; reflexivity). vm_compute. discriminate.
Qed.


(** ** Shutdown *)

Section Shutdown.

Context {C : Type} `{HTTPConnection C}.

Ltac slots_frame :=
  repeat first
    [ assumption
    | apply same_but_slots_refl
    | eapply same_but_slots_trans; [| apply same_but_slots_put] ].

Lemma stop_body_step (s0 : HTTPServer C) (k : nat) (b : bool) (s : HTTPServer C) :
  sweep_inv s0 k b s ->
  sweep_inv s0 (S k) (value (stop_body (Z.of_nat k) b s)) (final (stop_body (Z.of_nat k) b s)) /\
  Forall (sweep_event s0) (events (stop_body (Z.of_nat k) b s)).
Proof.
  intros [Hsame [Hrest [Hdone [Hopen Hseen]]]].
  pose proof (Hrest (Z.of_nat k) ltac:(lia)) as Hk.
  unfold sweep_inv, value, final, events, stop_body, bind, get, ret, emit, set_slot, modify.
  destruct (slot s (Z.of_nat k)) as [c |] eqn:Hs; simpl.
  - destruct (isClosed (closeConnection c)) eqn:Hclosed; simpl.
    + split; [| repeat constructor; simpl; slots_frame].
      split; [slots_frame |].
      split; [intros j Hj; rewrite !slot_put_other by lia; apply Hrest; lia |].
      split; [| split].
      * intros j Hj. destruct (decide (j = Z.of_nat k)) as [-> | Hne].
        -- rewrite slot_put_empty, <- Hk. simpl. rewrite Hclosed. reflexivity.
        -- rewrite !slot_put_other by lia. apply Hdone. lia.
      * intros Hb j Hj. destruct (decide (j = Z.of_nat k)) as [-> | Hne].
        -- apply slot_put_empty.
        -- rewrite !slot_put_other by lia. apply Hopen; [exact Hb | lia].
      * intros Hb. destruct (Hseen Hb) as [j [Hj Hocc]]. exists j.
        split; [lia |]. rewrite !slot_put_other by lia. exact Hocc.
    + split; [| repeat constructor; simpl; slots_frame].
      split; [slots_frame |].
      split; [intros j Hj; rewrite !slot_put_other by lia; apply Hrest; lia |].
      split; [| split; [discriminate |]].
      * intros j Hj. destruct (decide (j = Z.of_nat k)) as [-> | Hne].
        -- rewrite (slot_put_same _ c) by exact Hs. rewrite <- Hk. simpl.
           rewrite Hclosed. reflexivity.
        -- rewrite !slot_put_other by lia. apply Hdone. lia.
      * intros _. exists (Z.of_nat k). split; [lia |].
        rewrite (slot_put_same _ c) by exact Hs. discriminate.
  - split; [| constructor].
    split; [exact Hsame |].
    split; [intros j Hj; apply Hrest; lia |].
    split; [| split].
    + intros j Hj. destruct (decide (j = Z.of_nat k)) as [-> | Hne].
      * rewrite Hs, <- Hk. reflexivity.
      * apply Hdone. lia.
    + intros Hb j Hj. destruct (decide (j = Z.of_nat k)) as [-> | Hne].
      * exact Hs.
      * apply Hopen; [exact Hb | lia].
    + intros Hb. destruct (Hseen Hb) as [j [Hj Hocc]]. exists j. split; [lia | exact Hocc].
Qed.

(** One turn of the [while] loop of [stop]: every slot of the pool has
    been swept, and the turn reports an open connection exactly when it
    leaves one behind. *)
Lemma sweep_summary (s : HTTPServer C) :
  same_but_slots s (final (stop_sweep s)) /\
  (forall j, 0 <= j < _maxConnections s ->
     slot (final (stop_sweep s)) j = swept (slot s j)) /\
  (value (stop_sweep s) = false -> all_slots_empty (final (stop_sweep s))) /\
  (value (stop_sweep s) = true -> ~ all_slots_empty (final (stop_sweep s))) /\
  Forall (sweep_event s) (events (stop_sweep s)).
Proof.
  unfold stop_sweep.
  rewrite value_bind, final_bind, events_bind.
  rewrite ?value_get, ?final_get, ?events_get, ?app_nil_l.
  rewrite value_bind, final_bind, events_bind.
  pose proof (for_each_range_inv stop_body (sweep_inv s) (sweep_event s)
                (_maxConnections s)) as Hloop.
  lapply Hloop; [clear Hloop; intros Hloop | intros k a s' _; apply stop_body_step].
  destruct (Hloop false s) as [[Hsame [_ [Hdone [Hopen Hseen]]]] Hev].
  { split; [apply same_but_slots_refl |]. split; [reflexivity |].
    split; [intros; lia |]. split; [intros; lia | discriminate]. }
  set (r := for_each (range (_maxConnections s)) stop_body false s) in *.
  rewrite value_bind, final_bind, events_bind.
  rewrite value_ret, final_ret, events_ret, final_emit, events_emit, app_nil_r.
  pose proof (same_but_slots_maxConnections _ _ Hsame) as HN.
  split; [exact Hsame |].
  split; [intros j Hj; apply Hdone; lia |].
  split; [| split].
  - intros Hb j Hj. apply Hopen; [exact Hb |]. rewrite HN in Hj. lia.
  - intros Hb Hall. destruct (Hseen Hb) as [j [Hj Hocc]].
    apply Hocc, Hall. rewrite HN. lia.
  - apply Forall_app. split; [exact Hev |].
    repeat constructor. exact Hsame.
Qed.

(** Whatever the fuel, a [stop_while] that returns has changed slots
    only and has left the gate alone. *)
Lemma stop_while_frame (fuel : nat) (s s' : HTTPServer C) (l : log C) :
  stop_while fuel s = Some (s', l) ->
  same_but_slots s s' /\ Forall (sweep_event s) l.
Proof.
  revert s s' l. induction fuel as [| fuel IH]; intros s s' l; simpl; [discriminate |].
  destruct (sweep_summary s) as [Hsame [_ [_ [_ Hev]]]].
  destruct (stop_sweep s) as [[b s1] l1]; unfold value, final, events in *; simpl in *.
  destruct b.
  - destruct (stop_while fuel s1) as [[s2 l2] |] eqn:Hrec; [| discriminate].
    intros Heq. inversion Heq; subst. destruct (IH _ _ _ Hrec) as [Hsame2 Hev2].
    split; [eapply same_but_slots_trans; eassumption |].
    apply Forall_app. split; [exact Hev |].
    eapply Forall_impl; [exact Hev2 |]. intros es [Hg Hs].
    split; [exact Hg | eapply same_but_slots_trans; eassumption].
  - intros Heq. inversion Heq; subst. auto.
Qed.

(** With every occupant closing within [n] requests, any fuel above [n]
    is enough, the outcome does not depend on it, and every slot is left
    empty. *)
Lemma stop_while_terminates (n : nat) (s : HTTPServer C) :
  (forall j c, 0 <= j < _maxConnections s -> slot s j = Some c ->
     closes_within n c = true) ->
  exists s' l, (forall fuel, (n < fuel)%nat -> stop_while fuel s = Some (s', l)) /\
               all_slots_empty s'.
Proof.
  revert s. induction n as [| n IH]; intros s Hclose;
    destruct (sweep_summary s) as [Hsame [Hswept [Hempty [Hleft _]]]];
    pose proof (same_but_slots_maxConnections _ _ Hsame) as HN;
    destruct (stop_sweep s) as [[b s1] l1] eqn:Hsweep;
    unfold value, final, events in *; simpl in *.
  - assert (Hall : all_slots_empty s1).
    { intros j Hj. rewrite HN in Hj. rewrite Hswept by exact Hj.
      destruct (slot s j) as [c |] eqn:Hs; [| reflexivity].
      specialize (Hclose j c Hj Hs). discriminate. }
    destruct b; [exfalso; apply Hleft; [reflexivity | exact Hall] |].
    exists s1, l1. split; [| exact Hall].
    intros [| fuel] Hf; [lia |]. simpl. rewrite Hsweep. reflexivity.
  - destruct b.
    + destruct (IH s1) as [s2 [l2 [Hrun Hall]]].
      { intros j c' Hj Hs1. rewrite HN in Hj. rewrite Hswept in Hs1 by exact Hj.
        destruct (slot s j) as [c |] eqn:Hs; [| discriminate]. simpl in Hs1.
        specialize (Hclose j c Hj Hs). simpl in Hclose.
        destruct (isClosed (closeConnection c)); [discriminate |].
        inversion Hs1; subst. exact Hclose. }
      exists s2, (l1 ++ l2). split; [| exact Hall].
      intros [| fuel] Hf; [lia |]. simpl. rewrite Hsweep.
      rewrite (Hrun fuel) by lia. reflexivity.
    + exists s1, l1. split; [| apply Hempty; reflexivity].
      intros [| fuel] Hf; [lia |]. simpl. rewrite Hsweep. reflexivity.
Qed.

Lemma closes_within_mono (n m : nat) (c : C) :
  (n <= m)%nat -> closes_within n c = true -> closes_within m c = true.
Proof.
  revert m c. induction n as [| n IH]; intros m c Hle Hn; simpl in Hn; [discriminate |].
  destruct m as [| m]; [lia |]. simpl.
  destruct (isClosed (closeConnection c)); [reflexivity |]. simpl in *.
  apply IH; [lia | exact Hn].
Qed.

(** Finitely many occupants that each close eventually all close within
    one common number of requests. *)
Lemma common_bound (s : HTTPServer C) (k : nat) :
  (forall j c, 0 <= j < Z.of_nat k -> slot s j = Some c ->
     exists n, closes_within n c = true) ->
  exists n, forall j c, 0 <= j < Z.of_nat k -> slot s j = Some c ->
     closes_within n c = true.
Proof.
  induction k as [| k IH]; intros Hall.
  - exists 0%nat. intros j c Hj. lia.
  - destruct IH as [n1 Hn1]; [intros j c Hj; apply Hall; lia |].
    destruct (slot s (Z.of_nat k)) as [ck |] eqn:Hk.
    + destruct (Hall (Z.of_nat k) ck ltac:(lia) Hk) as [n2 Hn2].
      exists (Nat.max n1 n2). intros j c Hj Hs.
      destruct (decide (j = Z.of_nat k)) as [-> | Hne].
      * rewrite Hk in Hs. inversion Hs; subst.
        apply (closes_within_mono n2); [lia | exact Hn2].
      * apply (closes_within_mono n1); [lia |]. apply (Hn1 j); [lia | exact Hs].
    + exists n1. intros j c Hj Hs.
      destruct (decide (j = Z.of_nat k)) as [-> | Hne]; [congruence |].
      apply (Hn1 j); [lia | exact Hs].
Qed.

(** [stop] on a running server whose occupants all close eventually
    returns, whatever the fuel above some bound, and always with the
    same outcome. *)
Lemma stop_returns (s : HTTPServer C) :
  _running s = true ->
  (forall j c, 0 <= j < _maxConnections s -> slot s j = Some c ->
     exists n, closes_within n c = true) ->
  exists bound s' l,
    (forall fuel, (bound < fuel)%nat -> stop fuel s = Some (s', l)) /\
    all_slots_empty s' /\ _running s' = false /\ _socket s' = -1 /\
    In (EvClose (_socket s)) (map fst l).
Proof.
  intros Hrun Hclose.
  destruct (common_bound s (Z.to_nat (_maxConnections s))) as [n Hn].
  { intros j c Hj. apply Hclose. lia. }
  destruct (stop_while_terminates n (with_running false s)) as [s1 [l1 [Hfuel Hall]]].
  { intros j c Hj Hs. apply (Hn j); [simpl in Hj; lia | exact Hs]. }
  pose proof (Hfuel (S n) ltac:(lia)) as Hone.
  apply stop_while_frame in Hone as [Hsame _].
  exists n, (with_socket (-1) s1), (l1 ++ [(EvClose (_socket s1), s1)]).
  split; [| split; [| split; [| split]]].
  - intros fuel Hf. unfold stop. rewrite Hrun, (Hfuel fuel Hf). reflexivity.
  - exact Hall.
  - simpl. rewrite Hsame. reflexivity.
  - reflexivity.
  - rewrite map_app, in_app_iff. right. left. simpl.
    rewrite (same_but_slots_socket _ _ Hsame). reflexivity.
Qed.

(** C5: [stop] on a running server whose occupants each report closed
    after finitely many requests to close returns (with any fuel above a
    bound, and always with the same outcome); on return every slot is
    empty, [_running] is false, and the listener socket has been closed
    and reset to -1.  [stop] on a server that is not running changes
    nothing. *)
Theorem stop_empties_the_pool_and_unbinds (s : HTTPServer C) :
  (_running s = true ->
   (forall j c, 0 <= j < _maxConnections s -> slot s j = Some c ->
      exists n, closes_within n c = true) ->
   exists bound s' l,
     (forall fuel, (bound < fuel)%nat -> stop fuel s = Some (s', l)) /\
     all_slots_empty s' /\ _running s' = false /\ _socket s' = -1 /\
     In (EvClose (_socket s)) (map fst l)) /\
  (_running s = false -> forall fuel, stop fuel s = Some (s, [])).
Proof.
  split; [apply stop_returns |].
  intros Hrun fuel. unfold stop. rewrite Hrun. reflexivity.
Qed.

End Shutdown.

(** ** The listener lifecycle *)

Section Listener.

Context {C : Type}.

(** [start] touches the listener socket, its address and [_running], and
    nothing else. *)
Lemma start_frame (env : SocketEnv) (s : HTTPServer C) :
  _pendingConnection (final (start env s)) = _pendingConnection s /\
  _pendingQueue (final (start env s)) = _pendingQueue s /\
  _connections (final (start env s)) = _connections s /\
  _defaultHeaders (final (start env s)) = _defaultHeaders s /\
  Forall (fun es => gate_untouched (fst es) = true /\
                    _pendingConnection (snd es) = _pendingConnection s)
         (events (start env s)).
Proof.
  unfold start, setupSocket, value, final, events, bind, get, ret, emit, modify.
  destruct (_running s); simpl; [repeat split; constructor |].
  destruct (socket_result env >=? 0); simpl.
  - destruct (bind_result env =? 0); simpl.
    + destruct (listen_result env =? 0); simpl;
        repeat split; repeat constructor.
    + repeat split; repeat constructor.
  - repeat split; repeat constructor.
Qed.

(** C6: [start] on a running server returns 1, changes no state and
    touches nothing; on a server that is not running it returns 0 or 1,
    and 0 exactly when [socket] fails, or [bind] on the new socket fails,
    or [listen] on the bound socket fails (equivalently, when one of the
    three answers is a failure); on failure the listener socket is -1,
    a socket that had been created is closed, the server is still not
    running, and a later [start] that meets no failure succeeds; on
    success the server runs on the new socket. *)
Theorem start_fails_exactly_on_a_failed_step (env : SocketEnv) (s : HTTPServer C) :
  (_running s = true -> start env s = (1, s, [])) /\
  (_running s = false ->
   (value (start env s) = 0 \/ value (start env s) = 1) /\
   (value (start env s) = 0 <->
      socket_result env < 0 \/
      (0 <= socket_result env /\ bind_result env <> 0) \/
      (0 <= socket_result env /\ bind_result env = 0 /\ listen_result env <> 0)) /\
   (value (start env s) = 0 <->
      socket_result env < 0 \/ bind_result env <> 0 \/ listen_result env <> 0) /\
   (value (start env s) = 0 ->
      _socket (final (start env s)) = -1 /\
      _running (final (start env s)) = false /\
      (0 <= socket_result env ->
       In (EvClose (socket_result env)) (map fst (events (start env s)))) /\
      forall env', 0 <= socket_result env' -> bind_result env' = 0 ->
                   listen_result env' = 0 ->
                   value (start env' (final (start env s))) = 1) /\
   (value (start env s) = 1 ->
      _socket (final (start env s)) = socket_result env /\
      _running (final (start env s)) = true)).
Proof.
  split.
  - intros Hrun. unfold start, bind, get, ret. rewrite Hrun. reflexivity.
  - intros Hrun.
    unfold start, setupSocket, value, final, events, bind, get, ret, emit, modify.
    rewrite Hrun. simpl.
    destruct (socket_result env >=? 0) eqn:Hsock; simpl.
    + apply Z.geb_le in Hsock.
      destruct (bind_result env =? 0) eqn:Hbind; simpl.
      * apply Z.eqb_eq in Hbind.
        destruct (listen_result env =? 0) eqn:Hlisten; simpl.
        -- apply Z.eqb_eq in Hlisten.
           repeat split; auto; try discriminate; try lia.
           all: intros Hor; lia.
        -- apply Z.eqb_neq in Hlisten.
           repeat split; auto; try discriminate; try lia.
           intros env' Hs' Hb' Hl'.
           rewrite Hrun. simpl.
           rewrite (proj2 (Z.geb_le _ _) Hs'). simpl.
           rewrite Hb', Hl'. reflexivity.
      * apply Z.eqb_neq in Hbind.
        repeat split; auto; try discriminate; try lia.
        intros env' Hs' Hb' Hl'.
        rewrite Hrun. simpl.
        rewrite (proj2 (Z.geb_le _ _) Hs'). simpl.
        rewrite Hb', Hl'. reflexivity.
    + rewrite Z.geb_leb in Hsock. apply Z.leb_gt in Hsock.
      repeat split; auto; try discriminate; try lia.
      intros env' Hs' Hb' Hl'.
      rewrite Hrun. simpl.
      rewrite (proj2 (Z.geb_le _ _) Hs'). simpl.
      rewrite Hb', Hl'. reflexivity.
Qed.

End Listener.

(** ** The admission gate *)

Section Gate.

Context {C : Type} `{HTTPConnection C}.

Variable tpc : bool.

Lemma stop_frame (fuel : nat) (s s' : HTTPServer C) (l : log C) :
  stop fuel s = Some (s', l) ->
  _pendingConnection s' = _pendingConnection s /\
  _pendingQueue s' = _pendingQueue s /\
  Forall (fun es => gate_untouched (fst es) = true /\
                    _pendingConnection (snd es) = _pendingConnection s /\
                    _pendingQueue (snd es) = _pendingQueue s) l.
Proof.
  unfold stop. destruct (_running s) eqn:Hrun.
  - destruct (stop_while fuel (with_running false s)) as [[s1 l1] |] eqn:Hwhile;
      [| discriminate].
    apply stop_while_frame in Hwhile as [Hsame Hev].
    unfold teardownSocket, bind, get, emit, modify. simpl.
    intros Heq. inversion Heq; subst. simpl.
    split; [rewrite Hsame; reflexivity |].
    split; [rewrite Hsame; reflexivity |].
    apply Forall_app. split.
    + eapply Forall_impl; [exact Hev |]. intros es [Hg Hs].
      split; [exact Hg |]. rewrite Hs. auto.
    + repeat constructor; simpl; rewrite Hsame; reflexivity.
  - intros Heq. inversion Heq; subst. repeat split. constructor.
Qed.

(** C10: [stop] neither clears the admission gate nor touches its queue.
    Whenever [stop] returns, the flag and the queue are as they were, at
    every event of the shutdown and on return, no event of the shutdown
    is a queue operation or an admission, and a subsequent [start]
    leaves them alone as well; in particular a gate that is raised when
    [stop] is called is still raised after [stop] and after the next
    [start].  And [stop] does return, with the flag and the queue
    unchanged: on a running server whose occupants all close eventually,
    for every fuel above some bound, and on a stopped server at once. *)
Theorem stop_keeps_the_gate (s : HTTPServer C) :
  (forall fuel s' l, stop fuel s = Some (s', l) ->
     _pendingConnection s' = _pendingConnection s /\
     _pendingQueue s' = _pendingQueue s /\
     Forall (fun es => gate_untouched (fst es) = true /\
                       _pendingConnection (snd es) = _pendingConnection s /\
                       _pendingQueue (snd es) = _pendingQueue s) l /\
     (forall env, _pendingConnection (final (start env s')) = _pendingConnection s /\
                  _pendingQueue (final (start env s')) = _pendingQueue s) /\
     (_pendingConnection s = true ->
      _pendingConnection s' = true /\
      forall env, _pendingConnection (final (start env s')) = true)) /\
  (_running s = true ->
   (forall j c, 0 <= j < _maxConnections s -> slot s j = Some c ->
      exists n, closes_within n c = true) ->
   exists bound s' l,
     (forall fuel, (bound < fuel)%nat -> stop fuel s = Some (s', l)) /\
     _pendingConnection s' = _pendingConnection s /\
     _pendingQueue s' = _pendingQueue s) /\
  (_running s = false -> forall fuel, stop fuel s = Some (s, [])).
Proof.
  split; [| split].
  - intros fuel s' l Hstop.
    destruct (stop_frame fuel s s' l Hstop) as [Hp [Hq Hev]].
    split; [exact Hp |]. split; [exact Hq |]. split; [exact Hev |].
    assert (Hstart : forall env,
              _pendingConnection (final (start env s')) = _pendingConnection s /\
              _pendingQueue (final (start env s')) = _pendingQueue s).
    { intros env. destruct (start_frame env s') as [Hp' [Hq' _]].
      rewrite Hp', Hq'. auto. }
    split; [exact Hstart |].
    intros Hraised. split; [congruence |].
    intros env. destruct (Hstart env) as [Hp' _]. congruence.
  - intros Hrun Hclose.
    destruct (stop_returns s Hrun Hclose) as [bound [s' [l [Hfuel _]]]].
    exists bound, s', l. split; [exact Hfuel |].
    destruct (stop_frame (S bound) s s' l (Hfuel (S bound) ltac:(lia))) as [Hp [Hq _]].
    auto.
  - intros Hrun fuel. unfold stop. rewrite Hrun. reflexivity.
Qed.






End Gate.

(** ** The time budget *)

Section Budget.

Context {C : Type} `{HTTPConnection C}.

Variable tpc : bool.

Lemma wrap32_shift (x k : Z) : Int.wrap32 (x + k * Int.two32) = Int.wrap32 x.
Proof. unfold Int.wrap32. apply Z.mod_add. discriminate. Qed.

Lemma wrap32_range (x : Z) : 0 <= Int.wrap32 x < Int.two32.
Proof. unfold Int.wrap32. apply Z.mod_pos_bound. reflexivity. Qed.

Lemma wrap32_eq (x : Z) : Int.wrap32 x = x - (x / Int.two32) * Int.two32.
Proof. unfold Int.wrap32. rewrite Z.mod_eq by discriminate. lia. Qed.

(** The difference [loop] computes is the budget minus the elapsed time,
    both taken modulo 2^32. *)
Lemma remaining_delta (t0 budget t1 : Z) :
  Int.wrap32 (millis t0 + budget - millis t1) =
  Int.wrap32 (budget - Int.wrap32 (t1 - t0)).
Proof.
  unfold millis. rewrite (wrap32_eq t0), (wrap32_eq t1), (wrap32_eq (t1 - t0)).
  replace (t0 - t0 / Int.two32 * Int.two32 + budget - (t1 - t1 / Int.two32 * Int.two32))
    with (budget - (t1 - t0) + (t1 / Int.two32 - t0 / Int.two32) * Int.two32) by lia.
  replace (budget - (t1 - t0 - (t1 - t0) / Int.two32 * Int.two32))
    with (budget - (t1 - t0) + ((t1 - t0) / Int.two32) * Int.two32) by lia.
  rewrite !wrap32_shift. reflexivity.
Qed.

(** C7: for a budget between 0 and [INT_MAX], a running [loop] returns
    the remaining time [startMs + budgetMs - millis()], computed in
    [uint32_t] and read as a signed number, with negative values replaced
    by zero; the result lies between 0 and [INT_MAX].  Whenever the time
    elapsed between the two readings of the clock is at most 2^31 ms
    above the budget, the result is the budget minus the elapsed time,
    or zero if that is negative, and so lies between 0 and the budget. *)
Theorem loop_returns_the_remaining_budget
    (env : LoopEnv C) (budgetMs : Z) (s : HTTPServer C) :
  _running s = true ->
  0 <= budgetMs <= Int.INT_MAX ->
  let elapsed := Int.wrap32 (millis_end env - millis_start env) in
  let residual := value (loop tpc env budgetMs s) in
  residual =
    Z.max 0 (Int.signed32
               (Int.wrap32 (millis (millis_start env) + budgetMs - millis (millis_end env)))) /\
  0 <= residual <= Int.INT_MAX /\
  (elapsed <= budgetMs + 2 ^ 31 ->
   residual = Z.max 0 (budgetMs - elapsed) /\ 0 <= residual <= budgetMs).
Proof.
  intros Hrun Hbudget elapsed residual.
  destruct (loop_running tpc env budgetMs s Hrun) as [Hval _].
  unfold residual. rewrite Hval. clear Hval residual.
  unfold remaining, Int.signed32.
  pose proof (wrap32_range (millis (millis_start env) + budgetMs - millis (millis_end env)))
    as Hrange.
  rewrite remaining_delta in *. fold elapsed in Hrange |- *.
  pose proof (wrap32_range (millis_end env - millis_start env)) as Helapsed.
  fold elapsed in Helapsed.
  set (delta := Int.wrap32 (budgetMs - elapsed)) in *.
  change (delta >? 2147483647) with (delta >? Int.INT_MAX).
  unfold Int.INT_MAX, Int.two32 in *. simpl in Hrange, Helapsed, Hbudget.
  destruct (delta >? 2147483647) eqn:Hcmp.
  - apply Z.gtb_lt in Hcmp.
    split; [lia |]. split; [lia |]. intros Hle.
    assert (budgetMs < elapsed).
    { destruct (Z.lt_ge_cases budgetMs elapsed) as [Hlt | Hge]; [exact Hlt |].
      exfalso. unfold delta, Int.wrap32, Int.two32 in Hcmp.
      rewrite Z.mod_small in Hcmp by (simpl; lia). lia. }
    lia.
  - rewrite Z.gtb_ltb in Hcmp. apply Z.ltb_ge in Hcmp.
    split; [lia |]. split; [lia |]. intros Hle.
    assert (Hd : delta = budgetMs - elapsed).
    { destruct (Z.lt_ge_cases budgetMs elapsed) as [Hlt | Hge].
      - exfalso. unfold delta in Hcmp.
        rewrite <- (wrap32_shift _ 1) in Hcmp.
        unfold Int.wrap32, Int.two32 in Hcmp.
        rewrite Z.mod_small in Hcmp by (simpl; lia). simpl in Hcmp. lia.
      - unfold delta, Int.wrap32, Int.two32. apply Z.mod_small. simpl. lia. }
    lia.
Qed.

End Budget.

(** ** The poll timeout *)

Section PollTimeout.

Context {C : Type} `{HTTPConnection C}.

Variable tpc : bool.

Lemma startConnection_no_poll (adm : Admission C) (idx : Z) (s : HTTPServer C) :
  Forall (fun es => is_poll (fst es) = false) (events (startConnection tpc adm idx s)).
Proof.
  destruct (startConnection_summary tpc adm idx s) as [_ [[tl [Htl Hall]] _]].
  rewrite Htl. constructor; [reflexivity |].
  eapply Forall_impl; [exact Hall |]. intros es [_ [_ [_ Hpoll]]]. exact Hpoll.
Qed.

(** A running [loop] calls [select] once, with the timeout computed from
    [timeoutMs]. *)
Lemma loop_polls_once (env : LoopEnv C) (timeoutMs : Z) (s : HTTPServer C) :
  _running s = true ->
  exists before after nfds rd ex st,
    events (loop tpc env timeoutMs s) =
      before ++ (EvSelect nfds rd ex (Z.quot timeoutMs 1000)
                   (Int.long32 ((timeoutMs - Z.quot timeoutMs 1000) * 1000)), st) :: after /\
    Forall (fun es => is_poll (fst es) = false) before /\
    Forall (fun es => is_poll (fst es) = false) after.
Proof.
  intros Hrun.
  destruct (loop_running tpc env timeoutMs s Hrun) as [_ [_ Hev]].
  rewrite Hev. clear Hev.
  destruct (reclaim_summary tpc s) as [Hhf1 [_ Hev1]].
  set (r1 := loop_reclaim tpc s) in *.
  destruct (admit_pending_summary tpc env (freeConnectionIdx (value r1)) (final r1) Hhf1)
    as [_ Hcase2].
  set (r2 := loop_admit_pending tpc env (freeConnectionIdx (value r1)) (final r1)) in *.
  destruct (poll_summary env timeoutMs (value r1) (final r2)) as [_ [[n [rd [ex Hev3]]] _]].
  set (r3 := loop_poll env timeoutMs (value r1) (final r2)) in *.
  pose proof (accept_summary tpc env (value r2) (fst (value r3)) (snd (value r3)) (final r3))
    as Hcase4.
  set (r4 := loop_accept tpc env (value r2) (fst (value r3)) (snd (value r3)) (final r3)) in *.
  exists (events r1 ++ events r2), (events r4), n, rd, ex, (final r2).
  rewrite Hev3, <- app_assoc. split; [reflexivity |]. split.
  - apply Forall_app. split.
    + eapply Forall_impl; [exact Hev1 |]. intros es [_ [_ [_ Hpoll]]]. exact Hpoll.
    + destruct Hcase2 as [[_ [_ [_ He2]]] | [_ [_ [_ He2]]]]; rewrite He2;
        [apply startConnection_no_poll | constructor].
  - destruct Hcase4 as [[_ [_ [_ He4]]] | [[_ [_ [_ [_ He4]]]] | [_ He4]]]; rewrite He4.
    + apply startConnection_no_poll.
    + repeat constructor.
    + constructor.
Qed.

Lemma long32_range (z : Z) : Int.INT_MIN <= Int.long32 z <= Int.INT_MAX.
Proof.
  unfold Int.long32, Int.signed32, Int.INT_MIN.
  pose proof (wrap32_range z) as Hrange.
  destruct (Int.wrap32 z >? Int.INT_MAX) eqn:Hcmp.
  - apply Z.gtb_lt in Hcmp. unfold Int.INT_MAX, Int.two32 in *. simpl in *. lia.
  - rewrite Z.gtb_ltb in Hcmp. apply Z.ltb_ge in Hcmp.
    unfold Int.INT_MAX, Int.two32 in *. simpl in *. lia.
Qed.

Lemma long32_exact (z : Z) : Int.INT_MIN <= z <= Int.INT_MAX -> Int.long32 z = z.
Proof.
  intros Hz. unfold Int.long32, Int.signed32.
  unfold Int.INT_MIN, Int.INT_MAX in Hz. simpl in Hz.
  destruct (Z_lt_le_dec z 0) as [Hneg | Hpos].
  - assert (Hwrap : Int.wrap32 z = z + Int.two32).
    { rewrite <- (wrap32_shift z 1). unfold Int.wrap32, Int.two32. simpl.
      apply Z.mod_small. lia. }
    rewrite Hwrap. unfold Int.INT_MAX, Int.two32. simpl.
    rewrite (proj2 (Z.gtb_lt _ _)) by lia. lia.
  - assert (Hwrap : Int.wrap32 z = z).
    { unfold Int.wrap32, Int.two32. simpl. apply Z.mod_small. lia. }
    rewrite Hwrap. unfold Int.INT_MAX. simpl.
    destruct (z >? 2147483647) eqn:Hcmp; [| reflexivity].
    apply Z.gtb_lt in Hcmp. lia.
Qed.

(** The product [(timeoutMs - tv_sec) * 1000] fits the [long] exactly
    for budgets of up to 2149632 ms in either direction. *)
Lemma micros_fit (budgetMs : Z) :
  (-2149632 <= budgetMs <= 2149632 ->
   Int.INT_MIN <= (budgetMs - Z.quot budgetMs 1000) * 1000 <= Int.INT_MAX) /\
  (2149632 < budgetMs -> Int.INT_MAX < (budgetMs - Z.quot budgetMs 1000) * 1000) /\
  (budgetMs < -2149632 -> (budgetMs - Z.quot budgetMs 1000) * 1000 < Int.INT_MIN).
Proof.
  unfold Int.INT_MIN, Int.INT_MAX. simpl.
  pose proof (Z.quot_rem' budgetMs 1000) as Hdiv.
  destruct (Z_lt_le_dec budgetMs 0) as [Hneg | Hpos].
  - pose proof (Z.rem_bound_pos_neg budgetMs 1000 ltac:(lia) ltac:(lia)) as Hrem.
    repeat split; intros; lia.
  - pose proof (Z.rem_bound_pos budgetMs 1000 Hpos ltac:(lia)) as Hrem.
    repeat split; intros; lia.
Qed.

(** C9, as amended: a running [loop] calls [select] exactly once, with
    [tv_sec = timeoutMs / 1000] (C division, which truncates) and
    [tv_usec = (timeoutMs - tv_sec) * 1000] as far as the 32-bit [long]
    of the target holds it, which is for budgets between -2149632 and
    2149632; beyond them the product wraps around.  The timeout equals
    [timeoutMs] milliseconds for every [timeoutMs] strictly between
    -1000 and 1000, so for every non-negative budget below 1000, and
    exceeds it for every [timeoutMs] from 1000 to 2149632; for 1500 it
    is 1 s plus 1499000 us.  From -2149632 to -1000 it is below
    [timeoutMs].  For a budget above 2149632 [tv_usec] is less than the
    product, and the timeout can fall below the budget: for 4299268 it
    is 4299 s plus 1704 us. *)
Theorem select_timeout_is_budget_only_below_one_second
    (env : LoopEnv C) (budgetMs : Z) (s : HTTPServer C) :
  _running s = true ->
  Int.INT_MIN <= budgetMs <= Int.INT_MAX ->
  (exists nfds rd ex st,
     In (EvSelect nfds rd ex (Z.quot budgetMs 1000)
           (Int.long32 ((budgetMs - Z.quot budgetMs 1000) * 1000)), st)
        (events (loop tpc env budgetMs s))) /\
  occurrences is_poll (events (loop tpc env budgetMs s)) = 1%nat /\
  (forall nfds rd ex tv_sec tv_usec st,
     In (EvSelect nfds rd ex tv_sec tv_usec, st) (events (loop tpc env budgetMs s)) ->
     tv_sec = Z.quot budgetMs 1000 /\
     tv_usec = Int.long32 ((budgetMs - Z.quot budgetMs 1000) * 1000) /\
     Int.INT_MIN <= tv_usec <= Int.INT_MAX /\
     (-2149632 <= budgetMs <= 2149632 ->
      tv_usec = (budgetMs - Z.quot budgetMs 1000) * 1000) /\
     (2149632 < budgetMs -> tv_usec < (budgetMs - Z.quot budgetMs 1000) * 1000) /\
     (budgetMs < -2149632 -> (budgetMs - Z.quot budgetMs 1000) * 1000 < tv_usec) /\
     (-1000 < budgetMs < 1000 -> timeval_micros tv_sec tv_usec = budgetMs * 1000) /\
     (1000 <= budgetMs <= 2149632 -> timeval_micros tv_sec tv_usec > budgetMs * 1000) /\
     (-2149632 <= budgetMs <= -1000 ->
      timeval_micros tv_sec tv_usec < budgetMs * 1000) /\
     (budgetMs = 1500 -> tv_sec = 1 /\ tv_usec = 1499000) /\
     (budgetMs = 4299268 ->
      tv_sec = 4299 /\ tv_usec = 1704 /\
      timeval_micros tv_sec tv_usec < budgetMs * 1000)).
Proof.
  intros Hrun Hint.
  destruct (loop_polls_once env budgetMs s Hrun)
    as [before [after [n [rd [ex [st [Hev [Hbefore Hafter]]]]]]]].
  rewrite Hev. split; [| split].
  - exists n, rd, ex, st. apply in_app_iff. right. left. reflexivity.
  - change (before ++ ?e :: after) with (before ++ [e] ++ after).
    rewrite !occurrences_app.
    rewrite (occurrences_none _ _ Hbefore), (occurrences_none _ _ Hafter). reflexivity.
  - intros nfds rd' ex' tv_sec tv_usec st' Hin.
    apply in_app_iff in Hin as [Hin | [Heq | Hin]].
    + apply (proj1 (List.Forall_forall _ _) Hbefore) in Hin. discriminate.
    + inversion Heq; subst. clear Heq.
      destruct (micros_fit budgetMs) as [Hfit [Habove Hbelow]].
      pose proof (long32_range ((budgetMs - Z.quot budgetMs 1000) * 1000)) as Hrange.
      assert (Hexact : -2149632 <= budgetMs <= 2149632 ->
                       Int.long32 ((budgetMs - Z.quot budgetMs 1000) * 1000) =
                       (budgetMs - Z.quot budgetMs 1000) * 1000).
      { intros Hb. apply long32_exact, Hfit, Hb. }
      split; [reflexivity |]. split; [reflexivity |]. split; [exact Hrange |].
      split; [exact Hexact |].
      split; [intros Hb; specialize (Habove Hb); lia |].
      split; [intros Hb; specialize (Hbelow Hb); lia |].
      unfold timeval_micros.
      split; [| split; [| split; [| split]]].
      * intros Hsmall. rewrite Hexact by lia.
        assert (Z.quot budgetMs 1000 = 0) by (apply Z.quot_small_iff; lia).
        lia.
      * intros Hlarge. rewrite Hexact by lia.
        assert (1 <= Z.quot budgetMs 1000)
          by (apply Z.quot_le_lower_bound; lia).
        lia.
      * intros Hneg. rewrite Hexact by lia.
        assert (Z.quot budgetMs 1000 <= -1).
        { rewrite <- (Z.opp_involutive budgetMs), Z.quot_opp_l by discriminate.
          assert (1 <= Z.quot (- budgetMs) 1000)
            by (apply Z.quot_le_lower_bound; lia).
          lia. }
        lia.
      * intros ->. split; reflexivity.
      * intros ->. repeat split.
    + apply (proj1 (List.Forall_forall _ _) Hafter) in Hin. discriminate.
Qed.

End PollTimeout.

(** ** Default headers *)

Lemma get_set_same (name value : string) (hs : Headers.HTTPHeaders) :
  Headers.get name (Headers.set (name, value) hs) = Some value.
Proof.
  induction hs as [| [n v] hs IH]; simpl.
  - rewrite String.eqb_refl. reflexivity.
  - destruct (String.eqb n name) eqn:Hn; simpl.
    + rewrite String.eqb_refl. reflexivity.
    + rewrite Hn. exact IH.
Qed.

Lemma get_set_other (name other value : string) (hs : Headers.HTTPHeaders) :
  other <> name ->
  Headers.get other (Headers.set (name, value) hs) = Headers.get other hs.
Proof.
  intros Hne. induction hs as [| [n v] hs IH]; simpl.
  - rewrite (proj2 (String.eqb_neq _ _)) by congruence. reflexivity.
  - destruct (String.eqb n name) eqn:Hn; simpl.
    + apply String.eqb_eq in Hn. subst n.
      rewrite !(proj2 (String.eqb_neq _ _)) by congruence. reflexivity.
    + destruct (String.eqb n other); [reflexivity | exact IH].
Qed.

Section DefaultHeaders.

Context {C : Type} `{HTTPConnection C}.

Variable tpc : bool.

(** An admission initialises exactly the connection of its slot, with the
    listener socket and the address of the server's own header
    collection, which the admission itself does not change. *)
Lemma startConnection_initialize (adm : Admission C) (idx : Z) (s : HTTPServer C) :
  (exists st, In (EvInitialize idx (_socket s) AddrOfDefaultHeaders, st)
                 (events (startConnection tpc adm idx s))) /\
  (forall i fd p st,
     In (EvInitialize i fd p, st) (events (startConnection tpc adm idx s)) ->
     i = idx /\ fd = _socket s /\ p = AddrOfDefaultHeaders /\
     _defaultHeaders st = _defaultHeaders s) /\
  _defaultHeaders (final (startConnection tpc adm idx s)) = _defaultHeaders s.
Proof.
  unfold startConnection, createConnection, startConnectionTask, xQueueReceive,
    set_slot, value, final, events, bind, get, ret, emit, modify.
  destruct tpc; simpl.
  - destruct (adm_task_created adm); simpl.
    all: split; [eexists; right; right; left; reflexivity |].
    all: split; [| reflexivity].
    all: intros i fd p st Hin;
      repeat (destruct Hin as [Heq | Hin]; [try discriminate |]); try destruct Hin.
    all: inversion Heq; subst; auto.
  - destruct (acceptConnection _) as [res c'] eqn:Hacc; simpl.
    destruct (res <? 0) eqn:Hres; simpl.
    all: split; [eexists; right; right; left; reflexivity |].
    all: split; [| reflexivity].
    all: intros i fd p st Hin;
      repeat (destruct Hin as [Heq | Hin]; [try discriminate |]); try destruct Hin.
    all: inversion Heq; subst; auto.
Qed.

(** C8, as amended: a connection admitted after
    [setDefaultHeader("X","1")] is initialised with the address of the
    server's own header collection, in which X is mapped to 1, at the
    time of the call and after the admission.  A later
    [setDefaultHeader(name, value)] updates that same collection in
    place, so the mapping behind the address the connection was handed
    then maps [name] to [value]. *)
Theorem admitted_connection_is_handed_the_servers_headers
    (adm : Admission C) (idx : Z) (s : HTTPServer C) (name value : string) :
  let s1 := final (setDefaultHeader "X" "1" s) in
  let r := startConnection tpc adm idx s1 in
  let s3 := final (setDefaultHeader name value (final r)) in
  (exists st, In (EvInitialize idx (_socket s1) AddrOfDefaultHeaders, st) (events r)) /\
  (forall i fd p st, In (EvInitialize i fd p, st) (events r) ->
     i = idx /\ p = AddrOfDefaultHeaders /\ Headers.get "X" (deref p st) = Some "1"%string) /\
  Headers.get "X" (deref AddrOfDefaultHeaders (final r)) = Some "1"%string /\
  deref AddrOfDefaultHeaders s3 =
    Headers.set (name, value) (deref AddrOfDefaultHeaders (final r)) /\
  Headers.get name (deref AddrOfDefaultHeaders s3) = Some value /\
  _connections s3 = _connections (final r).
Proof.
  intros s1 r s3.
  destruct (startConnection_initialize adm idx s1) as [Hex [Hall Hfin]].
  fold r in Hex, Hall, Hfin.
  assert (Hx : Headers.get "X" (_defaultHeaders s1) = Some "1"%string)
    by apply get_set_same.
  split; [exact Hex |]. split; [| split; [| split; [| split]]].
  - intros i fd p st Hin. destruct (Hall i fd p st Hin) as [Hi [_ [Hp Hh]]].
    subst p. simpl. rewrite Hh. auto.
  - simpl. rewrite Hfin. exact Hx.
  - reflexivity.
  - simpl. apply get_set_same.
  - reflexivity.
Qed.

End DefaultHeaders.

(** C8, as stated, fails: the connection admitted into slot 1 after
    [setDefaultHeader("X","1")] was handed a collection that maps X to 1;
    after a later [setDefaultHeader("X","2")] the connection object is
    the same, and the collection it was handed maps X to 2. *)
Lemma later_header_changes_what_the_connection_was_handed :
  let adm := {| adm_object := Sim.make 7 9 1; adm_task_created := true |} in
  let s1 := final (setDefaultHeader "X" "1" Runs.started) in
  let s2 := final (startConnection false adm 1 s1) in
  let s3 := final (setDefaultHeader "X" "2" s2) in
  exists c p,
    slot s2 1 = Some c /\ slot s3 1 = Some c /\ Sim.headers c = Some p /\
    deref p s2 = [("X", "1")]%string /\
    deref p s3 = [("X", "2")]%string /\
    deref p s3 <> deref p s2.
Proof.
  cbv zeta. eexists _, AddrOfDefaultHeaders.
  repeat split; try (vm_compute; reflexivity).
  vm_compute. discriminate.
Qed.

(** C9, as stated, fails for a negative budget: [loop(-1500)] calls
    [select] with [tv_sec = -1] and [tv_usec = -1499000], which is not
    -1500 ms although -1500 < 1000. *)
Lemma timeout_differs_for_budget_below_minus_one_second :
  let r := loop false (Sim.env 0 10 3 false (Sim.make 7 9 1) (Sim.make 7 9 1))
             (-1500) Runs.started in
  _running Runs.started = true /\
  -1500 < 1000 /\
  In (EvSelect 4 [3] [] (-1) (-1499000), Runs.started) (events r) /\
  timeval_micros (-1) (-1499000) <> -1500 * 1000.
Proof.
  cbv zeta. split; [reflexivity |]. split; [reflexivity |].
  split; [vm_compute; left; reflexivity | vm_compute; discriminate].
Qed.

(** The other half of C9 fails on the target as well: for a budget above
    2149632 ms the product no longer fits the 32-bit [long].
    [loop(4299268)] calls [select] with [tv_sec = 4299] and
    [tv_usec = 1704], which is less than the budget although
    4299268 >= 1000. *)
Lemma timeout_falls_below_a_budget_above_2149632 :
  let r := loop false (Sim.env 0 10 3 false (Sim.make 7 9 1) (Sim.make 7 9 1))
             4299268 Runs.started in
  _running Runs.started = true /\
  1000 <= 4299268 <= Int.INT_MAX /\
  In (EvSelect 4 [3] [] 4299 1704, Runs.started) (events r) /\
  timeval_micros 4299 1704 < 4299268 * 1000.
Proof.
  cbv zeta. split; [reflexivity |]. split; [vm_compute; split; congruence |].
  split; [vm_compute; left; reflexivity | reflexivity].
Qed.

(** ** The theorems at concrete inputs *)


(** C5 on a running server with two occupied slots, one of which needs
    three requests before it reports closed. *)
Lemma stop_empties_the_pool_witness :
  let s := final (loop false (Sim.env 0 10 3 true (Sim.make 8 9 3) (Sim.make 8 9 3)) 100
                    Runs.after_first) in
  _running s = true /\
  exists bound s' l,
    (forall fuel, (bound < fuel)%nat -> stop fuel s = Some (s', l)) /\
    all_slots_empty s' /\ _running s' = false /\ _socket s' = -1 /\
    In (EvClose (_socket s)) (map fst l).
Proof.
  cbv zeta. split; [reflexivity |].
  apply (proj1 (stop_empties_the_pool_and_unbinds _)); [reflexivity |].
  intros j c Hj Hs. exists 3%nat.
  assert (Hcases : j = 0 \/ j = 1).
  { match type of Hj with _ <= _ < ?n => change n with 2 in Hj end. lia. }
  destruct Hcases as [-> | ->]; vm_compute in Hs; inversion Hs; reflexivity.
Defined.

(** C7 on [loop(100)] with the clock at 0 before and at 10 after. *)
Lemma loop_returns_the_remaining_budget_witness :
  let env := Sim.env 0 10 3 false (Sim.make 7 9 1) (Sim.make 7 9 1) in
  _running Runs.started = true /\
  0 <= 100 <= Int.INT_MAX /\
  Int.wrap32 (millis_end env - millis_start env) <= 100 + 2 ^ 31 /\
  value (loop false env 100 Runs.started) = 90 /\
  0 <= value (loop false env 100 Runs.started) <= 100.
Proof.
  cbv zeta.
  assert (Hbudget : 0 <= 100 <= Int.INT_MAX) by (vm_compute; split; discriminate).
  assert (Helapsed : Int.wrap32 (10 - 0) <= 100 + 2 ^ 31) by (vm_compute; discriminate).
  pose proof (loop_returns_the_remaining_budget false
                (Sim.env 0 10 3 false (Sim.make 7 9 1) (Sim.make 7 9 1)) 100
                Runs.started eq_refl Hbudget) as [_ [_ Hres]].
  destruct (Hres Helapsed) as [Hval Hbounds].
  split; [reflexivity |]. split; [exact Hbudget |]. split; [exact Helapsed |].
  split; [exact Hval | exact Hbounds].
Defined.

(** C9 on [loop(1500)]. *)
Lemma select_timeout_witness :
  let env := Sim.env 0 10 3 false (Sim.make 7 9 1) (Sim.make 7 9 1) in
  _running Runs.started = true /\
  Int.INT_MIN <= 1500 <= Int.INT_MAX /\
  exists nfds rd ex st,
    In (EvSelect nfds rd ex 1 1499000, st) (events (loop false env 1500 Runs.started)) /\
    timeval_micros 1 1499000 > 1500 * 1000.
Proof.
  cbv zeta. split; [reflexivity |].
  assert (Hint : Int.INT_MIN <= 1500 <= Int.INT_MAX) by (vm_compute; split; congruence).
  split; [exact Hint |].
  destruct (select_timeout_is_budget_only_below_one_second false
              (Sim.env 0 10 3 false (Sim.make 7 9 1) (Sim.make 7 9 1)) 1500
              Runs.started eq_refl Hint) as [[nfds [rd [ex [st Hin]]]] [_ Hall]].
  exists nfds, rd, ex, st. split; [exact Hin |].
  destruct (Hall _ _ _ _ _ _ Hin) as [_ [_ [_ [_ [_ [_ [_ [Hlarge _]]]]]]]].
  apply Hlarge. vm_compute. split; congruence.
Defined.

(** C10 on a running server whose gate is raised and whose two occupants
    close at the first request. *)
Lemma stop_keeps_the_gate_witness :
  _running Runs.gate_raised = true /\
  _pendingConnection Runs.gate_raised = true /\
  exists bound s' l,
    (forall fuel, (bound < fuel)%nat -> stop fuel Runs.gate_raised = Some (s', l)) /\
    _pendingConnection s' = true /\
    _pendingQueue s' = Some 3 /\
    _pendingConnection (final (start (Sim.sockets_ok 4) s')) = true.
Proof.
  split; [reflexivity |]. split; [reflexivity |].
  destruct (stop_keeps_the_gate Runs.gate_raised) as [Hframe [Hreturns _]].
  destruct (Hreturns eq_refl) as [bound [s' [l [Hfuel [_ Hq]]]]].
  { intros j c Hj Hs. exists 1%nat.
    assert (Hcases : j = 0 \/ j = 1).
    { match type of Hj with _ <= _ < ?n => change n with 2 in Hj end. lia. }
    destruct Hcases as [-> | ->]; vm_compute in Hs; inversion Hs; reflexivity. }
  exists bound, s', l. split; [exact Hfuel |].
  destruct (Hframe (S bound) s' l (Hfuel (S bound) ltac:(lia))) as [_ [_ [_ [_ Hraised]]]].
  destruct (Hraised eq_refl) as [Hp Hstart].
  split; [exact Hp |]. split; [rewrite Hq; reflexivity | apply Hstart].
Defined.

(** C2 on the call that finds the gate raised, both connections of the
    two-slot pool terminated and the listener readable: both slots are
    free after step 1, and the call admits two connections. *)
Lemma both_admissions_witness :
  let env := Sim.env 0 10 3 true (Sim.make 10 9 1) (Sim.make 11 9 1) in
  _running Runs.gate_raised = true /\
  _pendingConnection Runs.gate_raised = true /\
  select_fails env = false /\
  select_readable env (_socket Runs.gate_raised) = true /\
  slot (final (loop_reclaim false Runs.gate_raised)) 0 = None /\
  slot (final (loop_reclaim false Runs.gate_raised)) 1 = None /\
  admissions (events (loop false env 100 Runs.gate_raised)) = 2%nat.
Proof.
  cbv zeta.
  assert (H0 : slot (final (loop_reclaim false Runs.gate_raised)) 0 = None)
    by (vm_compute; reflexivity).
  assert (H1 : slot (final (loop_reclaim false Runs.gate_raised)) 1 = None)
    by (vm_compute; reflexivity).
  split; [reflexivity |]. split; [reflexivity |]. split; [reflexivity |].
  split; [reflexivity |]. split; [exact H0 |]. split; [exact H1 |].
  destruct (loop_admits_at_most_one_on_each_side_of_the_poll false
              (Sim.env 0 10 3 true (Sim.make 10 9 1) (Sim.make 11 9 1)) 100
              Runs.gate_raised) as [_ [_ [_ [_ Hboth]]]].
  destruct (Hboth eq_refl eq_refl eq_refl eq_refl) as [Htwo _]; [| exact Htwo].
  exists 0, 1. split; [lia |]. split; [reflexivity |]. split; [exact H0 | exact H1].
Defined.

(** * Further properties *)

(** ** Step 1 of the accept loop, slot by slot *)

Section Reclaim.

Context {C : Type} `{HTTPConnection C}.

Variable tpc : bool.

Lemma FD_ISSET_In (fd : Z) (s : fd_set) : FD_ISSET fd s = true <-> In fd s.
Proof.
  unfold FD_ISSET. rewrite existsb_exists. split.
  - intros [x [Hin Heq]]. apply Z.eqb_eq in Heq. subst x. exact Hin.
  - intros Hin. exists fd. split; [exact Hin | apply Z.eqb_refl].
Qed.

Lemma FD_SET_In (x fd : Z) (s : fd_set) : In x (FD_SET fd s) <-> x = fd \/ In x s.
Proof.
  unfold FD_SET. destruct (FD_ISSET fd s) eqn:Hset.
  - apply FD_ISSET_In in Hset. split; [auto |]. intros [-> | Hin]; assumption.
  - simpl. split; intros [Heq | Hin]; auto.
Qed.

Lemma live_socket_skip (s : HTTPServer C) (k : Z) (fd : Z) :
  0 <= k -> reclaimed tpc (slot s k) = None ->
  live_socket s (k + 1) fd <-> live_socket s k fd.
Proof.
  intros Hk Hnone. split; intros [j [c [Hj [Hs [Hlive Hfd]]]]].
  - exists j, c. repeat split; try assumption; try lia.
    destruct (decide (j = k)) as [-> | Hne]; [| lia].
    rewrite Hs in Hnone. simpl in Hnone. rewrite Hlive in Hnone. discriminate.
  - exists j, c. repeat split; try assumption; lia.
Qed.

Lemma live_socket_new (s : HTTPServer C) (k : Z) (c : C) (fd : Z) :
  0 <= k -> slot s k = Some c -> isTerminated c = false ->
  live_socket s (k + 1) fd <-> fd = conn_socket c \/ live_socket s k fd.
Proof.
  intros Hk Hs Hlive. split.
  - intros [j [c' [Hj [Hs' [Hlive' Hfd]]]]].
    destruct (decide (j = k)) as [-> | Hne].
    + left. rewrite Hs in Hs'. inversion Hs'; subst. reflexivity.
    + right. exists j, c'. repeat split; try assumption; lia.
  - intros [-> | [j [c' [Hj [Hs' [Hlive' Hfd]]]]]].
    + exists k, c. repeat split; try assumption; lia.
    + exists j, c'. repeat split; try assumption; lia.
Qed.

Lemma loop_body_reclaims (s0 : HTTPServer C) (k : nat) (l : scan_locals) (s : HTTPServer C) :
  reclaim_inv tpc s0 k l s ->
  reclaim_inv tpc s0 (S k) (value (loop_body tpc (Z.of_nat k) l s))
    (final (loop_body tpc (Z.of_nat k) l s)).
Proof.
  intros [Hsame [Hrest [Hdone [Hexc [Hmax Hlow]]]]].
  pose proof (Hrest (Z.of_nat k) ltac:(lia)) as Hk.
  unfold reclaim_inv.
  replace (Z.of_nat (S k)) with (Z.of_nat k + 1) by lia.
  unfold value, final, loop_body, bind, get, ret, emit, set_slot, modify.
  destruct (slot s (Z.of_nat k)) as [c |] eqn:Hs; simpl.
  - destruct (isTerminated c) eqn:Hterm; simpl.
    + split; [eapply same_but_slots_trans; [exact Hsame | apply same_but_slots_put] |].
      split; [intros j Hj; rewrite slot_put_other by lia; apply Hrest; lia |].
      split; [| split; [| split; [exact Hmax | exact Hlow]]].
      * intros j Hj. destruct (decide (j = Z.of_nat k)) as [-> | Hne].
        -- rewrite slot_put_empty, <- Hk. simpl. rewrite Hterm. reflexivity.
        -- rewrite slot_put_other by lia. apply Hdone. lia.
      * intros fd. rewrite Hexc. symmetry. apply live_socket_skip; [lia |].
        rewrite <- Hk. simpl. rewrite Hterm. reflexivity.
    + assert (Hexc' : forall fd,
                In fd (FD_SET (conn_socket c) (except_fds l)) <->
                live_socket s0 (Z.of_nat k + 1) fd).
      { intros fd. rewrite FD_SET_In, Hexc. symmetry.
        apply live_socket_new; [lia | rewrite <- Hk; reflexivity | exact Hterm]. }
      assert (Hmax' : forall fd,
                In fd (FD_SET (conn_socket c) (except_fds l)) ->
                fd <= (if conn_socket c >? max_fd l then conn_socket c else max_fd l)).
      { intros fd Hin. apply FD_SET_In in Hin.
        destruct (conn_socket c >? max_fd l) eqn:Hgt.
        - apply Z.gtb_lt in Hgt. destruct Hin as [-> | Hin]; [lia |].
          specialize (Hmax fd Hin). lia.
        - rewrite Z.gtb_ltb in Hgt. apply Z.ltb_ge in Hgt.
          destruct Hin as [-> | Hin]; [lia | apply Hmax, Hin]. }
      assert (Hlow' : -1 <= (if conn_socket c >? max_fd l then conn_socket c else max_fd l)).
      { destruct (conn_socket c >? max_fd l) eqn:Hgt; [| exact Hlow].
        apply Z.gtb_lt in Hgt. lia. }
      destruct tpc eqn:Htpc; simpl.
      * split; [exact Hsame |]. split; [intros j Hj; apply Hrest; lia |].
        split; [| auto].
        intros j Hj. destruct (decide (j = Z.of_nat k)) as [-> | Hne].
        -- rewrite Hs, <- Hk. simpl. rewrite Hterm. reflexivity.
        -- apply Hdone. lia.
      * split; [eapply same_but_slots_trans; [exact Hsame | apply same_but_slots_put] |].
        split; [intros j Hj; rewrite slot_put_other by lia; apply Hrest; lia |].
        split; [| auto].
        intros j Hj. destruct (decide (j = Z.of_nat k)) as [-> | Hne].
        -- rewrite (slot_put_same _ c) by exact Hs. rewrite <- Hk. simpl.
           rewrite Hterm. reflexivity.
        -- rewrite slot_put_other by lia. apply Hdone. lia.
  - split; [exact Hsame |]. split; [intros j Hj; apply Hrest; lia |].
    split; [| split; [| split; [exact Hmax | exact Hlow]]].
    + intros j Hj. destruct (decide (j = Z.of_nat k)) as [-> | Hne].
      * rewrite Hs, <- Hk. reflexivity.
      * apply Hdone. lia.
    + intros fd. rewrite Hexc. symmetry. apply live_socket_skip; [lia |].
      rewrite <- Hk. reflexivity.
Qed.

(** Step 1, summarised slot by slot and descriptor by descriptor. *)
Lemma reclaim_slots (s : HTTPServer C) :
  (forall j, 0 <= j < _maxConnections s ->
     slot (final (loop_reclaim tpc s)) j = reclaimed tpc (slot s j)) /\
  (forall fd, In fd (except_fds (value (loop_reclaim tpc s))) <->
              live_socket s (_maxConnections s) fd) /\
  (forall fd, In fd (except_fds (value (loop_reclaim tpc s))) ->
              fd <= max_fd (value (loop_reclaim tpc s))) /\
  -1 <= max_fd (value (loop_reclaim tpc s)).
Proof.
  unfold loop_reclaim.
  rewrite value_bind, final_bind.
  rewrite ?value_get, ?final_get.
  pose proof (for_each_range_inv (loop_body tpc) (reclaim_inv tpc s) (fun _ => True)
                (_maxConnections s)) as Hloop.
  lapply Hloop; [clear Hloop; intros Hloop |].
  2: { intros k a s' _ Hinv. split; [apply loop_body_reclaims, Hinv |].
       apply Forall_forall. auto. }
  destruct (Hloop {| freeConnectionIdx := -1; max_fd := -1; except_fds := FD_ZERO |} s)
    as [[_ [_ [Hdone [Hexc [Hmax Hlow]]]]] _].
  { split; [apply same_but_slots_refl |]. split; [reflexivity |].
    split; [intros; lia |]. split; [| split; [intros fd [] | simpl; lia]].
    intros fd. simpl. split; [intros [] |].
    intros [j [c [Hj _]]]. lia. }
  split; [intros j Hj; apply Hdone; lia |].
  split; [| auto].
  intros fd. rewrite Hexc. split; intros [j [c [Hj Hrest]]]; exists j, c; split; auto; lia.
Qed.

End Reclaim.

(** ** What a call of the accept loop does to each slot *)

Section SlotsAcrossLoop.

Context {C : Type} `{HTTPConnection C}.

Variable tpc : bool.

(** An admission into a free slot of the pool leaves every other slot as
    it was. *)
Lemma startConnection_other_slots (adm : Admission C) (idx j : Z) (s : HTTPServer C) :
  0 <= idx -> 0 <= j -> slot s idx = None ->
  slot (final (startConnection tpc adm idx s)) j = slot s j \/
  (j = idx /\ slot s j = None /\
   In (EvStartConnection j, s) (events (startConnection tpc adm idx s))).
Proof.
  intros Hidx Hj Hfree.
  destruct (startConnection_summary tpc adm idx s) as [_ [[tl [Htl _]] Hother]].
  destruct (decide (j = idx)) as [-> | Hne].
  - right. split; [reflexivity |]. split; [exact Hfree |]. rewrite Htl. left. reflexivity.
  - left. apply Hother. lia.
Qed.

Lemma admit_pending_slots (env : LoopEnv C) (f j : Z) (s : HTTPServer C) :
  highest_free s f -> 0 <= j ->
  slot (final (loop_admit_pending tpc env f s)) j = slot s j \/
  (slot s j = None /\
   In (EvStartConnection j, s) (events (loop_admit_pending tpc env f s))).
Proof.
  intros Hhf Hj.
  destruct (admit_pending_summary tpc env f s Hhf)
    as [_ [[_ [Hf [Hfin Hev]]] | [_ [_ [Hfin _]]]]]; rewrite Hfin; [| left; reflexivity].
  rewrite Hev.
  assert (Hfree : slot s f = None).
  { destruct Hhf as [[Hneg _] | [_ [Hfree _]]]; [lia | exact Hfree]. }
  destruct (startConnection_other_slots (adm_pending env) f j s ltac:(lia) Hj Hfree)
    as [Hsame | [_ [Hnone Hin]]]; auto.
Qed.

Lemma accept_slots (env : LoopEnv C) (f nfds j : Z) (rd : fd_set) (s : HTTPServer C) :
  highest_free s f -> 0 <= j ->
  slot (final (loop_accept tpc env f nfds rd s)) j = slot s j \/
  (slot s j = None /\
   In (EvStartConnection j, s) (events (loop_accept tpc env f nfds rd s))).
Proof.
  intros Hhf Hj.
  destruct (accept_summary tpc env f nfds rd s)
    as [[_ [Hf [Hfin Hev]]] | [[_ [_ [_ [Hfin _]]]] | [Hfin _]]]; rewrite Hfin.
  - rewrite Hev.
    assert (Hfree : slot s f = None).
    { destruct Hhf as [[Hneg _] | [_ [Hfree _]]]; [lia | exact Hfree]. }
    destruct (startConnection_other_slots (adm_new env) f j s ltac:(lia) Hj Hfree)
      as [Hsame | [_ [Hnone Hin]]]; auto.
  - left. unfold xQueueSend, final, bind, emit, modify, slot. simpl.
    destruct (_pendingQueue s); reflexivity.
  - left. reflexivity.
Qed.

(** What a running [loop] leaves in a slot of the pool: what step 1 made
    of it, unless the slot was free after step 1 and a connection was
    admitted into it during this call. *)
Lemma loop_slots (env : LoopEnv C) (timeoutMs : Z) (s : HTTPServer C) (j : Z) :
  _running s = true -> 0 <= j < _maxConnections s ->
  slot (final (loop tpc env timeoutMs s)) j = reclaimed tpc (slot s j) \/
  (reclaimed tpc (slot s j) = None /\
   exists st, In (EvStartConnection j, st) (events (loop tpc env timeoutMs s))).
Proof.
  intros Hrun Hj.
  destruct (loop_running tpc env timeoutMs s Hrun) as [_ [Hfin Hev]].
  rewrite Hfin, Hev. clear Hfin Hev.
  destruct (reclaim_summary tpc s) as [Hhf1 _].
  destruct (reclaim_slots tpc s) as [Hslots _].
  specialize (Hslots j Hj).
  set (r1 := loop_reclaim tpc s) in *.
  destruct (admit_pending_summary tpc env (freeConnectionIdx (value r1)) (final r1) Hhf1)
    as [Hhf2 _].
  pose proof (admit_pending_slots env (freeConnectionIdx (value r1)) j (final r1) Hhf1
                ltac:(lia)) as Hstep2.
  set (r2 := loop_admit_pending tpc env (freeConnectionIdx (value r1)) (final r1)) in *.
  destruct (poll_summary env timeoutMs (value r1) (final r2)) as [Hfin3 _].
  set (r3 := loop_poll env timeoutMs (value r1) (final r2)) in *.
  rewrite Hfin3.
  pose proof (accept_slots env (value r2) (fst (value r3)) j (snd (value r3)) (final r2)
                Hhf2 ltac:(lia)) as Hstep4.
  set (r4 := loop_accept tpc env (value r2) (fst (value r3)) (snd (value r3)) (final r2)) in *.
  destruct Hstep4 as [Hsame4 | [Hnone4 Hin4]].
  - rewrite Hsame4. destruct Hstep2 as [Hsame2 | [Hnone2 Hin2]].
    + left. rewrite Hsame2. exact Hslots.
    + right. split; [rewrite <- Hslots; exact Hnone2 |].
      eexists. rewrite !in_app_iff. right. left. exact Hin2.
  - right. split.
    + destruct Hstep2 as [Hsame2 | [Hnone2 _]]; rewrite <- Hslots; congruence.
    + eexists. rewrite !in_app_iff. right. right. right. exact Hin4.
Qed.

End SlotsAcrossLoop.

Section ReclaimProperties.

Context {C : Type} `{HTTPConnection C}.


(** X1: step 1 of [loop] settles every slot of the pool on its own: an
    empty slot stays empty, a connection that reports terminated is
    deleted and its slot emptied, and a connection that does not is kept
    in its slot, untouched in the worker configuration and after exactly
    one call of its [loop] in the cooperative one. *)
Theorem reclaim_frees_exactly_the_terminated (tpc : bool) (s : HTTPServer C) (j : Z) :
  0 <= j < _maxConnections s ->
  (slot s j = None -> slot (final (loop_reclaim tpc s)) j = None) /\
  (forall c, slot s j = Some c -> isTerminated c = true ->
     slot (final (loop_reclaim tpc s)) j = None) /\
  (forall c, slot s j = Some c -> isTerminated c = false ->
     slot (final (loop_reclaim tpc s)) j = Some (if tpc then c else conn_loop c)).
Proof.
  intros Hj. destruct (reclaim_slots tpc s) as [Hslots _].
  rewrite (Hslots j Hj). split; [| split].
  - intros ->. reflexivity.
  - intros c -> Hterm. simpl. rewrite Hterm. reflexivity.
  - intros c -> Hterm. simpl. rewrite Hterm. reflexivity.
Qed.



(** X3: a running [loop] never evicts a live connection: a connection
    that does not report terminated when [loop] visits it is in the same
    slot on return, untouched in the worker configuration and after
    exactly one call of its [loop] in the cooperative one.  A slot that
    was empty or held a terminated connection is empty on return unless
    a connection was admitted into it during this call. *)
Theorem loop_keeps_live_connections
    (tpc : bool) (env : LoopEnv C) (timeoutMs : Z) (s : HTTPServer C) (j : Z) :
  _running s = true -> 0 <= j < _maxConnections s ->
  (forall c, slot s j = Some c -> isTerminated c = false ->
     slot (final (loop tpc env timeoutMs s)) j = Some (if tpc then c else conn_loop c)) /\
  ((slot s j = None \/ exists c, slot s j = Some c /\ isTerminated c = true) ->
   slot (final (loop tpc env timeoutMs s)) j = None \/
   exists st, In (EvStartConnection j, st) (events (loop tpc env timeoutMs s))).
Proof.
  intros Hrun Hj. pose proof (loop_slots tpc env timeoutMs s j Hrun Hj) as Hcases.
  split.
  - intros c Hs Hterm. rewrite Hs in Hcases. simpl in Hcases. rewrite Hterm in Hcases.
    destruct Hcases as [Hsame | [Hnone _]]; [exact Hsame | discriminate].
  - intros Hwas.
    assert (Hnone : reclaimed tpc (slot s j) = None).
    { destruct Hwas as [-> | [c [-> Hterm]]]; simpl; [| rewrite Hterm]; reflexivity. }
    rewrite Hnone in Hcases. destruct Hcases as [Hsame | [_ Hin]]; auto.
Qed.

End ReclaimProperties.

(** X3 on a call of [loop] that finds two live connections and a quiet
    listener. *)
Lemma loop_keeps_live_connections_witness :
  let env := Sim.env 0 10 3 false (Sim.make 9 9 1) (Sim.make 9 9 1) in
  _running Runs.after_second = true /\ 0 <= 0 < _maxConnections Runs.after_second /\
  exists c, slot Runs.after_second 0 = Some c /\ isTerminated c = false /\
            slot (final (loop false env 100 Runs.after_second)) 0 = Some (conn_loop c).
Proof.
  cbv zeta. split; [reflexivity |].
  assert (Hrange : 0 <= 0 < _maxConnections Runs.after_second) by (vm_compute; split; congruence).
  split; [exact Hrange |].
  destruct (slot Runs.after_second 0) as [c |] eqn:Hs; [| vm_compute in Hs; discriminate].
  exists c. split; [reflexivity |].
  assert (Hlive : isTerminated c = false) by (vm_compute in Hs; inversion Hs; reflexivity).
  split; [exact Hlive |].
  destruct (loop_keeps_live_connections false
              (Sim.env 0 10 3 false (Sim.make 9 9 1) (Sim.make 9 9 1)) 100
              Runs.after_second 0 eq_refl Hrange) as [Hkeep _].
  exact (Hkeep c Hs Hlive).
Defined.

(** X1 on slot 1 of the two-slot pool with two live connections. *)
Lemma reclaim_frees_exactly_the_terminated_witness :
  0 <= 1 < _maxConnections Runs.after_second /\
  exists c, slot Runs.after_second 1 = Some c /\ isTerminated c = false /\
            slot (final (loop_reclaim false Runs.after_second)) 1 = Some (conn_loop c).
Proof.
  assert (Hrange : 0 <= 1 < _maxConnections Runs.after_second) by (vm_compute; split; congruence).
  split; [exact Hrange |].
  destruct (slot Runs.after_second 1) as [c |] eqn:Hs; [| vm_compute in Hs; discriminate].
  exists c. split; [reflexivity |].
  assert (Hlive : isTerminated c = false) by (vm_compute in Hs; inversion Hs; reflexivity).
  split; [exact Hlive |].
  destruct (reclaim_frees_exactly_the_terminated false Runs.after_second 1 Hrange)
    as [_ [_ Hkeep]].
  exact (Hkeep c Hs Hlive).
Defined.

(** ** The poll and what follows it, case by case *)

Section AfterThePoll.

Context {C : Type} `{HTTPConnection C}.

Variable tpc : bool.

(** The sets [loop] hands to [select]. *)
Lemma poll_event (env : LoopEnv C) (timeoutMs : Z) (l : scan_locals) (s : HTTPServer C) :
  events (loop_poll env timeoutMs l s) =
  [(EvSelect
      ((if negb (_pendingConnection s) && (_socket s >? max_fd l)
        then _socket s else max_fd l) + 1)
      (if negb (_pendingConnection s) then [_socket s] else [])
      (except_fds l)
      (Z.quot timeoutMs 1000)
      (Int.long32 ((timeoutMs - Z.quot timeoutMs 1000) * 1000)), s)].
Proof.
  unfold loop_poll, select, events, bind, get, ret, emit. simpl.
  destruct (select_fails env); simpl.
  - destruct (_pendingConnection s); reflexivity.
  - destruct (_pendingConnection s); reflexivity.
Qed.

Lemma accept_raises (env : LoopEnv C) (f nfds : Z) (rd : fd_set) (s : HTTPServer C) :
  (nfds >? 0) && FD_ISSET (_socket s) rd = true -> f <= -1 ->
  _pendingConnection s = false ->
  final (loop_accept tpc env f nfds rd s) =
    with_pendingQueue
      (match _pendingQueue s with None => Some (_socket s) | Some item => Some item end)
      (with_pendingConnection true s) /\
  events (loop_accept tpc env f nfds rd s) =
    [(EvNotifyPending, s); (EvQueueSend (_socket s), with_pendingConnection true s)].
Proof.
  intros Hcond Hf Hp. unfold loop_accept.
  rewrite final_bind, events_bind, ?value_get, ?final_get, ?events_get, ?app_nil_l.
  rewrite Hcond.
  assert (Hgt : (f >? -1) = false) by (rewrite Z.gtb_ltb; apply Z.ltb_ge; lia).
  rewrite Hgt, Hp. simpl.
  unfold xQueueSend, final, events, bind, emit, modify. simpl.
  destruct (_pendingQueue s) eqn:Hq; simpl; [| auto].
  split; [| reflexivity]. destruct s; simpl in *. subst. reflexivity.
Qed.

Lemma accept_idle (env : LoopEnv C) (f nfds : Z) (rd : fd_set) (s : HTTPServer C) :
  (nfds >? 0) && FD_ISSET (_socket s) rd = false ->
  final (loop_accept tpc env f nfds rd s) = s /\
  events (loop_accept tpc env f nfds rd s) = [].
Proof.
  intros Hcond. unfold loop_accept.
  rewrite final_bind, events_bind, ?value_get, ?final_get, ?events_get, ?app_nil_l.
  rewrite Hcond. auto.
Qed.

(** The free index step 1 retains, in terms of the state [loop] was
    called in: the highest index that is free or holds a terminated
    connection. *)
Lemma reclaim_index (s : HTTPServer C) :
  let f := freeConnectionIdx (value (loop_reclaim tpc s)) in
  (reclaimable tpc s ->
   0 <= f < _maxConnections s /\ reclaimed tpc (slot s f) = None /\
   slot (final (loop_reclaim tpc s)) f = None /\
   forall j, f < j < _maxConnections s -> reclaimed tpc (slot s j) <> None) /\
  (pool_full tpc s -> f = -1).
Proof.
  intros f. destruct (reclaim_summary tpc s) as [Hhf [Hsame _]].
  destruct (reclaim_slots tpc s) as [Hslots _]. fold f in Hhf.
  unfold highest_free in Hhf. rewrite (same_but_slots_maxConnections _ _ Hsame) in Hhf.
  split.
  - intros [j [Hj Hnone]].
    destruct Hhf as [[_ Hall] | [Hf [Hfree Habove]]].
    + exfalso. apply (Hall j Hj). rewrite (Hslots j Hj). exact Hnone.
    + split; [exact Hf |]. split; [rewrite <- (Hslots f Hf); exact Hfree |].
      split; [exact Hfree |].
      intros i Hi. rewrite <- (Hslots i) by lia. apply Habove. exact Hi.
  - intros Hfull. destruct Hhf as [[Hneg _] | [Hf [Hfree _]]]; [exact Hneg |].
    exfalso. apply (Hfull f Hf). rewrite <- (Hslots f Hf). exact Hfree.
Qed.

End AfterThePoll.

(** ** The four outcomes of a call of the accept loop *)

Section Outcomes.

Context {C : Type} `{HTTPConnection C}.

Variable tpc : bool.

(** X4: a deferred admission is served as soon as a slot can be had.  A
    running [loop] entered with the gate raised, in a pool where some
    slot is free or holds a terminated connection, admits the pending
    connection right after step 1 and before the poll, into the highest
    such slot. *)
Theorem pending_connection_is_admitted_when_a_slot_frees
    (env : LoopEnv C) (timeoutMs : Z) (s : HTTPServer C) :
  _running s = true -> _pendingConnection s = true -> reclaimable tpc s ->
  let f := freeConnectionIdx (value (loop_reclaim tpc s)) in
  0 <= f < _maxConnections s /\
  reclaimed tpc (slot s f) = None /\
  (forall j, f < j < _maxConnections s -> reclaimed tpc (slot s j) <> None) /\
  exists after,
    events (loop tpc env timeoutMs s) =
      events (loop_reclaim tpc s) ++
      (EvStartConnection f, final (loop_reclaim tpc s)) :: after.
Proof.
  intros Hrun Hp Hrec f.
  destruct (proj1 (reclaim_index tpc s) Hrec) as [Hf [Hnone [_ Habove]]]. fold f in Hf, Hnone, Habove.
  split; [exact Hf |]. split; [exact Hnone |]. split; [exact Habove |].
  destruct (loop_running tpc env timeoutMs s Hrun) as [_ [_ Hev]].
  rewrite Hev. clear Hev.
  destruct (reclaim_summary tpc s) as [Hhf1 [Hsame1 _]].
  set (r1 := loop_reclaim tpc s) in *.
  destruct (admit_pending_summary tpc env (freeConnectionIdx (value r1)) (final r1) Hhf1)
    as [_ [[_ [_ [_ Hev2]]] | [Hcond _]]].
  - rewrite Hev2.
    destruct (startConnection_summary tpc (adm_pending env)
                (freeConnectionIdx (value r1)) (final r1)) as [_ [[tl [Htl _]] _]].
    rewrite Htl. eexists. simpl. reflexivity.
  - exfalso. rewrite (same_but_slots_pending _ _ Hsame1), Hp in Hcond.
    simpl in Hcond. rewrite Z.gtb_ltb in Hcond. apply Z.ltb_ge in Hcond.
    fold f in Hcond. lia.
Qed.

(** The state a call leaves when step 2 does nothing. *)
Lemma loop_without_pending_admission (env : LoopEnv C) (timeoutMs : Z) (s : HTTPServer C) :
  _running s = true ->
  _pendingConnection s && (freeConnectionIdx (value (loop_reclaim tpc s)) >? -1) = false ->
  let r1 := loop_reclaim tpc s in
  let r3 := loop_poll env timeoutMs (value r1) (final r1) in
  let r4 := loop_accept tpc env (freeConnectionIdx (value r1))
              (fst (value r3)) (snd (value r3)) (final r1) in
  final (loop tpc env timeoutMs s) = final r4 /\
  events (loop tpc env timeoutMs s) = events r1 ++ events r3 ++ events r4.
Proof.
  intros Hrun Hcond r1 r3 r4.
  destruct (loop_running tpc env timeoutMs s Hrun) as [_ [Hfin Hev]].
  rewrite Hfin, Hev. clear Hfin Hev.
  destruct (reclaim_summary tpc s) as [Hhf1 [Hsame1 _]]. fold r1 in Hhf1, Hsame1.
  destruct (admit_pending_summary tpc env (freeConnectionIdx (value r1)) (final r1) Hhf1)
    as [_ [[Hp [Hf _]] | [_ [Hval [Hfin2 Hev2]]]]].
  - exfalso. rewrite (same_but_slots_pending _ _ Hsame1) in Hp.
    fold r1 in Hcond. rewrite Hp in Hcond. simpl in Hcond.
    rewrite Z.gtb_ltb in Hcond. apply Z.ltb_ge in Hcond. lia.
  - fold r1. rewrite Hval, Hfin2, Hev2.
    destruct (poll_summary env timeoutMs (value r1) (final r1)) as [Hfin3 _].
    fold r3 in Hfin3. fold r3. rewrite Hfin3. fold r4. auto.
Qed.

(** X5: a call that can admit nothing changes only what step 1
    changes.  A running [loop] that is entered either with the gate
    raised and every slot holding a live connection, or with the gate
    down and a [select] that fails or does not report the listener,
    calls [startConnection] not at all, does not raise the gate, leaves
    flag and queue as they were, and leaves in every slot what step 1
    made of it.  (With the gate raised and a slot to be had the pending
    connection is admitted whatever [select] answers, so that case is
    not among these.) *)
Theorem idle_call_changes_only_what_step_one_changes
    (env : LoopEnv C) (timeoutMs : Z) (s : HTTPServer C) :
  _running s = true ->
  (_pendingConnection s = true /\ pool_full tpc s) \/
  (_pendingConnection s = false /\
   (select_fails env = true \/ select_readable env (_socket s) = false)) ->
  admissions (events (loop tpc env timeoutMs s)) = 0%nat /\
  raises (events (loop tpc env timeoutMs s)) = 0%nat /\
  _pendingConnection (final (loop tpc env timeoutMs s)) = _pendingConnection s /\
  _pendingQueue (final (loop tpc env timeoutMs s)) = _pendingQueue s /\
  (forall j, 0 <= j < _maxConnections s ->
     slot (final (loop tpc env timeoutMs s)) j = reclaimed tpc (slot s j)).
Proof.
  intros Hrun Hcase.
  assert (Hfull : _pendingConnection s = true -> pool_full tpc s).
  { intros Hp. destruct Hcase as [[_ Hfull] | [Hdown _]]; [exact Hfull | congruence]. }
  assert (Hquiet : _pendingConnection s = true \/ select_fails env = true \/
                   select_readable env (_socket s) = false).
  { destruct Hcase as [[Hp _] | [_ Hselect]]; [left; exact Hp | right; exact Hselect]. }
  clear Hcase.
  destruct (reclaim_summary tpc s) as [_ [Hsame1 Hev1]].
  destruct (reclaim_slots tpc s) as [Hslots _].
  assert (Hcond : _pendingConnection s &&
                  (freeConnectionIdx (value (loop_reclaim tpc s)) >? -1) = false).
  { destruct (_pendingConnection s) eqn:Hp; [| reflexivity]. simpl.
    rewrite (proj2 (reclaim_index tpc s) (Hfull eq_refl)). reflexivity. }
  destruct (loop_without_pending_admission env timeoutMs s Hrun Hcond) as [Hfin Hev].
  rewrite Hfin, Hev. clear Hfin Hev.
  set (r1 := loop_reclaim tpc s) in *.
  pose proof (poll_reports_listener env timeoutMs (value r1) (final r1)) as Hpoll.
  pose proof (poll_event env timeoutMs (value r1) (final r1)) as Hev3.
  set (r3 := loop_poll env timeoutMs (value r1) (final r1)) in *.
  assert (Hno : (fst (value r3) >? 0) && FD_ISSET (_socket (final r1)) (snd (value r3)) = false).
  { rewrite Hpoll.
    rewrite (same_but_slots_pending _ _ Hsame1), (same_but_slots_socket _ _ Hsame1).
    destruct Hquiet as [-> | [-> | ->]]; simpl; rewrite ?andb_false_r; reflexivity. }
  destruct (accept_idle tpc env (freeConnectionIdx (value r1)) _ _ _ Hno) as [Hfin4 Hev4].
  rewrite Hfin4, Hev4, Hev3, app_nil_r.
  rewrite admissions_app, raises_app.
  rewrite (admissions_none (events r1)), (raises_none (events r1)).
  - repeat split; try reflexivity.
    + rewrite Hsame1. reflexivity.
    + rewrite Hsame1. reflexivity.
    + exact Hslots.
  - eapply Forall_impl; [exact Hev1 |]. intros es [_ [Hne _]]. apply not_raise, Hne.
  - eapply Forall_impl; [exact Hev1 |]. intros es [Hadm _]. exact Hadm.
Qed.

(** X6: when the pool is full the connection is deferred, not accepted.
    A running [loop] entered with the gate down, in a pool where every
    slot holds a live connection, whose [select] reports the listener,
    admits nothing, raises the gate once, leaves the listener socket in
    the queue (unless the queue already held an item, which stays), and
    leaves in every slot what step 1 made of it. *)
Theorem full_pool_defers_the_new_connection
    (env : LoopEnv C) (timeoutMs : Z) (s : HTTPServer C) :
  _running s = true -> _pendingConnection s = false -> pool_full tpc s ->
  select_fails env = false -> select_readable env (_socket s) = true ->
  admissions (events (loop tpc env timeoutMs s)) = 0%nat /\
  raises (events (loop tpc env timeoutMs s)) = 1%nat /\
  _pendingConnection (final (loop tpc env timeoutMs s)) = true /\
  _pendingQueue (final (loop tpc env timeoutMs s)) =
    match _pendingQueue s with None => Some (_socket s) | Some item => Some item end /\
  (forall j, 0 <= j < _maxConnections s ->
     slot (final (loop tpc env timeoutMs s)) j = reclaimed tpc (slot s j) /\
     slot (final (loop tpc env timeoutMs s)) j <> None).
Proof.
  intros Hrun Hp Hfull Hok Hready.
  destruct (reclaim_summary tpc s) as [_ [Hsame1 Hev1]].
  destruct (reclaim_slots tpc s) as [Hslots _].
  pose proof (proj2 (reclaim_index tpc s) Hfull) as Hf.
  assert (Hcond : _pendingConnection s &&
                  (freeConnectionIdx (value (loop_reclaim tpc s)) >? -1) = false)
    by (rewrite Hp; reflexivity).
  destruct (loop_without_pending_admission env timeoutMs s Hrun Hcond) as [Hfin Hev].
  rewrite Hfin, Hev. clear Hfin Hev.
  set (r1 := loop_reclaim tpc s) in *.
  pose proof (poll_reports_listener env timeoutMs (value r1) (final r1)) as Hpoll.
  pose proof (poll_event env timeoutMs (value r1) (final r1)) as Hev3.
  set (r3 := loop_poll env timeoutMs (value r1) (final r1)) in *.
  pose proof (same_but_slots_pending _ _ Hsame1) as Hp1.
  pose proof (same_but_slots_socket _ _ Hsame1) as Hsock1.
  rewrite Hp1, Hsock1, Hp, Hok, Hready in Hpoll. simpl in Hpoll.
  rewrite <- Hsock1 in Hpoll.
  destruct (accept_raises tpc env (freeConnectionIdx (value r1)) _ _ _ Hpoll
              ltac:(lia) ltac:(congruence)) as [Hfin4 Hev4].
  rewrite Hfin4, Hev4, Hev3.
  rewrite !admissions_app, !raises_app.
  rewrite (admissions_none (events r1)), (raises_none (events r1)).
  - split; [reflexivity |]. split; [reflexivity |]. split; [reflexivity |].
    split; [simpl; rewrite Hsame1; reflexivity |].
    intros j Hj. change (slot (with_pendingQueue _ (with_pendingConnection true (final r1))) j)
      with (slot (final r1) j).
    split; [exact (Hslots j Hj) |]. rewrite (Hslots j Hj). exact (Hfull j Hj).
  - eapply Forall_impl; [exact Hev1 |]. intros es [_ [Hne _]]. apply not_raise, Hne.
  - eapply Forall_impl; [exact Hev1 |]. intros es [Hadm _]. exact Hadm.
Qed.

(** X7: with room in the pool the new connection is admitted at once.  A
    running [loop] entered with the gate down, in a pool where some slot
    is free or holds a terminated connection, whose [select] reports the
    listener, calls [startConnection] exactly once, right after the
    poll, for the highest such slot, and leaves the gate down and the
    queue empty. *)
Theorem free_slot_admits_the_new_connection_at_once
    (env : LoopEnv C) (timeoutMs : Z) (s : HTTPServer C) :
  _running s = true -> _pendingConnection s = false -> reclaimable tpc s ->
  select_fails env = false -> select_readable env (_socket s) = true ->
  let f := freeConnectionIdx (value (loop_reclaim tpc s)) in
  0 <= f < _maxConnections s /\
  reclaimed tpc (slot s f) = None /\
  (forall j, f < j < _maxConnections s -> reclaimed tpc (slot s j) <> None) /\
  admissions (events (loop tpc env timeoutMs s)) = 1%nat /\
  raises (events (loop tpc env timeoutMs s)) = 0%nat /\
  _pendingConnection (final (loop tpc env timeoutMs s)) = false /\
  _pendingQueue (final (loop tpc env timeoutMs s)) = None /\
  exists poll after,
    is_poll (fst poll) = true /\
    events (loop tpc env timeoutMs s) =
      events (loop_reclaim tpc s) ++
      poll :: (EvStartConnection f, final (loop_reclaim tpc s)) :: after.
Proof.
  intros Hrun Hp Hrec Hok Hready f.
  destruct (proj1 (reclaim_index tpc s) Hrec) as [Hf [Hnone [_ Habove]]].
  fold f in Hf, Hnone, Habove.
  split; [exact Hf |]. split; [exact Hnone |]. split; [exact Habove |].
  destruct (reclaim_summary tpc s) as [_ [Hsame1 Hev1]].
  assert (Hcond : _pendingConnection s &&
                  (freeConnectionIdx (value (loop_reclaim tpc s)) >? -1) = false)
    by (rewrite Hp; reflexivity).
  destruct (loop_without_pending_admission env timeoutMs s Hrun Hcond) as [Hfin Hev].
  rewrite Hfin, Hev. clear Hfin Hev.
  set (r1 := loop_reclaim tpc s) in *.
  pose proof (poll_reports_listener env timeoutMs (value r1) (final r1)) as Hpoll.
  pose proof (poll_event env timeoutMs (value r1) (final r1)) as Hev3.
  set (r3 := loop_poll env timeoutMs (value r1) (final r1)) in *.
  pose proof (same_but_slots_pending _ _ Hsame1) as Hp1.
  pose proof (same_but_slots_socket _ _ Hsame1) as Hsock1.
  rewrite Hp1, Hsock1, Hp, Hok, Hready in Hpoll. simpl in Hpoll.
  rewrite <- Hsock1 in Hpoll.
  destruct (accept_admits tpc env f _ _ _ Hpoll ltac:(lia)) as [Hfin4 Hev4].
  fold f. rewrite Hfin4, Hev4, Hev3.
  destruct (startConnection_summary tpc (adm_new env) f (final r1))
    as [Hsame4 [[tl [Htl Hall]] _]].
  rewrite !admissions_app, !raises_app.
  rewrite (admissions_none (events r1)), (raises_none (events r1)).
  - rewrite Htl.
    assert (Htl_adm : admissions tl = 0%nat).
    { apply admissions_none. eapply Forall_impl; [exact Hall |].
      intros es [Hadm _]. exact Hadm. }
    assert (Htl_raise : raises tl = 0%nat).
    { apply raises_none. eapply Forall_impl; [exact Hall |].
      intros es [_ [Hne _]]. apply not_raise, Hne. }
    change ((EvStartConnection f, final r1) :: tl)
      with ([(EvStartConnection f, final r1)] ++ tl).
    rewrite !admissions_app, !raises_app, Htl_adm, Htl_raise.
    split; [reflexivity |]. split; [reflexivity |].
    split; [rewrite Hsame4; reflexivity |]. split; [rewrite Hsame4; reflexivity |].
    eexists _, tl. split; [| simpl; reflexivity]. reflexivity.
  - eapply Forall_impl; [exact Hev1 |]. intros es [_ [Hne _]]. apply not_raise, Hne.
  - eapply Forall_impl; [exact Hev1 |]. intros es [Hadm _]. exact Hadm.
Qed.

End Outcomes.

(** The two-slot pool after two admissions is full, and the same pool
    once both connections have terminated is not. *)
Lemma after_second_is_full : pool_full false Runs.after_second.
Proof.
  intros j Hj.
  assert (Hcases : j = 0 \/ j = 1).
  { match type of Hj with _ <= _ < ?n => change n with 2 in Hj end. lia. }
  destruct Hcases as [-> | ->]; vm_compute; discriminate.
Qed.

Lemma gate_raised_is_reclaimable : reclaimable false Runs.gate_raised.
Proof. exists 1. split; [vm_compute; split; congruence | vm_compute; reflexivity]. Qed.

Lemma started_is_reclaimable : reclaimable false Runs.started.
Proof. exists 1. split; [vm_compute; split; congruence | vm_compute; reflexivity]. Qed.

(** X4 on the call that finds the gate raised and both connections
    terminated. *)
Lemma pending_connection_is_admitted_witness :
  let env := Sim.env 0 10 3 false (Sim.make 10 9 1) (Sim.make 11 9 1) in
  _running Runs.gate_raised = true /\ _pendingConnection Runs.gate_raised = true /\
  reclaimable false Runs.gate_raised /\
  exists after,
    events (loop false env 100 Runs.gate_raised) =
      events (loop_reclaim false Runs.gate_raised) ++
      (EvStartConnection 1, final (loop_reclaim false Runs.gate_raised)) :: after.
Proof.
  cbv zeta. split; [reflexivity |]. split; [reflexivity |].
  split; [exact gate_raised_is_reclaimable |].
  destruct (pending_connection_is_admitted_when_a_slot_frees false
              (Sim.env 0 10 3 false (Sim.make 10 9 1) (Sim.make 11 9 1)) 100
              Runs.gate_raised eq_refl eq_refl gate_raised_is_reclaimable)
    as [_ [_ [_ Hev]]].
  exact Hev.
Defined.

(** X5 on a call that finds a full pool and a quiet listener. *)
Lemma idle_call_witness :
  let env := Sim.env 0 10 3 false (Sim.make 9 9 1) (Sim.make 9 9 1) in
  _running Runs.after_second = true /\
  _pendingConnection Runs.after_second = false /\
  select_readable env (_socket Runs.after_second) = false /\
  admissions (events (loop false env 100 Runs.after_second)) = 0%nat /\
  raises (events (loop false env 100 Runs.after_second)) = 0%nat /\
  _pendingConnection (final (loop false env 100 Runs.after_second)) = false.
Proof.
  cbv zeta. split; [reflexivity |]. split; [reflexivity |]. split; [reflexivity |].
  destruct (idle_call_changes_only_what_step_one_changes false
              (Sim.env 0 10 3 false (Sim.make 9 9 1) (Sim.make 9 9 1)) 100
              Runs.after_second eq_refl)
    as [Hadm [Hraise [Hp _]]].
  - right. split; [reflexivity |]. right. reflexivity.
  - split; [exact Hadm |]. split; [exact Hraise |]. rewrite Hp. reflexivity.
Defined.

(** X6 on the call that finds a full pool and a readable listener. *)
Lemma full_pool_defers_witness :
  let env := Sim.env 0 10 3 true (Sim.make 9 9 1) (Sim.make 9 9 1) in
  _running Runs.after_second = true /\ _pendingConnection Runs.after_second = false /\
  pool_full false Runs.after_second /\
  select_fails env = false /\ select_readable env (_socket Runs.after_second) = true /\
  admissions (events (loop false env 100 Runs.after_second)) = 0%nat /\
  _pendingConnection (final (loop false env 100 Runs.after_second)) = true /\
  _pendingQueue (final (loop false env 100 Runs.after_second)) = Some 3.
Proof.
  cbv zeta. split; [reflexivity |]. split; [reflexivity |].
  split; [exact after_second_is_full |]. split; [reflexivity |]. split; [reflexivity |].
  destruct (full_pool_defers_the_new_connection false
              (Sim.env 0 10 3 true (Sim.make 9 9 1) (Sim.make 9 9 1)) 100
              Runs.after_second eq_refl eq_refl after_second_is_full eq_refl eq_refl)
    as [Hadm [_ [Hp [Hq _]]]].
  split; [exact Hadm |]. split; [exact Hp |]. rewrite Hq. reflexivity.
Defined.

(** X7 on the first call of [loop] after [start], with a readable
    listener and an empty pool. *)
Lemma free_slot_admits_witness :
  let env := Sim.env 0 10 3 true (Sim.make 7 9 1) (Sim.make 7 2 1) in
  _running Runs.started = true /\ _pendingConnection Runs.started = false /\
  reclaimable false Runs.started /\
  select_fails env = false /\ select_readable env (_socket Runs.started) = true /\
  admissions (events (loop false env 100 Runs.started)) = 1%nat /\
  _pendingConnection (final (loop false env 100 Runs.started)) = false.
Proof.
  cbv zeta. split; [reflexivity |]. split; [reflexivity |].
  split; [exact started_is_reclaimable |]. split; [reflexivity |]. split; [reflexivity |].
  destruct (free_slot_admits_the_new_connection_at_once false
              (Sim.env 0 10 3 true (Sim.make 7 9 1) (Sim.make 7 2 1)) 100
              Runs.started eq_refl eq_refl started_is_reclaimable eq_refl eq_refl)
    as [_ [_ [_ [Hadm [_ [Hp _]]]]]].
  split; [exact Hadm | exact Hp].
Defined.

(** ** What the accept loop leaves alone, and what it watches *)

Section LoopFrame.

Context {C : Type} `{HTTPConnection C}.

Variable tpc : bool.

Lemma same_config_refl (s : HTTPServer C) : same_config s s.
Proof. repeat split. Qed.

Lemma same_config_trans (s1 s2 s3 : HTTPServer C) :
  same_config s1 s2 -> same_config s2 s3 -> same_config s1 s3.
Proof.
  unfold same_config. intros [A1 [A2 [A3 [A4 [A5 [A6 A7]]]]]] [B1 [B2 [B3 [B4 [B5 [B6 B7]]]]]].
  repeat split; congruence.
Qed.

Lemma same_but_slots_config (s s' : HTTPServer C) : same_but_slots s s' -> same_config s s'.
Proof. intros ->. repeat split. Qed.

Lemma startConnection_config (adm : Admission C) (idx : Z) (s : HTTPServer C) :
  same_config s (final (startConnection tpc adm idx s)) /\
  Forall (fun es => same_config s (snd es)) (events (startConnection tpc adm idx s)).
Proof.
  unfold startConnection, createConnection, startConnectionTask, xQueueReceive,
    set_slot, value, final, events, bind, get, ret, emit, modify.
  destruct tpc; simpl.
  - destruct (adm_task_created adm); simpl;
      (split; [repeat split | repeat constructor]).
  - destruct (acceptConnection _) as [res c'] eqn:Hacc; simpl.
    destruct (res <? 0) eqn:Hres; simpl;
      (split; [repeat split | repeat constructor]).
Qed.

Lemma admit_pending_config (env : LoopEnv C) (f : Z) (s : HTTPServer C) :
  highest_free s f ->
  same_config s (final (loop_admit_pending tpc env f s)) /\
  Forall (fun es => same_config s (snd es)) (events (loop_admit_pending tpc env f s)).
Proof.
  intros Hhf.
  destruct (admit_pending_summary tpc env f s Hhf)
    as [_ [[_ [_ [Hfin Hev]]] | [_ [_ [Hfin Hev]]]]]; rewrite Hfin, Hev.
  - apply startConnection_config.
  - split; [apply same_config_refl | constructor].
Qed.

Lemma accept_config (env : LoopEnv C) (f nfds : Z) (rd : fd_set) (s : HTTPServer C) :
  same_config s (final (loop_accept tpc env f nfds rd s)) /\
  Forall (fun es => same_config s (snd es)) (events (loop_accept tpc env f nfds rd s)).
Proof.
  destruct (accept_summary tpc env f nfds rd s)
    as [[_ [_ [Hfin Hev]]] | [[_ [_ [_ [Hfin Hev]]]] | [Hfin Hev]]]; rewrite Hfin, Hev.
  - apply startConnection_config.
  - split; [| repeat constructor].
    unfold xQueueSend, final, bind, emit, modify. simpl.
    destruct (_pendingQueue s); repeat split.
  - split; [apply same_config_refl | constructor].
Qed.

Lemma reclaim_no_socket_call (s : HTTPServer C) :
  Forall (fun es => is_socket_call (fst es) = false) (events (loop_reclaim tpc s)).
Proof.
  unfold loop_reclaim.
  rewrite events_bind, ?value_get, ?final_get, ?events_get, ?app_nil_l.
  pose proof (for_each_range_inv (loop_body tpc) (fun _ _ _ => True)
                (fun es => is_socket_call (fst es) = false) (_maxConnections s)) as Hloop.
  cbv beta in Hloop. lapply Hloop; [clear Hloop; intros Hloop |].
  - apply Hloop. exact I.
  - intros k l s' _ _. split; [exact I |].
    unfold events, loop_body, bind, get, ret, emit, set_slot, modify.
    destruct (slot s' (Z.of_nat k)) as [c |]; simpl; [| constructor].
    destruct (isTerminated c); simpl; [repeat constructor |].
    destruct tpc; simpl; repeat constructor.
Qed.

Lemma startConnection_no_socket_call (adm : Admission C) (idx : Z) (s : HTTPServer C) :
  Forall (fun es => is_socket_call (fst es) = false) (events (startConnection tpc adm idx s)).
Proof.
  unfold startConnection, createConnection, startConnectionTask, xQueueReceive,
    set_slot, value, final, events, bind, get, ret, emit, modify.
  destruct tpc; simpl.
  - destruct (adm_task_created adm); simpl; repeat constructor.
  - destruct (acceptConnection _) as [res c'] eqn:Hacc; simpl.
    destruct (res <? 0) eqn:Hres; simpl; repeat constructor.
Qed.

Lemma loop_frame (env : LoopEnv C) (timeoutMs : Z) (s : HTTPServer C) :
  same_config s (final (loop tpc env timeoutMs s)) /\
  Forall (fun es => same_config s (snd es)) (events (loop tpc env timeoutMs s)) /\
  Forall (fun es => is_socket_call (fst es) = false) (events (loop tpc env timeoutMs s)).
Proof.
  destruct (_running s) eqn:Hrun.
  2: { rewrite (loop_stopped tpc env timeoutMs s Hrun). unfold final, events. simpl.
       split; [apply same_config_refl |].
       split; repeat constructor. }
  destruct (loop_running tpc env timeoutMs s Hrun) as [_ [Hfin Hev]].
  rewrite Hfin, Hev. clear Hfin Hev.
  destruct (reclaim_summary tpc s) as [Hhf1 [Hsame1 Hev1]].
  pose proof (reclaim_no_socket_call s) as Hns1.
  set (r1 := loop_reclaim tpc s) in *.
  pose proof (same_but_slots_config _ _ Hsame1) as Hc1.
  destruct (admit_pending_summary tpc env (freeConnectionIdx (value r1)) (final r1) Hhf1)
    as [Hhf2 Hcase2].
  destruct (admit_pending_config env (freeConnectionIdx (value r1)) (final r1) Hhf1)
    as [Hc2 Hev2].
  set (r2 := loop_admit_pending tpc env (freeConnectionIdx (value r1)) (final r1)) in *.
  destruct (poll_summary env timeoutMs (value r1) (final r2)) as [Hfin3 [[n [rd [ex Hev3]]] _]].
  set (r3 := loop_poll env timeoutMs (value r1) (final r2)) in *.
  rewrite Hfin3.
  destruct (accept_config env (value r2) (fst (value r3)) (snd (value r3)) (final r2))
    as [Hc4 Hev4].
  pose proof (accept_summary tpc env (value r2) (fst (value r3)) (snd (value r3)) (final r2))
    as Hcase4.
  set (r4 := loop_accept tpc env (value r2) (fst (value r3)) (snd (value r3)) (final r2)) in *.
  pose proof (same_config_trans _ _ _ Hc1 Hc2) as Hc12.
  split; [exact (same_config_trans _ _ _ Hc12 Hc4) |]. split.
  - repeat (apply Forall_app; split).
    + eapply Forall_impl; [exact Hev1 |]. intros es [_ [_ [Hs _]]].
      apply same_but_slots_config, Hs.
    + eapply Forall_impl; [exact Hev2 |]. intros es Hs.
      exact (same_config_trans _ _ _ Hc1 Hs).
    + rewrite Hev3. repeat constructor; apply Hc12.
    + eapply Forall_impl; [exact Hev4 |]. intros es Hs.
      exact (same_config_trans _ _ _ Hc12 Hs).
  - repeat (apply Forall_app; split).
    + exact Hns1.
    + destruct Hcase2 as [[_ [_ [_ He2]]] | [_ [_ [_ He2]]]]; rewrite He2;
        [apply startConnection_no_socket_call | constructor].
    + rewrite Hev3. repeat constructor.
    + destruct Hcase4 as [[_ [_ [_ He4]]] | [[_ [_ [_ [_ He4]]]] | [_ He4]]]; rewrite He4;
        [apply startConnection_no_socket_call | repeat constructor | constructor].
Qed.

(** X8: [loop] changes slots, the gate flag and the queue, and nothing
    else: port, capacity, bind address, listener socket and its address,
    the run flag and the default headers are, at every event of the call
    and on return, what they were on entry, and the call makes no
    [socket], [bind], [listen] or [close] call.  In particular [loop]
    never starts or stops the server and never closes the listener. *)
Theorem loop_leaves_listener_and_configuration_alone
    (env : LoopEnv C) (timeoutMs : Z) (s : HTTPServer C) :
  same_config s (final (loop tpc env timeoutMs s)) /\
  Forall (fun es => same_config s (snd es)) (events (loop tpc env timeoutMs s)) /\
  Forall (fun es => is_socket_call (fst es) = false) (events (loop tpc env timeoutMs s)).
Proof. exact (loop_frame env timeoutMs s). Qed.

End LoopFrame.

Section WatchSets.

Context {C : Type} `{HTTPConnection C}.

Variable tpc : bool.

(** The only [select] of a running [loop] is the one of its poll step. *)
Lemma loop_select_event (env : LoopEnv C) (timeoutMs : Z) (s : HTTPServer C) (es : event * HTTPServer C) :
  _running s = true -> is_poll (fst es) = true ->
  In es (events (loop tpc env timeoutMs s)) ->
  let r1 := loop_reclaim tpc s in
  let r2 := loop_admit_pending tpc env (freeConnectionIdx (value r1)) (final r1) in
  In es (events (loop_poll env timeoutMs (value r1) (final r2))).
Proof.
  intros Hrun Hpoll Hin r1 r2.
  destruct (loop_running tpc env timeoutMs s Hrun) as [_ [_ Hev]].
  rewrite Hev in Hin. clear Hev.
  destruct (reclaim_summary tpc s) as [Hhf1 [_ Hev1]]. fold r1 in Hhf1, Hev1, Hin.
  destruct (admit_pending_summary tpc env (freeConnectionIdx (value r1)) (final r1) Hhf1)
    as [_ Hcase2].
  fold r2 in Hcase2, Hin.
  apply in_app_iff in Hin as [Hin | Hin].
  { apply (proj1 (List.Forall_forall _ _) Hev1) in Hin.
    destruct Hin as [_ [_ [_ Hno]]]. congruence. }
  apply in_app_iff in Hin as [Hin | Hin].
  { exfalso. destruct Hcase2 as [[_ [_ [_ He2]]] | [_ [_ [_ He2]]]]; rewrite He2 in Hin.
    - apply (proj1 (List.Forall_forall _ _) (startConnection_no_poll tpc _ _ _)) in Hin.
      congruence.
    - destruct Hin. }
  apply in_app_iff in Hin as [Hin | Hin]; [exact Hin |].
  exfalso.
  destruct (accept_summary tpc env (value r2)
              (fst (value (loop_poll env timeoutMs (value r1) (final r2))))
              (snd (value (loop_poll env timeoutMs (value r1) (final r2))))
              (final (loop_poll env timeoutMs (value r1) (final r2))))
    as [[_ [_ [_ He4]]] | [[_ [_ [_ [_ He4]]]] | [_ He4]]]; rewrite He4 in Hin.
  - apply (proj1 (List.Forall_forall _ _) (startConnection_no_poll tpc _ _ _)) in Hin.
    congruence.
  - destruct Hin as [<- | [<- | []]]; discriminate.
  - destruct Hin.
Qed.

(** X9: what a running [loop] hands to [select].  The exceptional set
    holds exactly the sockets of the connections that were live when
    step 1 visited them; the read set holds the listener socket when the
    gate is down after step 2 and is empty when it is raised; and the
    first argument is greater than every descriptor in either set. *)
Theorem select_watches_live_sockets_and_listener
    (env : LoopEnv C) (timeoutMs : Z) (s : HTTPServer C)
    (nfds : Z) (rd ex : fd_set) (tv_sec tv_usec : Z) (st : HTTPServer C) :
  _running s = true ->
  In (EvSelect nfds rd ex tv_sec tv_usec, st) (events (loop tpc env timeoutMs s)) ->
  (forall fd, In fd ex <-> live_socket s (_maxConnections s) fd) /\
  rd = (if _pendingConnection st then [] else [_socket s]) /\
  (forall fd, In fd rd \/ In fd ex -> fd < nfds).
Proof.
  intros Hrun Hin.
  pose proof (loop_select_event env timeoutMs s
                (EvSelect nfds rd ex tv_sec tv_usec, st) Hrun eq_refl Hin) as Hpoll.
  cbv zeta in Hpoll. rewrite poll_event in Hpoll.
  destruct (reclaim_summary tpc s) as [Hhf1 [Hsame1 _]].
  destruct (reclaim_slots tpc s) as [_ [Hexc [Hmax Hlow]]].
  set (r1 := loop_reclaim tpc s) in *.
  destruct (admit_pending_config tpc env (freeConnectionIdx (value r1)) (final r1) Hhf1)
    as [[_ [_ [_ [Hsock2 _]]]] _].
  set (r2 := loop_admit_pending tpc env (freeConnectionIdx (value r1)) (final r1)) in *.
  rewrite (same_but_slots_socket _ _ Hsame1) in Hsock2.
  destruct Hpoll as [Heq | []]. inversion Heq; subst. clear Heq.
  rewrite Hsock2.
  split; [exact Hexc |]. split; [destruct (_pendingConnection (final r2)); reflexivity |].
  intros fd Hfd.
  destruct (_pendingConnection (final r2)); simpl in *.
  - destruct Hfd as [[] | Hfd]. specialize (Hmax fd Hfd). lia.
  - destruct (_socket s >? max_fd (value r1)) eqn:Hgt.
    + apply Z.gtb_lt in Hgt. destruct Hfd as [[<- | []] | Hfd]; [lia |].
      specialize (Hmax fd Hfd). lia.
    + rewrite Z.gtb_ltb in Hgt. apply Z.ltb_ge in Hgt.
      destruct Hfd as [[<- | []] | Hfd]; [lia |].
      specialize (Hmax fd Hfd). lia.
Qed.

End WatchSets.

(** X9 on a call that finds two live connections (sockets 8 and 7) and
    the gate down. *)
Lemma select_watches_witness :
  let env := Sim.env 0 10 3 false (Sim.make 9 9 1) (Sim.make 9 9 1) in
  _running Runs.after_second = true /\
  In (EvSelect 9 [3] [7; 8] 0 100000, Runs.after_second_stepped)
     (events (loop false env 100 Runs.after_second)) /\
  (forall fd, In fd [3] \/ In fd [7; 8] -> fd < 9).
Proof.
  cbv zeta. split; [reflexivity |].
  assert (Hin : In (EvSelect 9 [3] [7; 8] 0 100000, Runs.after_second_stepped)
                   (events (loop false
                      (Sim.env 0 10 3 false (Sim.make 9 9 1) (Sim.make 9 9 1)) 100
                      Runs.after_second))).
  { vm_compute. right. right. left. reflexivity. }
  split; [exact Hin |].
  exact (proj2 (proj2 (select_watches_live_sockets_and_listener false
                         (Sim.env 0 10 3 false (Sim.make 9 9 1) (Sim.make 9 9 1)) 100
                         Runs.after_second 9 [3] [7; 8] 0 100000
                         Runs.after_second_stepped eq_refl Hin))).
Defined.

(** ** Invariants of the reachable states *)

Section Invariants.

Context {C : Type} `{HTTPConnection C}.

Variable tpc : bool.

Lemma same_length_put (s0 s : HTTPServer C) (i : Z) (c : option C) :
  same_length s0 s -> same_length s0 (put_slot i c s).
Proof.
  intros [Hlen HN]. split; [| exact HN].
  unfold put_slot. simpl. rewrite length_insert. exact Hlen.
Qed.

Lemma for_each_preserves {A} (P : HTTPServer C -> Prop) (body : Z -> A -> M C A)
    (idxs : list Z) :
  (forall i a s, P s -> P (final (body i a s))) ->
  forall a s, P s -> P (final (for_each idxs body a s)).
Proof.
  intros Hbody. induction idxs as [| i idxs IH]; intros a s Hs; simpl.
  - exact Hs.
  - rewrite final_bind. apply IH, Hbody, Hs.
Qed.

Lemma loop_body_length (s0 : HTTPServer C) (i : Z) (l : scan_locals) (s : HTTPServer C) :
  same_length s0 s -> same_length s0 (final (loop_body tpc i l s)).
Proof.
  intros Hs. unfold final, loop_body, bind, get, ret, emit, set_slot, modify.
  destruct (slot s i) as [c |]; simpl; [| exact Hs].
  destruct (isTerminated c); simpl; [apply same_length_put, Hs |].
  destruct tpc; simpl; [exact Hs | apply same_length_put, Hs].
Qed.

Lemma stop_body_length (s0 : HTTPServer C) (i : Z) (b : bool) (s : HTTPServer C) :
  same_length s0 s -> same_length s0 (final (stop_body i b s)).
Proof.
  intros Hs. unfold final, stop_body, bind, get, ret, emit, set_slot, modify.
  destruct (slot s i) as [c |]; simpl; [| exact Hs].
  destruct (isClosed (closeConnection c)); simpl; repeat apply same_length_put; exact Hs.
Qed.

Lemma startConnection_length (adm : Admission C) (idx : Z) (s : HTTPServer C) :
  same_length s (final (startConnection tpc adm idx s)).
Proof.
  unfold startConnection, createConnection, startConnectionTask, xQueueReceive,
    set_slot, value, final, events, bind, get, ret, emit, modify.
  destruct tpc; simpl.
  - destruct (adm_task_created adm); simpl;
      (split; [simpl; rewrite ?length_insert; reflexivity | reflexivity]).
  - destruct (acceptConnection _) as [res c'] eqn:Hacc; simpl.
    destruct (res <? 0) eqn:Hres; simpl;
      (split; [simpl; rewrite ?length_insert; reflexivity | reflexivity]).
Qed.

Lemma same_length_trans (s1 s2 s3 : HTTPServer C) :
  same_length s1 s2 -> same_length s2 s3 -> same_length s1 s3.
Proof. intros [A1 A2] [B1 B2]. split; congruence. Qed.

Lemma raise_length (s : HTTPServer C) :
  same_length s (final (xQueueSend (_socket s) (with_pendingConnection true s))).
Proof.
  unfold xQueueSend, final, bind, emit, modify. simpl.
  destruct (_pendingQueue s); split; reflexivity.
Qed.

Lemma loop_length (env : LoopEnv C) (timeoutMs : Z) (s : HTTPServer C) :
  same_length s (final (loop tpc env timeoutMs s)).
Proof.
  destruct (_running s) eqn:Hrun.
  2: { rewrite (loop_stopped tpc env timeoutMs s Hrun). split; reflexivity. }
  destruct (loop_running tpc env timeoutMs s Hrun) as [_ [Hfin _]].
  rewrite Hfin. clear Hfin.
  assert (H1 : same_length s (final (loop_reclaim tpc s))).
  { unfold loop_reclaim. rewrite final_bind, ?value_get, ?final_get.
    apply for_each_preserves; [intros i a s'; apply loop_body_length | split; reflexivity]. }
  destruct (reclaim_summary tpc s) as [Hhf1 _].
  set (r1 := loop_reclaim tpc s) in *.
  assert (H2 : same_length (final r1)
                 (final (loop_admit_pending tpc env (freeConnectionIdx (value r1)) (final r1)))).
  { destruct (admit_pending_summary tpc env (freeConnectionIdx (value r1)) (final r1) Hhf1)
      as [_ [[_ [_ [Hf _]]] | [_ [_ [Hf _]]]]]; rewrite Hf;
      [apply startConnection_length | split; reflexivity]. }
  set (r2 := loop_admit_pending tpc env (freeConnectionIdx (value r1)) (final r1)) in *.
  destruct (poll_summary env timeoutMs (value r1) (final r2)) as [Hfin3 _].
  set (r3 := loop_poll env timeoutMs (value r1) (final r2)) in *.
  rewrite Hfin3.
  apply (same_length_trans _ _ _ (same_length_trans _ _ _ H1 H2)).
  destruct (accept_summary tpc env (value r2) (fst (value r3)) (snd (value r3)) (final r2))
    as [[_ [_ [Hf _]]] | [[_ [_ [_ [Hf _]]]] | [Hf _]]]; rewrite Hf.
  - apply startConnection_length.
  - apply raise_length.
  - split; reflexivity.
Qed.

Lemma stop_while_length (fuel : nat) (s s' : HTTPServer C) (l : log C) :
  stop_while fuel s = Some (s', l) -> same_length s s'.
Proof.
  revert s s' l. induction fuel as [| fuel IH]; intros s s' l; simpl; [discriminate |].
  assert (Hsweep : same_length s (final (stop_sweep s))).
  { unfold stop_sweep. rewrite final_bind, ?value_get, ?final_get, final_bind.
    rewrite final_bind, final_ret, final_emit.
    apply for_each_preserves; [intros i a s0; apply stop_body_length | split; reflexivity]. }
  destruct (stop_sweep s) as [[b s1] l1]; unfold final in Hsweep; simpl in Hsweep.
  destruct b.
  - destruct (stop_while fuel s1) as [[s2 l2] |] eqn:Hrec; [| discriminate].
    intros Heq. inversion Heq; subst.
    exact (same_length_trans _ _ _ Hsweep (IH _ _ _ Hrec)).
  - intros Heq. inversion Heq; subst. exact Hsweep.
Qed.

Lemma run_length (c : call C) (s s' : HTTPServer C) (l : log C) :
  run tpc c s = Some (s', l) -> same_length s s'.
Proof.
  destruct c as [env | fuel | env timeoutMs | name value |]; simpl; intros Hrun.
  - inversion Hrun; subst.
    unfold start, setupSocket, final, bind, get, ret, emit, modify.
    destruct (_running s); simpl; [split; reflexivity |].
    destruct (socket_result env >=? 0); simpl; [| split; reflexivity].
    destruct (bind_result env =? 0); simpl; [| split; reflexivity].
    destruct (listen_result env =? 0); simpl; split; reflexivity.
  - unfold stop in Hrun. destruct (_running s); [| inversion Hrun; split; reflexivity].
    destruct (stop_while fuel (with_running false s)) as [[s1 l1] |] eqn:Hwhile;
      [| discriminate].
    apply stop_while_length in Hwhile.
    unfold teardownSocket, bind, get, emit, modify in Hrun. simpl in Hrun.
    inversion Hrun; subst. exact Hwhile.
  - inversion Hrun; subst. apply loop_length.
  - inversion Hrun; subst. split; reflexivity.
  - inversion Hrun; subst. split; reflexivity.
Qed.

Lemma pool_shaped_same_length (s s' : HTTPServer C) :
  same_length s s' -> pool_shaped s -> pool_shaped s'.
Proof. intros [Hlen HN]. unfold pool_shaped. rewrite Hlen, HN. auto. Qed.

Lemma reclaim_length (s : HTTPServer C) : same_length s (final (loop_reclaim tpc s)).
Proof.
  unfold loop_reclaim. rewrite final_bind, ?value_get, ?final_get.
  apply for_each_preserves; [intros i a s'; apply loop_body_length | split; reflexivity].
Qed.

Lemma occupied_le_length (s : HTTPServer C) : (occupied s <= length (_connections s))%nat.
Proof. unfold occupied. apply List.filter_length_le. Qed.

(** Writing a slot of the array changes the number of occupied slots by
    what the slot held and what it holds now. *)
Lemma occupied_insert (l : list (option C)) (n : nat) (o : option C) :
  (n < length l)%nat ->
  (length (List.filter (fun o : option C => match o with Some _ => true | None => false end)
             (<[n:=o]> l)) +
   holds (match l !! n with Some (Some c) => Some c | _ => None end) =
   length (List.filter (fun o : option C => match o with Some _ => true | None => false end) l) +
   holds o)%nat.
Proof.
  revert n. induction l as [| x l IH]; intros n Hn; simpl in Hn; [lia |].
  destruct n as [| n]; simpl.
  - destruct x, o; simpl; lia.
  - specialize (IH n ltac:(lia)). destruct x; simpl; lia.
Qed.

Lemma slot_in_range (s : HTTPServer C) (i : Z) (c : C) :
  slot s i = Some c -> (Z.to_nat i < length (_connections s))%nat.
Proof.
  unfold slot. destruct (_connections s !! Z.to_nat i) as [o |] eqn:Hlook; [| discriminate].
  intros _. eapply lookup_lt_Some. exact Hlook.
Qed.

Lemma occupied_put (i : Z) (o : option C) (s : HTTPServer C) :
  (Z.to_nat i < length (_connections s))%nat ->
  (occupied (put_slot i o s) + holds (slot s i) = occupied s + holds o)%nat.
Proof. intros Hi. unfold occupied, put_slot, slot. simpl. apply occupied_insert, Hi. Qed.

Lemma put_slot_twice (i : Z) (o o' : option C) (s : HTTPServer C) :
  put_slot i o (put_slot i o' s) = put_slot i o s.
Proof. unfold put_slot. simpl. rewrite list_insert_insert_eq. reflexivity. Qed.

Lemma deletions_app (l1 l2 : log C) :
  deletions (l1 ++ l2) = (deletions l1 + deletions l2)%nat.
Proof. apply occurrences_app. Qed.

Lemma accounted_refl (s : HTTPServer C) : accounted s s [].
Proof. reflexivity. Qed.

Lemma accounted_trans (s1 s2 s3 : HTTPServer C) (l1 l2 : log C) :
  accounted s1 s2 l1 -> accounted s2 s3 l2 -> accounted s1 s3 (l1 ++ l2).
Proof.
  unfold accounted. rewrite deletions_app, admissions_app. lia.
Qed.

Lemma for_each_accounted {A} (body : Z -> A -> M C A) (idxs : list Z) :
  (forall i a s, accounted s (final (body i a s)) (events (body i a s))) ->
  forall a s, accounted s (final (for_each idxs body a s)) (events (for_each idxs body a s)).
Proof.
  intros Hbody. induction idxs as [| i idxs IH]; intros a s; simpl.
  - apply accounted_refl.
  - rewrite final_bind, events_bind. eapply accounted_trans; [apply Hbody | apply IH].
Qed.

(** Step 1 deletes exactly the objects it takes out of their slots. *)
Lemma loop_body_accounted (i : Z) (l : scan_locals) (s : HTTPServer C) :
  accounted s (final (loop_body tpc i l s)) (events (loop_body tpc i l s)).
Proof.
  unfold final, events, loop_body, bind, get, ret, emit, set_slot, modify.
  destruct (slot s i) as [c |] eqn:Hslot; simpl; [| apply accounted_refl].
  pose proof (occupied_put i None s (slot_in_range s i c Hslot)) as Hdel.
  pose proof (occupied_put i (Some (conn_loop c)) s (slot_in_range s i c Hslot)) as Hstep.
  rewrite Hslot in Hdel, Hstep. simpl in Hdel, Hstep.
  destruct (isTerminated c); simpl.
  - unfold accounted, deletions, admissions, occurrences. simpl. lia.
  - destruct tpc; simpl; [apply accounted_refl |].
    unfold accounted, deletions, admissions, occurrences. simpl. lia.
Qed.

Lemma reclaim_accounted (s : HTTPServer C) :
  accounted s (final (loop_reclaim tpc s)) (events (loop_reclaim tpc s)).
Proof.
  unfold loop_reclaim.
  rewrite final_bind, events_bind, ?value_get, ?final_get, ?events_get, ?app_nil_l.
  apply for_each_accounted. intros i a s'. apply loop_body_accounted.
Qed.

(** An admission into a free slot of the array creates one object and
    either keeps it in the slot or deletes it. *)
Lemma startConnection_accounted (adm : Admission C) (idx : Z) (s : HTTPServer C) :
  slot s idx = None -> (Z.to_nat idx < length (_connections s))%nat ->
  accounted s (final (startConnection tpc adm idx s)) (events (startConnection tpc adm idx s)).
Proof.
  intros Hfree Hidx.
  assert (Hput : forall o, (occupied (put_slot idx o s) = occupied s + holds o)%nat).
  { intros o. pose proof (occupied_put idx o s Hidx) as Hocc.
    rewrite Hfree in Hocc. simpl in Hocc. lia. }
  assert (Hgate : forall o,
            occupied (put_slot idx o (with_pendingQueue None (with_pendingConnection false s))) =
            occupied (put_slot idx o s)) by reflexivity.
  unfold startConnection, createConnection, startConnectionTask, xQueueReceive,
    set_slot, value, final, events, bind, get, ret, emit, modify.
  destruct tpc; simpl.
  - destruct (adm_task_created adm); simpl;
      rewrite ?put_slot_twice; unfold accounted; rewrite Hgate, Hput;
      unfold deletions, admissions, occurrences; simpl; lia.
  - destruct (acceptConnection _) as [res c'] eqn:Hacc; simpl.
    destruct (res <? 0) eqn:Hres; simpl;
      rewrite ?put_slot_twice; unfold accounted; rewrite Hgate, Hput;
      unfold deletions, admissions, occurrences; simpl; lia.
Qed.

Lemma highest_free_admits (s : HTTPServer C) (f : Z) :
  pool_shaped s -> highest_free s f -> -1 < f ->
  slot s f = None /\ (Z.to_nat f < length (_connections s))%nat.
Proof.
  intros Hshape [[Hneg _] | [Hrange [Hnone _]]] Hf; [lia |].
  split; [exact Hnone |]. rewrite Hshape. lia.
Qed.

Lemma admit_pending_accounted (env : LoopEnv C) (f : Z) (s : HTTPServer C) :
  pool_shaped s -> highest_free s f ->
  accounted s (final (loop_admit_pending tpc env f s))
    (events (loop_admit_pending tpc env f s)) /\
  same_length s (final (loop_admit_pending tpc env f s)).
Proof.
  intros Hshape Hhf.
  destruct (admit_pending_summary tpc env f s Hhf)
    as [_ [[_ [Hf [Hfin Hev]]] | [_ [_ [Hfin Hev]]]]]; rewrite Hfin, Hev.
  - destruct (highest_free_admits s f Hshape Hhf Hf) as [Hnone Hidx].
    split; [apply startConnection_accounted; assumption | apply startConnection_length].
  - split; [apply accounted_refl | split; reflexivity].
Qed.

Lemma accept_accounted (env : LoopEnv C) (f nfds : Z) (rd : fd_set) (s : HTTPServer C) :
  pool_shaped s -> highest_free s f ->
  accounted s (final (loop_accept tpc env f nfds rd s))
    (events (loop_accept tpc env f nfds rd s)).
Proof.
  intros Hshape Hhf.
  destruct (accept_summary tpc env f nfds rd s)
    as [[_ [Hf [Hfin Hev]]] | [[_ [_ [_ [Hfin Hev]]]] | [Hfin Hev]]]; rewrite Hfin, Hev.
  - destruct (highest_free_admits s f Hshape Hhf Hf) as [Hnone Hidx].
    apply startConnection_accounted; assumption.
  - unfold accounted, xQueueSend, final, bind, emit, modify. simpl.
    destruct (_pendingQueue s); reflexivity.
  - apply accounted_refl.
Qed.

(** A call of [loop] keeps the books. *)
Lemma loop_accounted (env : LoopEnv C) (timeoutMs : Z) (s : HTTPServer C) :
  pool_shaped s ->
  accounted s (final (loop tpc env timeoutMs s)) (events (loop tpc env timeoutMs s)).
Proof.
  intros Hshape. destruct (_running s) eqn:Hrun.
  2: { rewrite (loop_stopped tpc env timeoutMs s Hrun). reflexivity. }
  destruct (loop_running tpc env timeoutMs s Hrun) as [_ [Hfin Hev]].
  rewrite Hfin, Hev. clear Hfin Hev.
  pose proof (reclaim_accounted s) as H1.
  pose proof (pool_shaped_same_length _ _ (reclaim_length s) Hshape) as Hshape1.
  destruct (reclaim_summary tpc s) as [Hhf1 _].
  set (r1 := loop_reclaim tpc s) in *.
  destruct (admit_pending_accounted env (freeConnectionIdx (value r1)) (final r1) Hshape1 Hhf1)
    as [H2 Hlen2].
  pose proof (pool_shaped_same_length _ _ Hlen2 Hshape1) as Hshape2.
  destruct (admit_pending_summary tpc env (freeConnectionIdx (value r1)) (final r1) Hhf1)
    as [Hhf2 _].
  set (r2 := loop_admit_pending tpc env (freeConnectionIdx (value r1)) (final r1)) in *.
  destruct (poll_summary env timeoutMs (value r1) (final r2)) as [Hfin3 [[n [rd [ex Hev3]]] _]].
  set (r3 := loop_poll env timeoutMs (value r1) (final r2)) in *.
  rewrite Hfin3, Hev3.
  pose proof (accept_accounted env (value r2) (fst (value r3)) (snd (value r3)) (final r2)
                Hshape2 Hhf2) as H4.
  eapply accounted_trans; [exact H1 |].
  eapply accounted_trans; [exact H2 |].
  eapply (accounted_trans _ (final r2)); [reflexivity | exact H4].
Qed.

(** A sweep of [stop] deletes exactly the objects it takes out of their
    slots. *)
Lemma stop_body_accounted (i : Z) (b : bool) (s : HTTPServer C) :
  accounted s (final (stop_body i b s)) (events (stop_body i b s)).
Proof.
  unfold final, events, stop_body, bind, get, ret, emit, set_slot, modify.
  destruct (slot s i) as [c |] eqn:Hslot; simpl; [| apply accounted_refl].
  pose proof (occupied_put i None s (slot_in_range s i c Hslot)) as Hdel.
  pose proof (occupied_put i (Some (closeConnection c)) s (slot_in_range s i c Hslot))
    as Hclose.
  rewrite Hslot in Hdel, Hclose. simpl in Hdel, Hclose.
  destruct (isClosed (closeConnection c)); simpl.
  - rewrite put_slot_twice.
    unfold accounted, deletions, admissions, occurrences. simpl. lia.
  - unfold accounted, deletions, admissions, occurrences. simpl. lia.
Qed.

Lemma sweep_accounted (s : HTTPServer C) :
  accounted s (final (stop_sweep s)) (events (stop_sweep s)).
Proof.
  unfold stop_sweep.
  rewrite final_bind, events_bind, ?value_get, ?final_get, ?events_get, ?app_nil_l.
  rewrite final_bind, events_bind.
  eapply accounted_trans;
    [apply for_each_accounted; intros i a s'; apply stop_body_accounted |].
  rewrite final_bind, events_bind, final_ret, events_ret, final_emit, events_emit.
  reflexivity.
Qed.

Lemma stop_while_accounted (fuel : nat) (s s' : HTTPServer C) (l : log C) :
  stop_while fuel s = Some (s', l) -> accounted s s' l.
Proof.
  revert s s' l. induction fuel as [| fuel IH]; intros s s' l; simpl; [discriminate |].
  pose proof (sweep_accounted s) as Hsweep.
  destruct (stop_sweep s) as [[b s1] l1]; unfold final, events in Hsweep; simpl in Hsweep.
  destruct b.
  - destruct (stop_while fuel s1) as [[s2 l2] |] eqn:Hrec; [| discriminate].
    intros Heq. inversion Heq; subst.
    exact (accounted_trans _ _ _ _ _ Hsweep (IH _ _ _ Hrec)).
  - intros Heq. inversion Heq; subst. exact Hsweep.
Qed.

(** Every call of the public surface keeps the books. *)
Lemma run_accounted (c : call C) (s s' : HTTPServer C) (l : log C) :
  pool_shaped s -> run tpc c s = Some (s', l) -> accounted s s' l.
Proof.
  intros Hshape.
  destruct c as [env | fuel | env timeoutMs | name value |]; simpl; intros Hrun.
  - inversion Hrun; subst.
    unfold accounted, start, setupSocket, final, events, bind, get, ret, emit, modify.
    destruct (_running s); simpl; [reflexivity |].
    destruct (socket_result env >=? 0); simpl; [| reflexivity].
    destruct (bind_result env =? 0); simpl; [| reflexivity].
    destruct (listen_result env =? 0); reflexivity.
  - unfold stop in Hrun. destruct (_running s); [| inversion Hrun; reflexivity].
    destruct (stop_while fuel (with_running false s)) as [[s1 l1] |] eqn:Hwhile;
      [| discriminate].
    apply stop_while_accounted in Hwhile.
    unfold teardownSocket, bind, get, emit, modify in Hrun. simpl in Hrun.
    inversion Hrun; subst.
    eapply (accounted_trans s s1); [exact Hwhile | reflexivity].
  - inversion Hrun; subst. apply loop_accounted, Hshape.
  - inversion Hrun; subst. reflexivity.
  - inversion Hrun; subst. reflexivity.
Qed.

Lemma occupied_same_shape (l l' : list (option C)) :
  Forall2 (fun o o' : option C => o = None <-> o' = None) l l' ->
  length (List.filter (fun o : option C => match o with Some _ => true | None => false end) l') =
  length (List.filter (fun o : option C => match o with Some _ => true | None => false end) l).
Proof.
  induction 1 as [| o o' l l' Hiff _ IH]; simpl; [reflexivity |].
  destruct o as [c |], o' as [c' |]; simpl; rewrite IH; try reflexivity.
  - destruct Hiff as [_ Hiff]. discriminate (Hiff eq_refl).
  - destruct Hiff as [Hiff _]. discriminate (Hiff eq_refl).
Qed.

(** X10: no connection object is lost.  At every state the server
    reaches, after any calls of its public surface and with the
    connections free to change between them, the objects created since
    the constructor (one for each call of [startConnection]) are the
    objects deleted since then and those now in slots.  No admission
    overwrites an occupied slot, no slot is emptied without a [delete],
    and so the objects alive at any such moment are the occupied slots:
    at most [_maxConnections] of them, in an array of exactly that
    length. *)
Theorem live_connection_objects_are_the_occupied_slots
    (created deleted : nat) (s : HTTPServer C) :
  ledger tpc created deleted s ->
  pool_shaped s /\
  (occupied s + deleted = created)%nat /\
  (created - deleted <= Z.to_nat (_maxConnections s))%nat.
Proof.
  intros Hledger.
  assert (Hinv : pool_shaped s /\ (occupied s + deleted = created)%nat).
  { induction Hledger as [port n addr | c created deleted s s' l _ [IHshape IH] Hrun
                         | created deleted s cs _ [IHshape IH] Hsame].
    - split; [unfold pool_shaped; simpl; apply length_replicate |].
      unfold occupied. simpl. induction (Z.to_nat n) as [| k IHk]; simpl; [reflexivity |].
      exact IHk.
    - split; [exact (pool_shaped_same_length _ _ (run_length c s s' l Hrun) IHshape) |].
      pose proof (run_accounted c s s' l IHshape Hrun) as Hbooks.
      unfold accounted in Hbooks. lia.
    - split.
      + unfold pool_shaped in *. simpl. rewrite <- (Forall2_length _ _ _ Hsame). exact IHshape.
      + unfold occupied in *. simpl. rewrite (occupied_same_shape _ _ Hsame). exact IH. }
  destruct Hinv as [Hshape Hbooks].
  split; [exact Hshape |]. split; [exact Hbooks |].
  pose proof (occupied_le_length s) as Hle. rewrite Hshape in Hle. lia.
Qed.

Lemma start_listener (env : SocketEnv) (s : HTTPServer C) :
  listener_coherent s -> listener_coherent (final (start env s)).
Proof.
  unfold listener_coherent, start, setupSocket, final, bind, get, ret, emit, modify.
  destruct (_running s) eqn:Hrun; simpl.
  - rewrite Hrun. auto.
  - intros _.
    destruct (socket_result env >=? 0) eqn:Hsock; simpl;
      [| rewrite Hrun; reflexivity].
    apply Z.geb_le in Hsock.
    destruct (bind_result env =? 0); simpl; [| rewrite Hrun; reflexivity].
    destruct (listen_result env =? 0); simpl; [exact Hsock | rewrite Hrun; reflexivity].
Qed.

Lemma stop_listener (fuel : nat) (s s' : HTTPServer C) (l : log C) :
  stop fuel s = Some (s', l) -> listener_coherent s -> listener_coherent s'.
Proof.
  unfold stop. destruct (_running s) eqn:Hrun.
  - destruct (stop_while fuel (with_running false s)) as [[s1 l1] |] eqn:Hwhile;
      [| discriminate].
    apply stop_while_frame in Hwhile as [Hsame _].
    unfold teardownSocket, bind, get, emit, modify. simpl.
    intros Heq _. inversion Heq; subst.
    unfold listener_coherent. simpl. rewrite Hsame. reflexivity.
  - intros Heq. inversion Heq; subst. auto.
Qed.

(** X11: the listener socket is a descriptor exactly while the server
    runs.  In every reachable state [_socket] is non-negative if
    [_running] is true and -1 if it is false. *)
Theorem reachable_listener_is_bound_iff_running (s : HTTPServer C) :
  reachable tpc s -> listener_coherent s.
Proof.
  induction 1 as [port n addr | c s s' l _ IH Hrun | s cs _ IH Hsame].
  - reflexivity.
  - destruct c as [env | fuel | env timeoutMs | name value |]; simpl in Hrun.
    + inversion Hrun; subst. apply start_listener, IH.
    + exact (stop_listener fuel s s' l Hrun IH).
    + inversion Hrun; subst.
      destruct (loop_frame tpc env timeoutMs s) as [[_ [_ [_ [Hsock [_ [Hrunning _]]]]]] _].
      unfold listener_coherent in *. rewrite Hsock, Hrunning. exact IH.
    + inversion Hrun; subst. exact IH.
    + inversion Hrun; subst. exact IH.
  - exact IH.
Qed.

Lemma startConnection_gate (adm : Admission C) (idx : Z) (s : HTTPServer C) :
  gate_coherent (final (startConnection tpc adm idx s)).
Proof.
  destruct (startConnection_summary tpc adm idx s) as [Hsame _].
  unfold gate_coherent. rewrite Hsame. reflexivity.
Qed.

Lemma loop_gate_coherent (env : LoopEnv C) (timeoutMs : Z) (s : HTTPServer C) :
  gate_coherent s -> gate_coherent (final (loop tpc env timeoutMs s)).
Proof.
  intros Hs. destruct (_running s) eqn:Hrun.
  2: { rewrite (loop_stopped tpc env timeoutMs s Hrun). exact Hs. }
  destruct (loop_running tpc env timeoutMs s Hrun) as [_ [Hfin _]].
  rewrite Hfin. clear Hfin.
  destruct (reclaim_summary tpc s) as [Hhf1 [Hsame1 _]].
  set (r1 := loop_reclaim tpc s) in *.
  assert (H2 : gate_coherent
                 (final (loop_admit_pending tpc env (freeConnectionIdx (value r1)) (final r1)))).
  { destruct (admit_pending_summary tpc env (freeConnectionIdx (value r1)) (final r1) Hhf1)
      as [_ [[_ [_ [Hf _]]] | [_ [_ [Hf _]]]]]; rewrite Hf.
    - apply startConnection_gate.
    - unfold gate_coherent in *. rewrite Hsame1. exact Hs. }
  set (r2 := loop_admit_pending tpc env (freeConnectionIdx (value r1)) (final r1)) in *.
  destruct (poll_summary env timeoutMs (value r1) (final r2)) as [Hfin3 _].
  set (r3 := loop_poll env timeoutMs (value r1) (final r2)) in *.
  rewrite Hfin3.
  destruct (accept_summary tpc env (value r2) (fst (value r3)) (snd (value r3)) (final r2))
    as [[_ [_ [Hf _]]] | [[_ [_ [_ [Hf _]]]] | [Hf _]]]; rewrite Hf.
  - apply startConnection_gate.
  - generalize (final r2). intros s2.
    unfold gate_coherent, xQueueSend, final, bind, emit, modify. simpl.
    destruct (_pendingQueue s2) eqn:Hq; simpl; [rewrite Hq |]; discriminate.
  - exact H2.
Qed.

End Invariants.

(** X12: queue and flag go together.  In every state the cooperative
    server can reach, the one-item queue holds an item exactly while
    [_pendingConnection] is true: raising the gate fills it, an
    admission empties it, and nothing else in the server touches either.
    (A worker that takes the item out of the queue is not part of the
    server's own code.) *)
Theorem reachable_queue_holds_an_item_iff_gate_is_raised
    {C : Type} `{HTTPConnection C} (s : HTTPServer C) :
  reachable false s -> gate_coherent s.
Proof.
  induction 1 as [port n addr | c s s' l _ IH Hrun | s cs _ IH Hsame].
  - reflexivity.
  - destruct c as [env | fuel | env timeoutMs | name value |]; simpl in Hrun.
    + inversion Hrun; subst. destruct (start_frame env s) as [Hp [Hq _]].
      unfold gate_coherent in *. rewrite Hp, Hq. exact IH.
    + destruct (stop_frame fuel s s' l Hrun) as [Hp [Hq _]].
      unfold gate_coherent in *. rewrite Hp, Hq. exact IH.
    + inversion Hrun; subst. apply loop_gate_coherent, IH.
    + inversion Hrun; subst. exact IH.
    + inversion Hrun; subst. exact IH.
  - exact IH.
Qed.

(** The state with the gate raised is reached from the constructor by
    [start] and three calls of [loop]. *)
Lemma gate_raised_is_reachable : reachable false Runs.gate_raised.
Proof.
  pose proof (reach_new (C := Sim.conn) false 80 2 0) as H0.
  pose proof (reach_call false (Start (Sim.sockets_ok 3)) _ _ _ H0 eq_refl) as H1.
  pose proof (reach_call false
                (Loop (Sim.env 0 10 3 true (Sim.make 7 9 1) (Sim.make 7 2 1)) 100)
                _ _ _ H1 eq_refl) as H2.
  pose proof (reach_call false
                (Loop (Sim.env 0 10 3 true (Sim.make 8 9 1) (Sim.make 8 1 1)) 100)
                _ _ _ H2 eq_refl) as H3.
  pose proof (reach_call false
                (Loop (Sim.env 0 10 3 true (Sim.make 9 9 1) (Sim.make 9 9 1)) 100)
                _ _ _ H3 eq_refl) as H4.
  exact H4.
Qed.

(** The state after the call that finds the gate raised and both
    connections terminated, with its books: four objects created and two
    deleted since the constructor. *)
Lemma both_admitted_ledger :
  ledger false 4 2
    (final (Runs.tick true (Sim.make 10 9 1) (Sim.make 11 9 1) Runs.gate_raised)).
Proof.
  pose proof (ledger_new (C := Sim.conn) false 80 2 0) as H0.
  pose proof (ledger_call false (Start (Sim.sockets_ok 3)) _ _ _ _ _ H0 eq_refl) as H1.
  pose proof (ledger_call false
                (Loop (Sim.env 0 10 3 true (Sim.make 7 9 1) (Sim.make 7 2 1)) 100)
                _ _ _ _ _ H1 eq_refl) as H2.
  pose proof (ledger_call false
                (Loop (Sim.env 0 10 3 true (Sim.make 8 9 1) (Sim.make 8 1 1)) 100)
                _ _ _ _ _ H2 eq_refl) as H3.
  pose proof (ledger_call false
                (Loop (Sim.env 0 10 3 true (Sim.make 9 9 1) (Sim.make 9 9 1)) 100)
                _ _ _ _ _ H3 eq_refl) as H4.
  pose proof (ledger_call false
                (Loop (Sim.env 0 10 3 true (Sim.make 10 9 1) (Sim.make 11 9 1)) 100)
                _ _ _ _ _ H4 eq_refl) as H5.
  clear H0 H1 H2 H3 H4.
  match type of H5 with
  | ledger _ ?created ?deleted _ =>
      replace created with 4%nat in H5 by (vm_compute; reflexivity);
      replace deleted with 2%nat in H5 by (vm_compute; reflexivity)
  end.
  exact H5.
Qed.

(** X10 on that state: both slots occupied, and 2 + 2 = 4. *)
Lemma live_connection_objects_witness :
  let s := final (Runs.tick true (Sim.make 10 9 1) (Sim.make 11 9 1) Runs.gate_raised) in
  ledger false 4 2 s /\
  pool_shaped s /\ (occupied s + 2 = 4)%nat /\
  (4 - 2 <= Z.to_nat (_maxConnections s))%nat.
Proof.
  cbv zeta. split; [exact both_admitted_ledger |].
  exact (live_connection_objects_are_the_occupied_slots false 4 2 _ both_admitted_ledger).
Defined.

(** X11 on the state with the gate raised. *)
Lemma reachable_listener_witness :
  reachable false Runs.gate_raised /\ _running Runs.gate_raised = true /\
  0 <= _socket Runs.gate_raised.
Proof.
  split; [exact gate_raised_is_reachable |]. split; [reflexivity |].
  exact (reachable_listener_is_bound_iff_running false Runs.gate_raised
           gate_raised_is_reachable).
Defined.

(** X12 on the state with the gate raised. *)
Lemma reachable_queue_witness :
  reachable false Runs.gate_raised /\ _pendingConnection Runs.gate_raised = true /\
  _pendingQueue Runs.gate_raised <> None.
Proof.
  split; [exact gate_raised_is_reachable |]. split; [reflexivity |].
  exact (reachable_queue_holds_an_item_iff_gate_is_raised Runs.gate_raised
           gate_raised_is_reachable).
Defined.

(** ** Admission in the worker configuration *)

Section WorkerAdmission.

Context {C : Type} `{HTTPConnection C}.

(** X13: in the worker configuration an admission stands or falls with
    the creation of the task.  [startConnection] never calls
    [acceptConnection] itself; it returns 1 when [xTaskCreate] succeeds
    and -1 when it fails.  On failure the connection object is deleted
    and the slot is empty again; on success the slot holds the
    initialised object with the queue and the task handle attached. *)
Theorem worker_admission_follows_task_creation
    (adm : Admission C) (idx : Z) (s : HTTPServer C) :
  value (startConnection true adm idx s) = (if adm_task_created adm then 1 else -1) /\
  Forall (fun es => match fst es with EvAccept _ _ => False | _ => True end)
         (events (startConnection true adm idx s)) /\
  In (EvTaskCreate idx (adm_task_created adm))
     (map fst (events (startConnection true adm idx s))) /\
  (adm_task_created adm = false ->
   slot (final (startConnection true adm idx s)) idx = None /\
   In (EvDelete idx) (map fst (events (startConnection true adm idx s)))) /\
  (adm_task_created adm = true ->
   (Z.to_nat idx < length (_connections s))%nat ->
   slot (final (startConnection true adm idx s)) idx =
     Some (set_taskHandle (set_pendingQueue (initialized adm s))) /\
   ~ In (EvDelete idx) (map fst (events (startConnection true adm idx s)))).
Proof.
  unfold initialized, startConnection, createConnection, startConnectionTask, xQueueReceive,
    set_slot, value, final, events, bind, get, ret, emit, modify. simpl.
  destruct (adm_task_created adm); simpl.
  - split; [reflexivity |]. split; [repeat constructor |].
    split; [right; right; right; left; reflexivity |].
    split; [discriminate |]. intros _ Hlen. split.
    + unfold slot, put_slot. simpl.
      rewrite list_lookup_insert_eq; [reflexivity |].
      rewrite !length_insert. exact Hlen.
    + intros Hin. repeat (destruct Hin as [Heq | Hin]; [discriminate |]). destruct Hin.
  - split; [reflexivity |]. split; [repeat constructor |].
    split; [right; right; right; left; reflexivity |].
    split; [| discriminate]. intros _.
    split; [apply slot_put_empty |].
    right. right. right. right. left. reflexivity.
Qed.

End WorkerAdmission.

(** ** Descriptors opened and closed *)

Section Descriptors.

Context {C : Type} `{HTTPConnection C}.

Variable tpc : bool.

Lemma closed_descriptors_app (l1 l2 : log C) :
  closed_descriptors (l1 ++ l2) = closed_descriptors l1 ++ closed_descriptors l2.
Proof.
  induction l1 as [| [e st] l1 IH]; simpl; [reflexivity |].
  destruct e; simpl; rewrite IH; reflexivity.
Qed.

Lemma closed_descriptors_none (l : log C) :
  Forall (fun es => is_socket_call (fst es) = false) l -> closed_descriptors l = [].
Proof.
  induction 1 as [| [e st] l He _ IH]; simpl; [reflexivity |].
  destruct e; simpl in *; try exact IH; discriminate.
Qed.

Lemma sweep_no_socket_call (s : HTTPServer C) :
  Forall (fun es => is_socket_call (fst es) = false) (events (stop_sweep s)).
Proof.
  unfold stop_sweep.
  rewrite events_bind, ?value_get, ?final_get, ?events_get, ?app_nil_l.
  rewrite events_bind. apply Forall_app. split.
  - pose proof (for_each_range_inv stop_body (fun _ _ _ => True)
                  (fun es => is_socket_call (fst es) = false) (_maxConnections s)) as Hloop.
    cbv beta in Hloop. lapply Hloop; [clear Hloop; intros Hloop |].
    + apply Hloop. exact I.
    + intros k b s' _ _. split; [exact I |].
      unfold events, stop_body, bind, get, ret, emit, set_slot, modify.
      destruct (slot s' (Z.of_nat k)) as [c |]; simpl; [| constructor].
      destruct (isClosed (closeConnection c)); simpl; repeat constructor.
  - rewrite events_bind, events_emit, events_ret. repeat constructor.
Qed.

Lemma stop_while_no_socket_call (fuel : nat) (s s' : HTTPServer C) (l : log C) :
  stop_while fuel s = Some (s', l) ->
  Forall (fun es => is_socket_call (fst es) = false) l.
Proof.
  revert s s' l. induction fuel as [| fuel IH]; intros s s' l; simpl; [discriminate |].
  pose proof (sweep_no_socket_call s) as Hsweep.
  destruct (stop_sweep s) as [[b s1] l1]; unfold events in Hsweep; simpl in Hsweep.
  destruct b.
  - destruct (stop_while fuel s1) as [[s2 l2] |] eqn:Hrec; [| discriminate].
    intros Heq. inversion Heq; subst. apply Forall_app. split; [exact Hsweep |].
    exact (IH _ _ _ Hrec).
  - intros Heq. inversion Heq; subst. exact Hsweep.
Qed.

(** X14: the server closes each listener descriptor once and nothing
    else.  [start] closes only the descriptor it has just obtained, and
    only when [bind] or [listen] then fails; a [stop] that returns from
    a running server closes exactly the current listener socket, once;
    [stop] on a stopped server, [start] on a running one and [loop]
    close nothing. *)
Theorem listener_descriptor_is_closed_exactly_once :
  (forall env (s : HTTPServer C), _running s = false ->
     closed_descriptors (events (start env s)) =
       if (socket_result env >=? 0) &&
          negb ((bind_result env =? 0) && (listen_result env =? 0))
       then [socket_result env] else []) /\
  (forall env (s : HTTPServer C), _running s = true ->
     closed_descriptors (events (start env s)) = []) /\
  (forall fuel (s s' : HTTPServer C) l, stop fuel s = Some (s', l) ->
     closed_descriptors l = if _running s then [_socket s] else []) /\
  (forall env timeoutMs (s : HTTPServer C),
     closed_descriptors (events (loop tpc env timeoutMs s)) = []).
Proof.
  split; [| split; [| split]].
  - intros env s Hrun.
    unfold start, setupSocket, events, bind, get, ret, emit, modify.
    rewrite Hrun. simpl.
    destruct (socket_result env >=? 0); simpl; [| reflexivity].
    destruct (bind_result env =? 0); simpl; [| reflexivity].
    destruct (listen_result env =? 0); reflexivity.
  - intros env s Hrun. unfold start, events, bind, get, ret. rewrite Hrun. reflexivity.
  - intros fuel s s' l. unfold stop. destruct (_running s) eqn:Hrun.
    + destruct (stop_while fuel (with_running false s)) as [[s1 l1] |] eqn:Hwhile;
        [| discriminate].
      pose proof (stop_while_no_socket_call _ _ _ _ Hwhile) as Hnone.
      apply stop_while_frame in Hwhile as [Hsame _].
      unfold teardownSocket, bind, get, emit, modify. simpl.
      intros Heq. inversion Heq; subst.
      rewrite closed_descriptors_app, (closed_descriptors_none _ Hnone). simpl.
      rewrite (same_but_slots_socket _ _ Hsame). reflexivity.
    + intros Heq. inversion Heq; subst. reflexivity.
  - intros env timeoutMs s. apply closed_descriptors_none.
    apply (loop_frame tpc env timeoutMs s).
Qed.

End Descriptors.

(** ** TLS session tickets *)

Section TicketProperties.

Variable tickets : bool.

(** X15: [enable] installs the ticket callbacks and returns true exactly
    when the library was built with session tickets and the constructor's
    [mbedtls_ssl_ticket_setup] returned 0.  It then hands the session the
    default write and parse callbacks with the context set up for
    AES-256-GCM, the hardware random source and the lifetime given to the
    constructor, and touches nothing else of the session; otherwise it
    returns false and leaves the session as it was.  Enabling a session
    twice is the same as enabling it once. *)
Theorem enable_succeeds_exactly_when_ticket_setup_did
    {A : Type} (ret : Z) (tag : string) (lifetimeSeconds : Z) (ssl : TLS.SSL A) :
  let t := TLS.TLSTickets_new tickets ret tag lifetimeSeconds in
  (fst (TLS.enable tickets t ssl) = true <-> tickets = true /\ ret = 0) /\
  (fst (TLS.enable tickets t ssl) = false -> snd (TLS.enable tickets t ssl) = ssl) /\
  (fst (TLS.enable tickets t ssl) = true ->
   TLS.f_ticket_write (snd (TLS.enable tickets t ssl)) = Some TLS.mbedtls_ssl_ticket_write /\
   TLS.f_ticket_parse (snd (TLS.enable tickets t ssl)) = Some TLS.mbedtls_ssl_ticket_parse /\
   TLS.p_ticket (snd (TLS.enable tickets t ssl)) =
     Some (TLS.SetUp TLS.hardware_random TLS.MBEDTLS_CIPHER_AES_256_GCM lifetimeSeconds) /\
   TLS.other (snd (TLS.enable tickets t ssl)) = TLS.other ssl) /\
  TLS.enable tickets t (snd (TLS.enable tickets t ssl)) = TLS.enable tickets t ssl.
Proof.
  unfold TLS.enable, TLS.TLSTickets_new.
  destruct tickets; simpl.
  - destruct (ret =? 0) eqn:Hret; simpl.
    + apply Z.eqb_eq in Hret. repeat split; auto; discriminate.
    + apply Z.eqb_neq in Hret. repeat split; auto; try discriminate.
      intros [_ Hz]. contradiction.
  - repeat split; auto; try discriminate. intros [Hf _]. discriminate.
Qed.

End TicketProperties.

(** ** Shutdown that cannot finish *)

Section Unresponsive.

Context {C : Type} `{HTTPConnection C}.

Lemma never_closes_step (c : C) :
  (forall n, closes_within n c = false) ->
  isClosed (closeConnection c) = false /\
  forall n, closes_within n (closeConnection c) = false.
Proof.
  intros Hnever. split.
  - specialize (Hnever 1%nat). simpl in Hnever.
    apply orb_false_iff in Hnever. tauto.
  - intros n. specialize (Hnever (S n)). simpl in Hnever.
    apply orb_false_iff in Hnever. tauto.
Qed.

Lemma stop_while_never_returns (fuel : nat) (s : HTTPServer C) (j : Z) (c : C) :
  0 <= j < _maxConnections s -> slot s j = Some c ->
  (forall n, closes_within n c = false) ->
  stop_while fuel s = None.
Proof.
  revert s c. induction fuel as [| fuel IH]; intros s c Hj Hs Hnever; simpl; [reflexivity |].
  destruct (sweep_summary s) as [Hsame [Hswept [Hempty _]]].
  destruct (never_closes_step c Hnever) as [Hopen Hnever'].
  pose proof (Hswept j Hj) as Hslot. rewrite Hs in Hslot. simpl in Hslot.
  rewrite Hopen in Hslot.
  pose proof (same_but_slots_maxConnections _ _ Hsame) as HN.
  destruct (stop_sweep s) as [[b s1] l1]; unfold value, final in *; simpl in *.
  destruct b.
  - rewrite (IH s1 (closeConnection c)); [reflexivity | lia | exact Hslot | exact Hnever'].
  - exfalso. rewrite (Hempty eq_refl j) in Hslot by lia. discriminate.
Qed.

(** X16: shutdown waits for every peer, without limit.  If some slot of
    a running server holds a connection that never reports closed,
    however often it is asked to close, [stop] does not return: no
    amount of fuel is enough. *)
Theorem stop_never_returns_while_a_connection_stays_open
    (s : HTTPServer C) (j : Z) (c : C) :
  _running s = true -> 0 <= j < _maxConnections s -> slot s j = Some c ->
  (forall n, closes_within n c = false) ->
  forall fuel, stop fuel s = None.
Proof.
  intros Hrun Hj Hs Hnever fuel. unfold stop. rewrite Hrun.
  rewrite (stop_while_never_returns fuel (with_running false s) j c Hj Hs Hnever).
  reflexivity.
Qed.

(** X17: in the cooperative configuration an admission returns the
    result of [acceptConnection], with the gate lowered and the queue
    empty whatever that result is.  A negative result deletes the
    connection object and empties the slot again; any other result
    leaves the accepted connection in the slot and deletes nothing. *)
Theorem cooperative_admission_rolls_back_on_a_negative_result
    (adm : Admission C) (idx : Z) (s : HTTPServer C) :
  let res := fst (acceptConnection (initialized adm s)) in
  let r := startConnection false adm idx s in
  value r = res /\
  _pendingConnection (final r) = false /\ _pendingQueue (final r) = None /\
  In (EvAccept idx res) (map fst (events r)) /\
  (res < 0 -> slot (final r) idx = None /\ In (EvDelete idx) (map fst (events r))) /\
  (0 <= res ->
   ~ In (EvDelete idx) (map fst (events r)) /\
   ((Z.to_nat idx < length (_connections s))%nat ->
    slot (final r) idx = Some (snd (acceptConnection (initialized adm s))))).
Proof.
  unfold initialized, startConnection, createConnection, xQueueReceive,
    set_slot, value, final, events, bind, get, ret, emit, modify. simpl.
  destruct (acceptConnection _) as [res c'] eqn:Hacc; simpl.
  destruct (res <? 0) eqn:Hres; simpl.
  - apply Z.ltb_lt in Hres.
    split; [reflexivity |]. split; [reflexivity |]. split; [reflexivity |].
    split; [right; right; right; left; reflexivity |].
    split; [| lia]. intros _. split; [apply slot_put_empty |].
    right. right. right. right. left. reflexivity.
  - apply Z.ltb_ge in Hres.
    split; [reflexivity |]. split; [reflexivity |]. split; [reflexivity |].
    split; [right; right; right; left; reflexivity |].
    split; [lia |]. intros _. split.
    + intros Hin. repeat (destruct Hin as [Heq | Hin]; [discriminate |]). destruct Hin.
    + intros Hlen. unfold slot, put_slot. simpl.
      rewrite list_lookup_insert_eq; [reflexivity |].
      rewrite !length_insert. exact Hlen.
Qed.

End Unresponsive.

(** X16 on a one-slot server whose connection never closes. *)
Lemma stop_never_returns_witness :
  _running Deaf.server = true /\ slot Deaf.server 0 = Some tt /\
  (forall n, closes_within n tt = false) /\
  forall fuel, stop fuel Deaf.server = None.
Proof.
  assert (Hnever : forall n, closes_within n tt = false).
  { induction n as [| n IH]; simpl; [reflexivity | exact IH]. }
  assert (Hrange : 0 <= 0 < _maxConnections Deaf.server) by (vm_compute; split; congruence).
  split; [reflexivity |]. split; [reflexivity |]. split; [exact Hnever |].
  exact (stop_never_returns_while_a_connection_stays_open Deaf.server 0 tt
           eq_refl Hrange eq_refl Hnever).
Defined.

(** ** The order of a shutdown *)

Section DrainOrder.

Context {C : Type} `{HTTPConnection C}.

Lemma sweep_deletes_closed (s : HTTPServer C) :
  Forall deletes_closed (events (stop_sweep s)).
Proof.
  unfold stop_sweep.
  rewrite events_bind, ?value_get, ?final_get, ?events_get, ?app_nil_l.
  rewrite events_bind. apply Forall_app. split.
  - pose proof (for_each_range_inv stop_body (fun _ _ _ => True)
                  deletes_closed (_maxConnections s)) as Hloop.
    cbv beta in Hloop. lapply Hloop; [clear Hloop; intros Hloop |].
    + apply Hloop. exact I.
    + intros k b s' _ _. split; [exact I |].
      unfold events, stop_body, bind, get, ret, emit, set_slot, modify.
      destruct (slot s' (Z.of_nat k)) as [c |] eqn:Hslot; simpl; [| constructor].
      destruct (isClosed (closeConnection c)) eqn:Hclosed; simpl.
      * constructor; [exact I |]. constructor; [| constructor].
        unfold deletes_closed. simpl. exists (closeConnection c).
        split; [| exact Hclosed]. eapply slot_put_same. exact Hslot.
      * constructor; [exact I | constructor].
  - rewrite events_bind, events_emit, events_ret. repeat constructor.
Qed.

Lemma sweep_ends_with_delay (s : HTTPServer C) :
  exists drain st, events (stop_sweep s) = drain ++ [(EvDelay 1, st)].
Proof.
  unfold stop_sweep.
  rewrite events_bind, ?value_get, ?final_get, ?events_get, ?app_nil_l.
  rewrite events_bind. eexists. eexists.
  rewrite events_bind, events_emit, events_ret. simpl. reflexivity.
Qed.

Lemma stop_while_order (fuel : nat) (s s' : HTTPServer C) (l : log C) :
  stop_while fuel s = Some (s', l) ->
  Forall deletes_closed l /\ exists drain st, l = drain ++ [(EvDelay 1, st)].
Proof.
  revert s s' l. induction fuel as [| fuel IH]; intros s s' l; simpl; [discriminate |].
  pose proof (sweep_deletes_closed s) as Hdel.
  destruct (sweep_ends_with_delay s) as [drain [st Hend]].
  destruct (stop_sweep s) as [[b s1] l1]; unfold events in Hdel, Hend; simpl in Hdel, Hend.
  destruct b.
  - destruct (stop_while fuel s1) as [[s2 l2] |] eqn:Hrec; [| discriminate].
    intros Heq. inversion Heq; subst. destruct (IH _ _ _ Hrec) as [Hdel2 [drain2 [st2 Hend2]]].
    split; [apply Forall_app; split; assumption |].
    exists ((drain ++ [(EvDelay 1, st)]) ++ drain2), st2.
    rewrite Hend2, !app_assoc. reflexivity.
  - intros Heq. inversion Heq; subst. split; [exact Hdel |]. eauto.
Qed.

(** X18: [stop] drains the pool before it unbinds.  In the log of a
    [stop] that returns from a running server the [close] of the
    listener socket is the last event and follows a [delay(1)]; at every
    event of the call [_running] is already false while [_socket] is
    still the listener of the running server; and every connection
    object that is deleted sits in its slot and reports closed at that
    moment. *)
Theorem stop_drains_before_it_unbinds
    (fuel : nat) (s s' : HTTPServer C) (l : log C) :
  _running s = true -> stop fuel s = Some (s', l) ->
  (exists drain st1 st2,
     l = drain ++ [(EvDelay 1, st1); (EvClose (_socket s), st2)]) /\
  Forall (draining s) l /\
  Forall deletes_closed l.
Proof.
  intros Hrun. unfold stop. rewrite Hrun.
  destruct (stop_while fuel (with_running false s)) as [[s1 l1] |] eqn:Hwhile;
    [| discriminate].
  destruct (stop_while_order _ _ _ _ Hwhile) as [Hdel [drain [st Hend]]].
  apply stop_while_frame in Hwhile as [Hsame Hev].
  unfold teardownSocket, bind, get, emit, modify. simpl.
  intros Heq. inversion Heq; subst. clear Heq.
  assert (Hsock : _socket s1 = _socket s)
    by (rewrite (same_but_slots_socket _ _ Hsame); reflexivity).
  assert (Hstopped : forall st', same_but_slots (with_running false s) st' ->
                                 _running st' = false /\ _socket st' = _socket s).
  { intros st' Hs. unfold same_but_slots in Hs. rewrite Hs. split; reflexivity. }
  split; [| split].
  - exists drain, st, s1. rewrite Hsock, <- app_assoc. reflexivity.
  - apply Forall_app. split.
    + eapply Forall_impl; [exact Hev |]. intros es [_ Hs]. exact (Hstopped _ Hs).
    + constructor; [| constructor]. exact (Hstopped _ Hsame).
  - apply Forall_app. split; [exact Hdel |]. repeat constructor.
Qed.

End DrainOrder.

(** X18 on the shutdown of a server with two occupied slots, one of
    which needs three requests before it reports closed. *)
Lemma stop_drains_witness :
  let s := final (loop false (Sim.env 0 10 3 true (Sim.make 8 9 3) (Sim.make 8 9 3)) 100
                    Runs.after_first) in
  _running s = true /\
  exists s' l,
    stop 4 s = Some (s', l) /\
    (exists drain st1 st2,
       l = drain ++ [(EvDelay 1, st1); (EvClose (_socket s), st2)]) /\
    Forall (draining s) l /\ Forall deletes_closed l.
Proof.
  cbv zeta. split; [reflexivity |].
  eexists. eexists. split; [vm_compute; reflexivity |].
  eapply (stop_drains_before_it_unbinds 4); [reflexivity | vm_compute; reflexivity].
Defined.

(** ** Starting and stopping an idle server *)

Section RoundTrip.

Context {C : Type} `{HTTPConnection C}.

Lemma sweep_of_empty_pool (s : HTTPServer C) :
  all_slots_empty s -> stop_sweep s = (false, s, [(EvDelay 1, s)]).
Proof.
  intros Hempty.
  pose proof (for_each_range_inv stop_body (fun _ b st => b = false /\ st = s)
                (fun _ => False) (_maxConnections s)) as Hloop.
  cbv beta in Hloop. lapply Hloop; [clear Hloop; intros Hloop |].
  - destruct (Hloop false s (conj eq_refl eq_refl)) as [[Hb Hst] Hev]. clear Hloop.
    unfold stop_sweep, bind, get, ret, emit, value, final, events in *. simpl in *.
    destruct (for_each (range (_maxConnections s)) stop_body false s) as [[b st] l].
    simpl in *. subst. destruct l as [| es l]; [reflexivity |].
    inversion Hev; contradiction.
  - intros k b st Hk [-> ->].
    unfold stop_body, bind, get, ret, value, final, events. simpl.
    rewrite (Hempty (Z.of_nat k)) by lia. simpl. repeat split. constructor.
Qed.

(** X19: starting and then stopping an idle server is a round trip.  On
    a stopped server with no listener and an empty pool, a [start] that
    succeeds followed by [stop] returns after one sweep (a [delay(1)]
    and the [close] of the new listener, nothing else) and leaves the
    server as it was before [start], except that [_sock_addr] now holds
    the address the listener was bound to. *)
Theorem start_then_stop_is_a_round_trip
    (env : SocketEnv) (s : HTTPServer C) (fuel : nat) :
  _running s = false -> _socket s = -1 -> all_slots_empty s ->
  value (start env s) = 1 -> (0 < fuel)%nat ->
  exists st,
    stop fuel (final (start env s)) =
      Some (with_sock_addr {| sin_family := AF_INET; sin_addr := _bindAddress s;
                              sin_port := Int.htons (_port s) |} s,
            [(EvDelay 1, st); (EvClose (socket_result env), st)]) /\
    _running st = false /\ _socket st = socket_result env.
Proof.
  intros Hrun Hsock Hempty Hok Hfuel.
  destruct fuel as [| fuel]; [lia |].
  revert Hok. unfold start, setupSocket, value, final, bind, get, ret, emit, modify.
  rewrite Hrun. simpl.
  destruct (socket_result env >=? 0); simpl; [| discriminate].
  destruct (bind_result env =? 0); simpl; [| discriminate].
  destruct (listen_result env =? 0); simpl; [| discriminate].
  intros _. unfold stop. simpl.
  match goal with
  | |- context [stop_sweep ?st] =>
      assert (Hidle : all_slots_empty st)
        by (intros j Hj; exact (Hempty j Hj));
      rewrite (sweep_of_empty_pool st Hidle); exists st
  end.
  unfold teardownSocket, bind, get, emit, modify. simpl.
  split; [| split; reflexivity].
  destruct s; simpl in *; subst. reflexivity.
Qed.

End RoundTrip.

(** X19 on a fresh two-slot server and a platform that grants descriptor
    3. *)
Lemma start_then_stop_witness :
  let s : HTTPServer Sim.conn := HTTPServer_new 80 2 0 in
  exists st,
    stop 1 (final (start (Sim.sockets_ok 3) s)) =
      Some (with_sock_addr {| sin_family := AF_INET; sin_addr := _bindAddress s;
                              sin_port := Int.htons (_port s) |} s,
            [(EvDelay 1, st); (EvClose 3, st)]) /\
    _running st = false /\ _socket st = 3.
Proof.
  cbv zeta.
  apply (start_then_stop_is_a_round_trip (Sim.sockets_ok 3) (HTTPServer_new 80 2 0) 1);
    [reflexivity | reflexivity | | reflexivity | lia].
  intros j Hj. assert (Hcases : j = 0 \/ j = 1).
  { match type of Hj with _ <= _ < ?n => change n with 2 in Hj end. lia. }
  destruct Hcases as [-> | ->]; reflexivity.
Defined.
